(** * mail-receiver: message ingestion and the weekly index of [server.ts]

    A shallow embedding of [src/server.ts]: the SMTP hooks [onConnect],
    [onRcptTo] and [onData], the ingestion [handleMessageStream], the weekly
    index ([updateOrCreateWeeklyMessageIndex], [loadWeeklyIndex],
    [saveWeeklyIndex]) and the admin API: [checkApiKey], the handlers of the
    read API, and the condition under which the API is started.  The hooks of
    the earlier [src/server.js] are in the module [Legacy].

    - Strings are byte strings; letter case is that of ASCII.
    - JavaScript values are the type [value]; [JSON.stringify] with an indent
      of two spaces and [JSON.parse] are functions on it, with a proof that
      parsing the text of a value gives its JSON image back.
    - The file system is a state passed along: files by path, and the paths
      on which reads or writes fail.
    - An asynchronous function that touches the file system once is a
      function on that state.  [updateOrCreateWeeklyMessageIndex] touches it
      twice, with a suspension in between; its calls are interleaved by a
      schedule.
    - The libraries are modelled at the boundary the server sees: what
      [simpleParser] hands to its callback comes with the stream,
      [sanitize] is any function on strings, and the default time zone of
      the process is a parameter. *)

From Stdlib Require Import ZArith Ascii String List Bool Lia.
From stdpp Require Import base option list gmap strings.

Local Open Scope string_scope.
#[local] Arguments String.append !_ _ / : simpl nomatch.

(** ** String.prototype *)
Module Str.

(** [toLowerCase] on the ASCII range: 'A'..'Z' become 'a'..'z', every other
    byte is left alone. *)
Definition lower_ascii (c : ascii) : ascii :=
  let n := N_of_ascii c in
  if ((65 <=? n) && (n <=? 90))%N then ascii_of_N (n + 32) else c.

Fixpoint toLowerCase (s : string) : string :=
  match s with
  | EmptyString => EmptyString
  | String c r => String (lower_ascii c) (toLowerCase r)
  end.

(** [toLocaleLowerCase] agrees with [toLowerCase] on ASCII. *)
Definition toLocaleLowerCase (s : string) : string := toLowerCase s.

(** [s.startsWith(p)] *)
Fixpoint startsWith (s p : string) {struct p} : bool :=
  match p with
  | EmptyString => true
  | String c p' =>
      match s with
      | EmptyString => false
      | String d s' => if Ascii.eqb d c then startsWith s' p' else false
      end
  end.

(** [s.endsWith(d)]: the last [length d] characters of [s] are compared
    with [d]; a search string longer than [s] never matches. *)
Definition endsWith (s d : string) : bool :=
  let n := String.length s in
  let m := String.length d in
  if (m <=? n)%nat then String.eqb (substring (n - m) m s) d else false.

(** [s.split(sep)] for a one-character separator: the pieces between the
    separators, so that the empty string yields one empty piece. *)
Fixpoint split (sep : ascii) (s : string) : list string :=
  match s with
  | EmptyString => [EmptyString]
  | String c r =>
      if Ascii.eqb c sep then EmptyString :: split sep r
      else match split sep r with
           | [] => [String c EmptyString]
           | p :: ps => String c p :: ps
           end
  end.

(** [s.replace(pattern, replacement)] with a string pattern: the first
    occurrence only. *)
Fixpoint replace (pattern replacement s : string) : string :=
  if startsWith s pattern
  then replacement +:+ substring (String.length pattern) (String.length s) s
  else match s with
       | EmptyString => EmptyString
       | String c r => String c (replace pattern replacement r)
       end.

(** [s.slice(0, -1)] *)
Fixpoint dropLast (s : string) : string :=
  match s with
  | EmptyString => EmptyString
  | String c EmptyString => EmptyString
  | String c r => String c (dropLast r)
  end.

(** Predicates on strings, to state properties with. *)
Definition isUpper (c : ascii) : bool :=
  let n := N_of_ascii c in ((65 <=? n) && (n <=? 90))%N.

(** The string holds a capital letter of ASCII. *)
Fixpoint hasUpper (s : string) : bool :=
  match s with
  | EmptyString => false
  | String c r => isUpper c || hasUpper r
  end.

(** [s.includes(c)] for a character. *)
Fixpoint contains (c : ascii) (s : string) : bool :=
  match s with
  | EmptyString => false
  | String d r => Ascii.eqb c d || contains c r
  end.

(** [s.trim()]: white space is that of ASCII (tab, line feed, vertical tab,
    form feed, carriage return, space). *)
Definition isWhiteSpace (c : ascii) : bool :=
  let n := N_of_ascii c in ((9 <=? n) && (n <=? 13) || (n =? 32))%N.

Fixpoint trimStart (s : string) : string :=
  match s with
  | String c r => if isWhiteSpace c then trimStart r else s
  | EmptyString => EmptyString
  end.

Fixpoint trimEnd (s : string) : string :=
  match s with
  | String c r =>
      match trimEnd r with
      | EmptyString =>
          if isWhiteSpace c then EmptyString else String c EmptyString
      | r' => String c r'
      end
  | EmptyString => EmptyString
  end.

Definition trim (s : string) : string := trimEnd (trimStart s).

End Str.

(** ** JavaScript values and [JSON] *)

(** The values the server handles: what [JSON.parse] returns, the objects the
    code builds itself (whose properties may hold [undefined]) and [Error]
    objects.  Numbers are restricted to integers; the server never produces
    one itself.  An object is the list of its own enumerable properties in
    insertion order (keys that look like array indices, which JavaScript
    moves to the front, do not occur in this program); an [Error] carries its
    non-enumerable [message] next to them. *)
Unset Elimination Schemes.
Inductive value :=
| VUndefined
| VNull
| VBool (b : bool)
| VNumber (n : Z)
| VString (s : string)
| VArray (xs : list value)
| VObject (props : list (string * value))
| VError (msg : string) (own : list (string * value)).
Set Elimination Schemes.

(** Induction on values that reaches the elements of arrays and the property
    values of objects. *)
Section ValueInd.
Variable P : value -> Prop.
Hypothesis Hundef : P VUndefined.
Hypothesis Hnull : P VNull.
Hypothesis Hbool : forall b, P (VBool b).
Hypothesis Hnum : forall n, P (VNumber n).
Hypothesis Hstr : forall s, P (VString s).
Hypothesis Harr : forall xs, Forall P xs -> P (VArray xs).
Hypothesis Hobj : forall ps, Forall (fun p => P (snd p)) ps -> P (VObject ps).
Hypothesis Herr :
  forall m ps, Forall (fun p => P (snd p)) ps -> P (VError m ps).

Fixpoint value_ind (v : value) : P v :=
  let props :=
    fix props (l : list (string * value)) : Forall (fun p => P (snd p)) l :=
      match l with
      | [] => List.Forall_nil _
      | (k, x) :: r => List.Forall_cons _ (k, x) r (value_ind x) (props r)
      end in
  match v with
  | VUndefined => Hundef
  | VNull => Hnull
  | VBool b => Hbool b
  | VNumber n => Hnum n
  | VString s => Hstr s
  | VArray xs =>
      Harr xs
        ((fix elems (l : list value) : Forall P l :=
            match l with
            | [] => List.Forall_nil _
            | x :: r => List.Forall_cons _ x r (value_ind x) (elems r)
            end) xs)
  | VObject ps => Hobj ps (props ps)
  | VError m ps => Herr m ps (props ps)
  end.
End ValueInd.


Module Obj.

(** [o[k]] on a property list; an absent key reads as [undefined]. *)
Fixpoint get (k : string) (ps : list (string * value)) : value :=
  match ps with
  | [] => VUndefined
  | (k', v) :: r => if String.eqb k k' then v else get k r
  end.

(** [o[k] = v]: an existing key keeps its position, a new key goes last. *)
Fixpoint set (k : string) (v : value) (ps : list (string * value))
  : list (string * value) :=
  match ps with
  | [] => [(k, v)]
  | (k', v') :: r =>
      if String.eqb k k' then (k, v) :: r else (k', v') :: set k v r
  end.

Definition assign (target source : list (string * value))
  : list (string * value) :=
  fold_left (fun acc p => set (fst p) (snd p) acc) source target.

Fixpoint mem (k : string) (ks : list string) : bool :=
  match ks with
  | [] => false
  | k' :: r => String.eqb k k' || mem k r
  end.

Fixpoint distinct (ks : list string) : bool :=
  match ks with
  | [] => true
  | k :: r => negb (mem k r) && distinct r
  end.

End Obj.

Module JSON.

Local Open Scope list_scope.

Definition dquote : ascii := "034"%char.
Definition backslash : ascii := "092"%char.
Definition newline : ascii := "010"%char.

(** What [JSON.stringify] makes of a value before any text is produced:
    [undefined] has no image; inside an array it becomes [null], inside an
    object its property is dropped; an [Error] is the object of its own
    enumerable properties. *)
Fixpoint jsonify (v : value) : option value :=
  match v with
  | VUndefined => None
  | VNull => Some VNull
  | VBool b => Some (VBool b)
  | VNumber n => Some (VNumber n)
  | VString s => Some (VString s)
  | VArray xs =>
      Some (VArray (List.map (fun x => default VNull (jsonify x)) xs))
  | VObject ps =>
      Some (VObject
              ((fix props (l : list (string * value)) :=
                  match l with
                  | [] => []
                  | (k, x) :: r =>
                      match jsonify x with
                      | Some j => (k, j) :: props r
                      | None => props r
                      end
                  end) ps))
  | VError _ ps =>
      Some (VObject
              ((fix props (l : list (string * value)) :=
                  match l with
                  | [] => []
                  | (k, x) :: r =>
                      match jsonify x with
                      | Some j => (k, j) :: props r
                      | None => props r
                      end
                  end) ps))
  end.

Fixpoint jsonify_props (l : list (string * value)) : list (string * value) :=
  match l with
  | [] => []
  | (k, x) :: r =>
      match jsonify x with
      | Some j => (k, j) :: jsonify_props r
      | None => jsonify_props r
      end
  end.

(** The values [JSON.parse] can return. *)
Fixpoint is_json (v : value) : bool :=
  match v with
  | VUndefined | VError _ _ => false
  | VNull | VBool _ | VNumber _ | VString _ => true
  | VArray xs => forallb is_json xs
  | VObject ps => forallb (fun p => is_json (snd p)) ps
  end.

(** Objects have one property per key, at every depth. *)
Fixpoint well_formed (v : value) : bool :=
  match v with
  | VArray xs => forallb well_formed xs
  | VObject ps | VError _ ps =>
      Obj.distinct (List.map fst ps)
      && forallb (fun p => well_formed (snd p)) ps
  | _ => true
  end.

(** *** Text of a value: [JSON.stringify(v, null, '  ')] *)

Definition digit (n : N) : ascii := ascii_of_N (48 + n).

Fixpoint digits_go (fuel : nat) (n : N) : list ascii :=
  match fuel with
  | O => []
  | S f =>
      if (n <? 10)%N then [digit n]
      else digits_go f (n / 10) ++ [digit (n mod 10)]
  end.

Definition print_N (n : N) : list ascii :=
  digits_go (S (N.to_nat (N.size n))) n.

Definition print_Z (z : Z) : list ascii :=
  match z with
  | Z0 => print_N 0
  | Zpos p => print_N (Npos p)
  | Zneg p => "-"%char :: print_N (Npos p)
  end.

Definition hex_digit (n : N) : ascii :=
  if (n <? 10)%N then ascii_of_N (48 + n) else ascii_of_N (87 + n).

(** [QuoteJSONString], one character at a time. *)
Definition quote_char (c : ascii) : list ascii :=
  let n := N_of_ascii c in
  if (n =? 8)%N then [backslash; "b"%char]
  else if (n =? 9)%N then [backslash; "t"%char]
  else if (n =? 10)%N then [backslash; "n"%char]
  else if (n =? 12)%N then [backslash; "f"%char]
  else if (n =? 13)%N then [backslash; "r"%char]
  else if (n =? 34)%N then [backslash; dquote]
  else if (n =? 92)%N then [backslash; backslash]
  else if (n <? 32)%N then
    [backslash; "u"%char; "0"%char; "0"%char;
     hex_digit (n / 16); hex_digit (n mod 16)]
  else [c].

Fixpoint quote_chars (s : string) : list ascii :=
  match s with
  | EmptyString => []
  | String c r => quote_char c ++ quote_chars r
  end.

Definition quote (s : string) : list ascii :=
  dquote :: quote_chars s ++ [dquote].

(** A line break followed by the indentation of nesting depth [lvl]. *)
Definition break (lvl : nat) : list ascii :=
  newline :: List.repeat " "%char (2 * lvl).

(** The items of a non-empty array or object, one per line, and the closing
    bracket on a line of its own. *)
Fixpoint lines (lvl : nat) (close : ascii) (items : list (list ascii))
  : list ascii :=
  match items with
  | [] => break lvl ++ [close]
  | [t] => t ++ break lvl ++ [close]
  | t :: r => t ++ ","%char :: break (S lvl) ++ lines lvl close r
  end.

Definition block (lvl : nat) (open close : ascii)
           (items : list (list ascii)) : list ascii :=
  match items with
  | [] => [open; close]
  | _ => open :: break (S lvl) ++ lines lvl close items
  end.

Definition member (k : string) (t : list ascii) : list ascii :=
  quote k ++ ":"%char :: " "%char :: t.

Definition null_text : list ascii := list_ascii_of_string "null".

Fixpoint print (lvl : nat) (v : value) : option (list ascii) :=
  match v with
  | VUndefined => None
  | VNull => Some null_text
  | VBool true => Some (list_ascii_of_string "true")
  | VBool false => Some (list_ascii_of_string "false")
  | VNumber n => Some (print_Z n)
  | VString s => Some (quote s)
  | VArray xs =>
      Some (block lvl "["%char "]"%char
              (List.map (fun x => default null_text (print (S lvl) x)) xs))
  | VObject ps | VError _ ps =>
      Some (block lvl "{"%char "}"%char
              ((fix members (l : list (string * value)) :=
                  match l with
                  | [] => []
                  | (k, x) :: r =>
                      match print (S lvl) x with
                      | Some t => member k t :: members r
                      | None => members r
                      end
                  end) ps))
  end.

Fixpoint print_members (lvl : nat) (l : list (string * value))
  : list (list ascii) :=
  match l with
  | [] => []
  | (k, x) :: r =>
      match print (S lvl) x with
      | Some t => member k t :: print_members lvl r
      | None => print_members lvl r
      end
  end.

(** The text of a value where one is required: [undefined] and functions
    are written as [null] there. *)
Definition text (lvl : nat) (v : value) : list ascii :=
  default null_text (print lvl v).

(** [JSON.stringify(v, null, '  ')]; [None] is JavaScript's [undefined]. *)
Definition stringify (v : value) : option string :=
  string_of_list_ascii <$> print 0 v.

(** *** [JSON.parse] *)

Definition is_ws (c : ascii) : bool :=
  let n := N_of_ascii c in
  ((n =? 32) || (n =? 10) || (n =? 13) || (n =? 9))%N.

Fixpoint skip_ws (s : list ascii) : list ascii :=
  match s with
  | c :: r => if is_ws c then skip_ws r else s
  | [] => []
  end.

Definition is_digit (c : ascii) : bool :=
  let n := N_of_ascii c in ((48 <=? n) && (n <=? 57))%N.

Fixpoint parse_digits (acc : N) (s : list ascii) : N * list ascii :=
  match s with
  | c :: r =>
      if is_digit c then parse_digits (acc * 10 + (N_of_ascii c - 48)) r
      else (acc, s)
  | [] => (acc, [])
  end.

(** A fraction or an exponent would follow here. *)
Definition number_goes_on (s : list ascii) : bool :=
  match s with
  | c :: _ =>
      is_digit c || Ascii.eqb c "."%char || Ascii.eqb c "e"%char
      || Ascii.eqb c "E"%char
  | [] => false
  end.

Definition parse_nat (s : list ascii) : option (N * list ascii) :=
  match s with
  | c :: r =>
      if Ascii.eqb c "0"%char then
        if number_goes_on r then None else Some (0%N, r)
      else if is_digit c then
        let '(n, r') := parse_digits 0 s in
        if number_goes_on r' then None else Some (n, r')
      else None
  | [] => None
  end.

Definition parse_number (s : list ascii) : option (value * list ascii) :=
  match s with
  | c :: r =>
      if Ascii.eqb c "-"%char then
        '(n, r') ← parse_nat r; Some (VNumber (- Z.of_N n), r')
      else
        '(n, r') ← parse_nat s; Some (VNumber (Z.of_N n), r')
  | [] => None
  end.

Definition hex_value (c : ascii) : option N :=
  let n := N_of_ascii c in
  if ((48 <=? n) && (n <=? 57))%N then Some (n - 48)%N
  else if ((97 <=? n) && (n <=? 102))%N then Some (n - 87)%N
  else if ((65 <=? n) && (n <=? 70))%N then Some (n - 55)%N
  else None.

(** The bytes of the code unit [n] in the UTF-8 text of the string. *)
Definition utf8 (n : N) : list ascii :=
  if (n <? 128)%N then [ascii_of_N n]
  else if (n <? 2048)%N then
    [ascii_of_N (192 + n / 64); ascii_of_N (128 + n mod 64)]
  else
    [ascii_of_N (224 + n / 4096); ascii_of_N (128 + (n / 64) mod 64);
     ascii_of_N (128 + n mod 64)].

Definition unescape (e : ascii) : option ascii :=
  if Ascii.eqb e dquote then Some dquote
  else if Ascii.eqb e backslash then Some backslash
  else if Ascii.eqb e "/"%char then Some "/"%char
  else if Ascii.eqb e "b"%char then Some "008"%char
  else if Ascii.eqb e "f"%char then Some "012"%char
  else if Ascii.eqb e "n"%char then Some "010"%char
  else if Ascii.eqb e "r"%char then Some "013"%char
  else if Ascii.eqb e "t"%char then Some "009"%char
  else None.

(** The characters of a string literal after its opening quote, up to and
    including the closing one. *)
Fixpoint parse_chars (s : list ascii) : option (list ascii * list ascii) :=
  match s with
  | [] => None
  | c :: r =>
      if Ascii.eqb c dquote then Some ([], r)
      else if Ascii.eqb c backslash then
        match r with
        | [] => None
        | e :: r1 =>
            if Ascii.eqb e "u"%char then
              match r1 with
              | h1 :: h2 :: h3 :: h4 :: r2 =>
                  a ← hex_value h1; b ← hex_value h2;
                  c' ← hex_value h3; d ← hex_value h4;
                  '(cs, r3) ← parse_chars r2;
                  Some (utf8 (((a * 16 + b) * 16 + c') * 16 + d)%N ++ cs, r3)
              | _ => None
              end
            else
              x ← unescape e;
              '(cs, r2) ← parse_chars r1;
              Some (x :: cs, r2)
        end
      else if (N_of_ascii c <? 32)%N then None
      else '(cs, r') ← parse_chars r; Some (c :: cs, r')
  end.

Fixpoint expect (p s : list ascii) {struct p} : option (list ascii) :=
  match p with
  | [] => Some s
  | c :: p' =>
      match s with
      | d :: s' => if Ascii.eqb c d then expect p' s' else None
      | [] => None
      end
  end.

Fixpoint parse_value (fuel : nat) (s : list ascii)
  : option (value * list ascii) :=
  match fuel with
  | O => None
  | S f =>
      match skip_ws s with
      | [] => None
      | c :: r =>
          if Ascii.eqb c "["%char then
            match skip_ws r with
            | [] => None
            | c' :: r' =>
                if Ascii.eqb c' "]"%char then Some (VArray [], r')
                else '(xs, r'') ← parse_elements f (c' :: r');
                     Some (VArray xs, r'')
            end
          else if Ascii.eqb c "{"%char then
            match skip_ws r with
            | [] => None
            | c' :: r' =>
                if Ascii.eqb c' "}"%char then Some (VObject [], r')
                else '(ms, r'') ← parse_members f (c' :: r');
                     Some (VObject (Obj.assign [] ms), r'')
            end
          else if Ascii.eqb c dquote then
            '(cs, r') ← parse_chars r;
            Some (VString (string_of_list_ascii cs), r')
          else if Ascii.eqb c "n"%char then
            r' ← expect (list_ascii_of_string "ull") r; Some (VNull, r')
          else if Ascii.eqb c "t"%char then
            r' ← expect (list_ascii_of_string "rue") r;
            Some (VBool true, r')
          else if Ascii.eqb c "f"%char then
            r' ← expect (list_ascii_of_string "alse") r;
            Some (VBool false, r')
          else parse_number (c :: r)
      end
  end
with parse_elements (fuel : nat) (s : list ascii)
  : option (list value * list ascii) :=
  match fuel with
  | O => None
  | S f =>
      '(x, r) ← parse_value f s;
      match skip_ws r with
      | [] => None
      | c :: r' =>
          if Ascii.eqb c ","%char then
            '(xs, r'') ← parse_elements f r'; Some (x :: xs, r'')
          else if Ascii.eqb c "]"%char then Some ([x], r')
          else None
      end
  end
with parse_members (fuel : nat) (s : list ascii)
  : option (list (string * value) * list ascii) :=
  match fuel with
  | O => None
  | S f =>
      match skip_ws s with
      | [] => None
      | q :: r0 =>
          if Ascii.eqb q dquote then
            '(k, r1) ← parse_chars r0;
            match skip_ws r1 with
            | [] => None
            | c1 :: r2 =>
                if Ascii.eqb c1 ":"%char then
                  '(x, r3) ← parse_value f r2;
                  match skip_ws r3 with
                  | [] => None
                  | c :: r4 =>
                      if Ascii.eqb c ","%char then
                        '(ms, r5) ← parse_members f r4;
                        Some ((string_of_list_ascii k, x) :: ms, r5)
                      else if Ascii.eqb c "}"%char then
                        Some ([(string_of_list_ascii k, x)], r4)
                      else None
                  end
                else None
            end
          else None
      end
  end.

(** [JSON.parse(text)]; [None] is a thrown [SyntaxError]. *)
Definition parse (text : string) : option value :=
  let s := list_ascii_of_string text in
  '(v, r) ← parse_value (S (List.length s)) s;
  match skip_ws r with
  | [] => Some v
  | _ :: _ => None
  end.

(** The number of nested calls [parse_value] needs for the text of [v]. *)
Fixpoint size (v : value) : nat :=
  match v with
  | VArray xs => S (list_sum (List.map (fun x => S (size x)) xs))
  | VObject ps | VError _ ps =>
      S ((fix props (l : list (string * value)) :=
            match l with
            | [] => 0
            | (_, x) :: r => S (size x) + props r
            end) ps)
  | _ => 1
  end.

Fixpoint size_props (l : list (string * value)) : nat :=
  match l with
  | [] => 0
  | (_, x) :: r => S (size x) + size_props r
  end.

(** [parse_value] reads the text of [j] back, whatever follows it. *)
Definition parses (j : value) : Prop :=
  forall lvl fuel rest,
    size j <= fuel -> number_goes_on rest = false ->
    parse_value fuel (text lvl j ++ rest) = Some (j, rest).

End JSON.

(** ** Conversions between values *)
Module Js.

Definition Number_toString (z : Z) : string :=
  string_of_list_ascii (JSON.print_Z z).

Fixpoint join (sep : string) (l : list string) : string :=
  match l with
  | [] => EmptyString
  | [s] => s
  | s :: r => s +:+ sep +:+ join sep r
  end.

(** [ToString], as a template literal applies it. *)
Fixpoint toString (v : value) : string :=
  match v with
  | VUndefined => "undefined"
  | VNull => "null"
  | VBool true => "true"
  | VBool false => "false"
  | VNumber n => Number_toString n
  | VString s => s
  | VArray xs =>
      join ","
        (List.map (fun x => match x with
                            | VUndefined | VNull => EmptyString
                            | _ => toString x
                            end) xs)
  | VObject _ => "[object Object]"
  | VError m _ =>
      match m with EmptyString => "Error" | _ => "Error: " +:+ m end
  end.

(** Truthiness, as [if (v)] and [!v] test it. *)
Definition truthy (v : value) : bool :=
  match v with
  | VUndefined | VNull | VBool false | VNumber Z0 => false
  | VString s => negb (String.eqb s EmptyString)
  | _ => true
  end.

Fixpoint chars (s : string) : list value :=
  match s with
  | EmptyString => []
  | String c r => VString (String c EmptyString) :: chars r
  end.

Fixpoint indexed (i : N) (xs : list value) : list (string * value) :=
  match xs with
  | [] => []
  | x :: r => (Number_toString (Z.of_N i), x) :: indexed (i + 1) r
  end.

(** [v.k] for a key that is neither an index nor [length]; [None] is the
    [TypeError] of reading a property of [null] or [undefined]. *)
Definition read (v : value) (k : string) : option value :=
  match v with
  | VUndefined | VNull => None
  | VObject ps => Some (Obj.get k ps)
  | VError m ps =>
      Some (if String.eqb k "message" then VString m else Obj.get k ps)
  | _ => Some VUndefined
  end.

(** [...v] inside an array literal; [None] is the [TypeError] of spreading
    a value that is not iterable.  A string is iterated byte by byte. *)
Definition iterate (v : value) : option (list value) :=
  match v with
  | VArray xs => Some xs
  | VString s => Some (chars s)
  | _ => None
  end.

(** [...v] inside an object literal: the own enumerable properties. *)
Definition spread (v : value) : list (string * value) :=
  match v with
  | VObject ps | VError _ ps => ps
  | VArray xs => indexed 0 xs
  | VString s => indexed 0 (chars s)
  | _ => []
  end.

End Js.

(** An [Error] object. *)
Record Error := { message : string; own : list (string * value) }.

Definition error_value (e : Error) : value := VError (message e) (own e).

(** Results of operations that can fail with an [Error]: a rejected promise
    or a thrown exception. *)
Inductive result (A : Type) :=
| Ok (a : A)
| Err (e : Error).
Arguments Ok {A} a.
Arguments Err {A} e.

(** ** The file system ([fs/promises]) *)
Module Fs.

(** The files by path, and the paths on which reads, respectively writes,
    fail whatever the files hold (permissions, a missing directory, a full
    disk). *)
Record t := {
  files : gmap string string;
  unreadable : gset string;
  unwritable : gset string
}.

Definition ioError (code syscall path : string) : Error :=
  {| message := code +:+ ": " +:+ syscall +:+ " '" +:+ path +:+ "'";
     own := [("code", VString code); ("syscall", VString syscall);
             ("path", VString path)] |}.

Definition readFile (fs : t) (path : string) : result string :=
  if decide (path ∈ unreadable fs) then Err (ioError "EACCES" "open" path)
  else match files fs !! path with
       | Some data => Ok data
       | None => Err (ioError "ENOENT" "open" path)
       end.

Definition writeFile (fs : t) (path data : string) : result t :=
  if decide (path ∈ unwritable fs) then Err (ioError "EACCES" "open" path)
  else Ok {| files := <[path := data]> (files fs);
             unreadable := unreadable fs;
             unwritable := unwritable fs |}.

(** [mkdir(path, { recursive: true })]; directories are not part of the
    state, only the failure is. *)
Definition mkdir (fs : t) (path : string) : result t :=
  if decide (path ∈ unwritable fs) then Err (ioError "EACCES" "mkdir" path)
  else Ok fs.

Definition empty : t :=
  {| files := ∅; unreadable := ∅; unwritable := ∅ |}.

End Fs.

(** ** Luxon's [DateTime] *)
Module Luxon.

Local Open Scope Z_scope.

(** A time zone gives the offset from UTC, in minutes, at every instant
    (milliseconds since the epoch). *)
Definition Zone := Z -> Z.
Definition UTC : Zone := fun _ => 0.

Record DateTime := { ts : Z; zone : Zone }.

(** [DateTime.utc()] at the instant [now]. *)
Definition utc (now : Z) : DateTime := {| ts := now; zone := UTC |}.

Definition offset (dt : DateTime) : Z := zone dt (ts dt).

(** The wall clock of [dt] in its zone. *)
Definition localMillis (dt : DateTime) : Z := ts dt + offset dt * 60000.
Definition localDays (dt : DateTime) : Z := localMillis dt / 86400000.
Definition millisOfDay (dt : DateTime) : Z := localMillis dt mod 86400000.

(** The proleptic Gregorian date of a day number (days since 1970-01-01). *)
Definition civil (days : Z) : Z * Z * Z :=
  let z := days + 719468 in
  let era := z / 146097 in
  let doe := z - era * 146097 in
  let yoe := (doe - doe / 1460 + doe / 36524 - doe / 146096) / 365 in
  let doy := doe - (365 * yoe + yoe / 4 - yoe / 100) in
  let mp := (5 * doy + 2) / 153 in
  let d := doy - (153 * mp + 2) / 5 + 1 in
  let m := if mp <? 10 then mp + 3 else mp - 9 in
  let y := yoe + era * 400 + (if m <=? 2 then 1 else 0) in
  (y, m, d).

Definition daysFromCivil (y m d : Z) : Z :=
  let y' := if m <=? 2 then y - 1 else y in
  let era := y' / 400 in
  let yoe := y' - era * 400 in
  let doy := (153 * (if 2 <? m then m - 3 else m + 9) + 2) / 5 + d - 1 in
  let doe := yoe * 365 + yoe / 4 - yoe / 100 + doy in
  era * 146097 + doe - 719468.

Definition year (dt : DateTime) : Z := (civil (localDays dt)).1.1.
Definition month (dt : DateTime) : Z := (civil (localDays dt)).1.2.
Definition day (dt : DateTime) : Z := (civil (localDays dt)).2.
Definition hour (dt : DateTime) : Z := millisOfDay dt / 3600000.
Definition minute (dt : DateTime) : Z := millisOfDay dt / 60000 mod 60.
Definition second (dt : DateTime) : Z := millisOfDay dt / 1000 mod 60.
Definition millisecond (dt : DateTime) : Z := millisOfDay dt mod 1000.

(** ISO weekday, Monday = 1 .. Sunday = 7. *)
Definition weekday (dt : DateTime) : Z := (localDays dt + 3) mod 7 + 1.

Definition isLeapYear (y : Z) : bool :=
  (y mod 4 =? 0) && (negb (y mod 100 =? 0) || (y mod 400 =? 0)).

Definition daysInMonth (y m : Z) : Z :=
  if m =? 2 then (if isLeapYear y then 29 else 28)
  else if (m =? 4) || (m =? 6) || (m =? 9) || (m =? 11) then 30 else 31.

Definition ordinal (dt : DateTime) : Z :=
  localDays dt - daysFromCivil (year dt) 1 1 + 1.

Definition weeksInWeekYear (weekYear : Z) : Z :=
  let p1 :=
    (weekYear + weekYear / 4 - weekYear / 100 + weekYear / 400) mod 7 in
  let last := weekYear - 1 in
  let p2 := (last + last / 4 - last / 100 + last / 400) mod 7 in
  if (p1 =? 4) || (p2 =? 3) then 53 else 52.

(** [dt.weekNumber]: the ISO week of the date in the zone of [dt]. *)
Definition weekNumber (dt : DateTime) : Z :=
  let n := (ordinal dt - weekday dt + 10) / 7 in
  if n <? 1 then weeksInWeekYear (year dt - 1)
  else if weeksInWeekYear (year dt) <? n then 1
  else n.

Definition pad (width : nat) (z : Z) : string :=
  let digits := Js.Number_toString z in
  string_of_list_ascii
    (List.repeat "0"%char (width - String.length digits))
  +:+ digits.

(** [dt.toISO()], for years 0 to 9999. *)
Definition toISO (dt : DateTime) : string :=
  pad 4 (year dt) +:+ "-" +:+ pad 2 (month dt) +:+ "-" +:+ pad 2 (day dt)
  +:+ "T" +:+ pad 2 (hour dt) +:+ ":" +:+ pad 2 (minute dt) +:+ ":"
  +:+ pad 2 (second dt) +:+ "." +:+ pad 3 (millisecond dt)
  +:+ (if offset dt =? 0 then "Z"
       else (if offset dt <? 0 then "-" else "+")
            +:+ pad 2 (Z.abs (offset dt) / 60) +:+ ":"
            +:+ pad 2 (Z.abs (offset dt) mod 60)).

(** Reading a fixed number of decimal digits. *)
Fixpoint digits (n : nat) (acc : Z) (s : list ascii)
  : option (Z * list ascii) :=
  match n with
  | O => Some (acc, s)
  | S n' =>
      match s with
      | c :: r =>
          if JSON.is_digit c
          then digits n' (acc * 10 + (Z.of_N (N_of_ascii c) - 48)) r
          else None
      | [] => None
      end
  end.

Definition sep (c : ascii) (s : list ascii) : option (list ascii) :=
  match s with
  | d :: r => if Ascii.eqb c d then Some r else None
  | [] => None
  end.

(** The offset suffix of an ISO text, in minutes. *)
Definition parseOffset (s : list ascii) : option Z :=
  match s with
  | [c] => if Ascii.eqb c "Z"%char then Some 0 else None
  | c :: r =>
      sign ← (if Ascii.eqb c "+"%char then Some 1
              else if Ascii.eqb c "-"%char then Some (-1) else None);
      '(h, r1) ← digits 2 0 r;
      r2 ← sep ":"%char r1;
      '(m, r3) ← digits 2 0 r2;
      match r3 with
      | [] => if (h <=? 23) && (m <=? 59) then Some (sign * (h * 60 + m))
              else None
      | _ :: _ => None
      end
  | [] => None
  end.

(** The instant an ISO text of the form [toISO] writes denotes
    ([YYYY-MM-DDTHH:mm:ss.SSS] followed by [Z] or an offset); [None] is an
    invalid [DateTime]. *)
Definition parseISO (text : string) : option Z :=
  '(y, r) ← digits 4 0 (list_ascii_of_string text);
  r ← sep "-"%char r;
  '(mo, r) ← digits 2 0 r;
  r ← sep "-"%char r;
  '(d, r) ← digits 2 0 r;
  r ← sep "T"%char r;
  '(h, r) ← digits 2 0 r;
  r ← sep ":"%char r;
  '(mi, r) ← digits 2 0 r;
  r ← sep ":"%char r;
  '(sec, r) ← digits 2 0 r;
  r ← sep "."%char r;
  '(ms, r) ← digits 3 0 r;
  off ← parseOffset r;
  if (1 <=? mo) && (mo <=? 12) && (1 <=? d) && (d <=? daysInMonth y mo)
     && (h <=? 23) && (mi <=? 59) && (sec <=? 59)
  then Some (daysFromCivil y mo d * 86400000
             + ((h * 60 + mi) * 60 + sec) * 1000 + ms - off * 60000)
  else None.

(** [DateTime.fromISO(text)]: the instant the text denotes, seen in the
    default zone of the process. *)
Definition fromISO (systemZone : Zone) (text : string) : option DateTime :=
  instant ← parseISO text; Some {| ts := instant; zone := systemZone |}.

End Luxon.

(** ** The collaborators: smtp-server, mailparser, the environment *)

Module Smtp.
Record SMTPServerAddress := { address : string }.
Record SMTPServerEnvelope := { rcptTo : list SMTPServerAddress }.
Record SMTPServerSession := {
  id : string;
  remoteAddress : string;
  envelope : SMTPServerEnvelope
}.
End Smtp.

Module Mailparser.
Record EmailAddress := { address : option string; name : string }.
Record AddressObject := {
  value : list EmailAddress;
  html : string;
  text : string
}.
(** What [simpleParser] hands to its callback on success; [json] is the
    text [JSON.stringify(parsed, null, '  ')] of the whole object. *)
Record ParsedMail := {
  from : option AddressObject;
  subject : option string;
  json : string
}.
End Mailparser.

(** A message stream: its bytes, and what [simpleParser] reports for them,
    [(parseErr, parsed)]. *)
Record SMTPServerDataStream := {
  bytes : string;
  decoded : Error + Mailparser.ParsedMail
}.

Module Process.
Record env := {
  API_KEY : option string;
  EMAIL_DOMAIN : option string;
  EMAIL_ACCOUNT_PREFIX : option string;
  ADMIN_APP_PORT : option string
}.

(** [x || d] on an environment variable: unset and empty both give [d]. *)
Definition or (x : option string) (d : string) : string :=
  match x with
  | Some (String c r) => String c r
  | _ => d
  end.
End Process.

(** A promise once nothing more can happen to it. *)
Inductive Promise (A : Type) :=
| Resolved (a : A)
| Rejected (e : Error)
| Pending.
Arguments Resolved {A} a.
Arguments Rejected {A} e.
Arguments Pending {A}.

Definition TypeError (msg : string) : Error := {| message := msg; own := [] |}.

(** ** The data model of [server.ts] *)

Record TransactionSummary := {
  recipientFolderPath : string;
  messageId : string;
  processedAt : string;
  from : option string;
  subject : option string;
  filename : string;
  error : option Error;
  writeErr : option Error
}.

(** Assignments to the properties of a summary. *)
Definition set_error (e : Error) (t : TransactionSummary) :=
  {| recipientFolderPath := recipientFolderPath t; messageId := messageId t;
     processedAt := processedAt t; from := from t; subject := subject t;
     filename := filename t; error := Some e; writeErr := writeErr t |}.

Definition set_from (a : option string) (t : TransactionSummary) :=
  {| recipientFolderPath := recipientFolderPath t; messageId := messageId t;
     processedAt := processedAt t; from := a; subject := subject t;
     filename := filename t; error := error t; writeErr := writeErr t |}.

Definition set_subject (a : option string) (t : TransactionSummary) :=
  {| recipientFolderPath := recipientFolderPath t; messageId := messageId t;
     processedAt := processedAt t; from := from t; subject := a;
     filename := filename t; error := error t; writeErr := writeErr t |}.

Definition set_filename (f : string) (t : TransactionSummary) :=
  {| recipientFolderPath := recipientFolderPath t; messageId := messageId t;
     processedAt := processedAt t; from := from t; subject := subject t;
     filename := f; error := error t; writeErr := writeErr t |}.

Definition set_writeErr (e : Error) (t : TransactionSummary) :=
  {| recipientFolderPath := recipientFolderPath t; messageId := messageId t;
     processedAt := processedAt t; from := from t; subject := subject t;
     filename := filename t; error := error t; writeErr := Some e |}.

Record IndexType := {
  name : string;
  messages : list value
}.

Definition optional (k : string) (o : option value) : list (string * value) :=
  match o with
  | Some v => [(k, v)]
  | None => []
  end.

(** The summary as the object it is at run time.  An optional property that
    is missing and one that holds [undefined] are not told apart: no property
    read and no [JSON.stringify] does. *)
Definition summary_value (t : TransactionSummary) : value :=
  VObject
    ([("recipientFolderPath", VString (recipientFolderPath t));
      ("messageId", VString (messageId t));
      ("processedAt", VString (processedAt t));
      ("filename", VString (filename t))]
     ++ optional "error" (error_value <$> error t)
     ++ optional "from" (VString <$> from t)
     ++ optional "subject" (VString <$> subject t)
     ++ optional "writeErr" (error_value <$> writeErr t)).

Definition index_value (i : IndexType) : value :=
  VObject [("name", VString (name i)); ("messages", VArray (messages i))].

(** What a reader of the index file finds for a summary. *)
Definition summary_json (t : TransactionSummary) : value :=
  default VNull (JSON.jsonify (summary_value t)).

(** The outcome of [onData] for one message: its promise is rejected before
    a summary exists ([Failed]); it waits forever for [handleMessageStream]
    ([Stalled]); the summary reports a decode failure or a failed write and
    is only logged; or the summary is handed to the weekly index, [r] being
    the outcome of that update. *)
Inductive Handled :=
| Failed (e : Error)
| Stalled
| ParseFailed (t : TransactionSummary)
| SaveFailed (t : TransactionSummary)
| Indexed (t : TransactionSummary) (r : result unit).

(** A call of [updateOrCreateWeeklyMessageIndex] between its two accesses to
    the file system. *)
Inductive Update :=
| Loading (t : TransactionSummary)
| Saving (t : TransactionSummary) (path text : string)
| Settled (t : TransactionSummary) (r : result unit).

(** Calls in progress over one file system; [completed] lists the summaries
    whose update was persisted, latest first. *)
Record System := {
  disk : Fs.t;
  calls : list Update;
  completed : list TransactionSummary
}.

Inductive Response :=
| Json (status : nat) (body : value)
| Redirect (location : string)
| Thrown (e : Error).

Section Server.

Variable env : Process.env.
(** [sanitize(input, { replacement: '-' })] of sanitize-filename. *)
Variable sanitize : string -> string.
(** The default time zone of the process. *)
Variable systemZone : Luxon.Zone.

Definition EMAIL_DOMAINS : list string :=
  Str.split ","%char (Process.or (Process.EMAIL_DOMAIN env) EmptyString).

Definition EMAIL_ACCOUNT_PREFIX : string :=
  Process.or (Process.EMAIL_ACCOUNT_PREFIX env) EmptyString.

(** *** The SMTP hooks *)

(** [onConnect]: every connection is accepted. *)
Definition onConnect (session : Smtp.SMTPServerSession) : option Error :=
  None.

(** [onRcptTo]: the argument handed to [callback]; [None] is [callback()],
    which accepts the address. *)
Definition onRcptTo (address : Smtp.SMTPServerAddress) : option Error :=
  let recipientAddress := Str.toLowerCase (Smtp.address address) in
  if Str.startsWith recipientAddress EMAIL_ACCOUNT_PREFIX
     && (match List.find
                 (fun domain =>
                    Str.endsWith recipientAddress
                      (Str.toLocaleLowerCase domain))
                 EMAIL_DOMAINS
         with Some _ => true | None => false end)
  then None
  else Some {| message := "No thank you"; own := [] |}.

(** *** Ingestion *)

Definition createRecipientDirectory (fs : Fs.t) (recipientFolderPath : string)
  : result Fs.t :=
  Fs.mkdir fs recipientFolderPath.

(** [stream.pipe(rawFileStream)]: the bytes reach the file when it can be
    written. *)
Definition pipe (fs : Fs.t) (path data : string) : Fs.t :=
  match Fs.writeFile fs path data with
  | Ok fs' => fs'
  | Err _ => fs
  end.

(** [handleMessageStream], called at the instant [now]. *)
Definition handleMessageStream (now : Z) (fs : Fs.t)
           (recipientFolderPath messageId : string)
           (stream : SMTPServerDataStream)
  : Fs.t * Promise TransactionSummary :=
  let transactionTime := Luxon.utc now in
  let transactionSummary :=
    {| recipientFolderPath := recipientFolderPath;
       messageId := messageId;
       processedAt := Luxon.toISO transactionTime;
       from := None; subject := None;
       filename := EmptyString;
       error := None; writeErr := None |} in
  let messageLabel := Luxon.toISO transactionTime +:+ "-" +:+ messageId in
  let fs := pipe fs (recipientFolderPath +:+ messageLabel +:+ ".raw")
              (bytes stream) in
  (* the callback of simpleParser: the file to write, its body and the
     summary, unless the callback throws *)
  let callback :=
    match decoded stream with
    | inl parseErr =>
        Some (recipientFolderPath +:+ messageLabel +:+ ".err",
              default EmptyString (JSON.stringify (error_value parseErr)),
              set_error parseErr transactionSummary)
    | inr parsed =>
        let filename := recipientFolderPath +:+ messageLabel +:+ ".json" in
        let body := Mailparser.json parsed in
        let rest transactionSummary :=
          Some (filename, body,
                set_filename (messageLabel +:+ ".json")
                  (set_subject (Mailparser.subject parsed)
                     transactionSummary)) in
        match Mailparser.from parsed with
        | Some sender =>
            match Mailparser.value sender with
            | first :: _ =>
                rest (set_from (Mailparser.address first) transactionSummary)
            | [] => None (* value[0] is undefined: a TypeError *)
            end
        | None => rest transactionSummary
        end
    end in
  match callback with
  | None => (fs, Pending)
  | Some (filename, body, transactionSummary) =>
      match Fs.writeFile fs filename body with
      | Ok fs' => (fs', Resolved transactionSummary)
      | Err writeErr =>
          (fs, Resolved (set_writeErr writeErr transactionSummary))
      end
  end.

(** *** The weekly index *)

(** The name of the bucket of a [processedAt] text. *)
Definition indexName (processedAt : string) : string :=
  match Luxon.fromISO systemZone processedAt with
  | Some dt =>
      "w" +:+ Js.Number_toString (Luxon.weekNumber dt) +:+ "-"
      +:+ Js.Number_toString (Luxon.year dt)
  | None => "wNaN-NaN"
  end.

Definition indexPath (indexName : string) : string :=
  "mail/" +:+ indexName +:+ ".json".

Definition loadWeeklyIndex (fs : Fs.t) (indexName : string) : value :=
  let index :=
    VObject [("name", VString indexName); ("messages", VArray [])] in
  match Fs.readFile fs (indexPath indexName) with
  | Ok existingData =>
      match JSON.parse existingData with
      | Some parsed => parsed
      | None => index
      end
  | Err _ => index
  end.

(** [{ ...existingIndex, messages: [transactionSummary,
    ...existingIndex.messages] }] *)
Definition newIndex (transactionSummary : TransactionSummary)
           (existingIndex : value) : result value :=
  match Js.read existingIndex "messages" with
  | None => Err (TypeError "existingIndex is null")
  | Some old =>
      match Js.iterate old with
      | None => Err (TypeError "existingIndex.messages is not iterable")
      | Some older =>
          Ok (VObject
                (Obj.set "messages"
                   (VArray (summary_value transactionSummary :: older))
                   (Js.spread existingIndex)))
      end
  end.

(** The arguments [saveWeeklyIndex] passes to [writeFile]. *)
Definition indexFile (index : value) : result (string * string) :=
  match Js.read index "name", JSON.stringify index with
  | Some name, Some text => Ok (indexPath (Js.toString name), text)
  | _, _ => Err (TypeError "index is null")
  end.

Definition saveWeeklyIndex (fs : Fs.t) (index : value) : result Fs.t :=
  match indexFile index with
  | Ok (path, text) => Fs.writeFile fs path text
  | Err e => Err e
  end.

(** [updateOrCreateWeeklyMessageIndex] when nothing else touches the file
    system between its load and its save. *)
Definition updateOrCreateWeeklyMessageIndex (fs : Fs.t)
           (transactionSummary : TransactionSummary) : result Fs.t :=
  let existingIndex :=
    loadWeeklyIndex fs (indexName (processedAt transactionSummary)) in
  match newIndex transactionSummary existingIndex with
  | Ok index => saveWeeklyIndex fs index
  | Err e => Err e
  end.

(** *** [onData] *)

Definition onData (now : Z) (fs : Fs.t) (stream : SMTPServerDataStream)
           (session : Smtp.SMTPServerSession) : Fs.t * Handled :=
  match Smtp.rcptTo (Smtp.envelope session) with
  | [] => (fs, Failed (TypeError "session.envelope.rcptTo[0] is undefined"))
  | rcpt :: _ =>
      let recipientFolderPath :=
        "mail/" +:+ sanitize (Smtp.address rcpt) +:+ "/" in
      match createRecipientDirectory fs recipientFolderPath with
      | Err e => (fs, Failed e)
      | Ok fs =>
          match handleMessageStream now fs recipientFolderPath
                  (Smtp.id session) stream with
          | (fs, Resolved transactionSummary) =>
              match error transactionSummary with
              | Some _ => (fs, ParseFailed transactionSummary)
              | None =>
                  match writeErr transactionSummary with
                  | Some _ => (fs, SaveFailed transactionSummary)
                  | None =>
                      match updateOrCreateWeeklyMessageIndex fs
                              transactionSummary with
                      | Ok fs' => (fs', Indexed transactionSummary (Ok ()))
                      | Err e => (fs, Indexed transactionSummary (Err e))
                      end
                  end
              end
          | (fs, Rejected e) => (fs, Failed e)
          | (fs, Pending) => (fs, Stalled)
          end
      end
  end.

(** *** Concurrent index updates

    Between the [readFile] of [loadWeeklyIndex] and the [writeFile] of
    [saveWeeklyIndex] a call is suspended, and other calls run.  A call
    advances by one file system access at a time. *)

Definition advance (fs : Fs.t) (u : Update) : Fs.t * Update :=
  match u with
  | Loading t =>
      let existingIndex := loadWeeklyIndex fs (indexName (processedAt t)) in
      match newIndex t existingIndex with
      | Ok index =>
          match indexFile index with
          | Ok (path, text) => (fs, Saving t path text)
          | Err e => (fs, Settled t (Err e))
          end
      | Err e => (fs, Settled t (Err e))
      end
  | Saving t path text =>
      match Fs.writeFile fs path text with
      | Ok fs' => (fs', Settled t (Ok ()))
      | Err e => (fs, Settled t (Err e))
      end
  | Settled t r => (fs, u)
  end.

Definition persisted (before after : Update) : list TransactionSummary :=
  match before, after with
  | Saving t _ _, Settled _ (Ok _) => [t]
  | _, _ => []
  end.

(** The event loop resumes call [i]. *)
Definition resume (i : nat) (s : System) : System :=
  match calls s !! i with
  | Some u =>
      let '(fs, u') := advance (disk s) u in
      {| disk := fs;
         calls := <[i := u']> (calls s);
         completed := persisted u u' ++ completed s |}
  | None => s
  end.

(** A schedule names the call resumed at each turn. *)
Definition run (schedule : list nat) (s : System) : System :=
  fold_left (fun s i => resume i s) schedule s.

Definition start (fs : Fs.t) (summaries : list TransactionSummary) : System :=
  {| disk := fs; calls := Loading <$> summaries; completed := [] |}.

Definition saving (u : Update) : bool :=
  match u with Saving _ _ _ => true | _ => false end.

Definition settled (u : Update) : bool :=
  match u with Settled _ _ => true | _ => false end.

(** The calls that have read the bucket and not yet written it back. *)
Definition inFlight (s : System) : nat :=
  List.length (List.filter saving (calls s)).

(** The schedule never has two calls in flight. *)
Fixpoint serialized (schedule : list nat) (s : System) : Prop :=
  inFlight s <= 1 /\
  match schedule with
  | [] => True
  | i :: rest => serialized rest (resume i s)
  end.

(** *** The read API *)

Definition hexUpper (n : N) : ascii :=
  if (n <? 10)%N then ascii_of_N (48 + n) else ascii_of_N (55 + n).

Definition unreserved (c : ascii) : bool :=
  let n := N_of_ascii c in
  ((48 <=? n) && (n <=? 57) || (65 <=? n) && (n <=? 90)
   || (97 <=? n) && (n <=? 122))%N
  || List.existsb (Ascii.eqb c)
       (list_ascii_of_string "-_.!~*'()").

Fixpoint encodeURIComponent (s : string) : string :=
  match s with
  | EmptyString => EmptyString
  | String c r =>
      (if unreserved c then String c EmptyString
       else String "%"%char
              (String (hexUpper (N_of_ascii c / 16))
                 (String (hexUpper (N_of_ascii c mod 16)) EmptyString)))
      +:+ encodeURIComponent r
  end.

(** [parseInt] on the digits a route parameter consists of. *)
Definition parseInt (s : string) : Z :=
  Z.of_N (JSON.parse_digits 0 (list_ascii_of_string s)).1.

(** [GET /api/mail] *)
Definition currentWeek (now : Z) : Response :=
  let now := Luxon.utc now in
  Redirect ("/api/mail/" +:+ Js.Number_toString (Luxon.year now) +:+ "/"
            +:+ Js.Number_toString (Luxon.weekNumber now)).

Definition nth_string (i : nat) (l : list string) : value :=
  match l !! i with
  | Some s => VString s
  | None => VUndefined
  end.

(** The body of [index.messages.map]. *)
Definition withMessageUrl (message : value) : result value :=
  match Js.read message "recipientFolderPath", Js.read message "filename" with
  | Some (VString path), Some filename' =>
      let recipient :=
        Str.dropLast (Str.replace "mail/" EmptyString path) in
      let username := nth_string 0 (Str.split "@"%char recipient) in
      let domain := nth_string 1 (Str.split "@"%char recipient) in
      Ok (VObject
            (Obj.assign (Js.spread message)
               [("recipientFolderPath", VNull);
                ("recipient", VString recipient);
                ("message",
                 VObject
                   [("href",
                     VString
                       ("/api/mail/"
                        +:+ encodeURIComponent (Js.toString domain) +:+ "/"
                        +:+ encodeURIComponent (Js.toString username)
                        +:+ "/"
                        +:+ encodeURIComponent (Js.toString filename')))])]))
  | _, _ => Err (TypeError "message.recipientFolderPath.replace")
  end.

Fixpoint mapResult (f : value -> result value) (l : list value)
  : result (list value) :=
  match l with
  | [] => Ok []
  | x :: r =>
      match f x with
      | Ok y =>
          match mapResult f r with
          | Ok ys => Ok (y :: ys)
          | Err e => Err e
          end
      | Err e => Err e
      end
  end.

(** [GET /api/mail/:year/:week] *)
Definition listMessages (fs : Fs.t) (year week : string) : Response :=
  let weekNumber := parseInt week in
  let year := parseInt year in
  let indexName :=
    "w" +:+ Js.Number_toString weekNumber +:+ "-"
    +:+ Js.Number_toString year in
  let index := loadWeeklyIndex fs indexName in
  match Js.read index "messages" with
  | Some (VArray messages) =>
      match mapResult withMessageUrl messages with
      | Ok indexWithMessageUrls => Json 200 (VArray indexWithMessageUrls)
      | Err e => Thrown e
      end
  | _ => Thrown (TypeError "index.messages.map")
  end.

(** The path [loadMessage] reads. *)
Definition messagePath (domain username messageFilename : string) : string :=
  "mail/" +:+ sanitize (username +:+ "@" +:+ domain) +:+ "/"
  +:+ messageFilename.

Definition loadMessage (fs : Fs.t) (domain username messageFilename : string)
  : value :=
  let recipientFolderPath := messagePath domain username messageFilename in
  match Fs.readFile fs recipientFolderPath with
  | Ok existingData =>
      match JSON.parse existingData with
      | Some content =>
          VObject
            (Obj.assign
               [("domain", VString domain); ("username", VString username);
                ("messageFilename", VString messageFilename)]
               (Js.spread content))
      | None => VNull
      end
  | Err _ => VNull
  end.

(** [GET /api/mail/:domain/:username/:messageFilename] *)
Definition fetchMessage (fs : Fs.t) (domain username messageFilename : string)
  : Response :=
  let message := loadMessage fs domain username messageFilename in
  if negb (Js.truthy message)
  then Json 404 (VObject [("message", VString "Not Found")])
  else Json 200 message.

End Server.

(** *** The admin API as a whole *)

(** A request to the admin API, by the route it matches. *)
Inductive Request :=
| GetMail
| GetWeek (year week : string)
| GetMessage (domain username messageFilename : string).

Section AdminAPI.

Variable sanitize : string -> string.

(** [checkApiKey]: [None] is [next()]. *)
Definition checkApiKey (apiKey : string) (submittedAPIKey : option string)
  : option Response :=
  match submittedAPIKey with
  | Some (String c r) =>
      if negb (String.eqb (Str.trim (String c r)) apiKey)
      then Some (Json 401 (VObject [("message", VString "Access denied")]))
      else None
  | _ => Some (Json 401 (VObject [("message", VString "Access denied")]))
  end.

(** The application [startAdminAPI] sets up: [checkApiKey] runs before every
    route. *)
Definition adminAPI (apiKey : string) (now : Z) (fs : Fs.t)
           (api_key : option string) (request : Request) : Response :=
  match checkApiKey apiKey api_key with
  | Some denied => denied
  | None =>
      match request with
      | GetMail => currentWeek now
      | GetWeek year week => listMessages fs year week
      | GetMessage domain username messageFilename =>
          fetchMessage sanitize fs domain username messageFilename
      end
  end.

(** The last statement of the file: the port text and the key
    [startAdminAPI] is called with, or [None] when the admin API is left
    disabled. *)
Definition adminSettings (env : Process.env) : option (string * string) :=
  match Process.ADMIN_APP_PORT env, Process.API_KEY env with
  | Some (String c port), Some (String k key) =>
      if (String.length (String k key) <? 20)%nat then None
      else Some (String c port, String k key)
  | _, _ => None
  end.

End AdminAPI.

(** ** The earlier server, [server.js] *)
Module Legacy.
Section Legacy.

Variable env : Process.env.

Definition EMAIL_DOMAINS : list string :=
  Str.split ","%char (Process.or (Process.EMAIL_DOMAIN env) EmptyString).

(** [process.env.EMAIL_ACCOUNT_PREFIX], [undefined] when unset. *)
Definition EMAIL_ACCOUNT_PREFIX : value :=
  match Process.EMAIL_ACCOUNT_PREFIX env with
  | Some prefix => VString prefix
  | None => VUndefined
  end.

(** [onRcptTo]; [startsWith] converts its argument to a string. *)
Definition onRcptTo (address : Smtp.SMTPServerAddress) : option Error :=
  let recipientAddress := Str.toLowerCase (Smtp.address address) in
  if Str.startsWith recipientAddress (Js.toString EMAIL_ACCOUNT_PREFIX)
     && (match List.find
                 (fun domain =>
                    Str.endsWith recipientAddress
                      (Str.toLocaleLowerCase domain))
                 EMAIL_DOMAINS
         with Some _ => true | None => false end)
  then None
  else Some {| message := "No thank you"; own := [] |}.

(** [onData]: the raw copy and the decoded message or the decode error, all
    named after the session; a failed write is only logged. *)
Definition onData (fs : Fs.t) (stream : SMTPServerDataStream)
           (session : Smtp.SMTPServerSession) : Fs.t :=
  let fs := pipe fs ("mail/" +:+ Smtp.id session +:+ ".orig") (bytes stream) in
  match decoded stream with
  | inl parseErr =>
      pipe fs ("mail/" +:+ Smtp.id session +:+ ".err")
        (default EmptyString (JSON.stringify (error_value parseErr)))
  | inr parsed =>
      pipe fs ("mail/" +:+ Smtp.id session +:+ ".parsed")
        (Mailparser.json parsed)
  end.

End Legacy.
End Legacy.

(** ** Vocabulary of the specification *)

(** [d] is a suffix of [a] when letter case is ignored. *)
Definition suffix_ignoring_case (a d : string) : Prop :=
  exists u s, a = u +:+ s /\ Str.toLowerCase s = Str.toLowerCase d.

(** The file at [path] is absent, cannot be read, or does not hold JSON. *)
Definition unavailable (fs : Fs.t) (path : string) : Prop :=
  match Fs.readFile fs path with
  | Ok data => JSON.parse data = None
  | Err _ => True
  end.

(** The disk [fs'] has the permissions of [fs] and the same content at
    [q]. *)
Definition same_at (q : string) (fs fs' : Fs.t) : Prop :=
  Fs.unreadable fs' = Fs.unreadable fs /\ Fs.unwritable fs' = Fs.unwritable fs
  /\ Fs.files fs' !! q = Fs.files fs !! q.

(** A value [JSON.parse] can return: JSON, with one property per key in
    every object. *)
Definition plain (v : value) : Prop :=
  JSON.is_json v = true /\ JSON.well_formed v = true.

(** A stored entry the read API can turn into a link. *)
Definition has_folder (m : value) : Prop :=
  exists path, Js.read m "recipientFolderPath" = Some (VString path).

(** The calls of a system that have not settled. *)
Definition pending (u : Update) : option TransactionSummary :=
  match u with
  | Loading t | Saving t _ _ => Some t
  | Settled _ _ => None
  end.

(** What holds of a call of [updateOrCreateWeeklyMessageIndex] on the bucket
    [n] while the updates of that bucket are serialized and [done] lists the
    summaries persisted so far: a call that is about to save holds the bucket
    as it is on disk, with its own summary in front. *)
Definition call_ok (zone : Luxon.Zone) (n : string)
           (done : list TransactionSummary) (u : Update) : Prop :=
  match u with
  | Loading t =>
      indexName zone (processedAt t) = n
      /\ JSON.well_formed (summary_value t) = true
  | Saving t path text =>
      JSON.well_formed (summary_value t) = true
      /\ path = indexPath n
      /\ text = string_of_list_ascii
                  (JSON.text 0
                     (index_value
                        {| name := n;
                           messages :=
                             summary_value t :: (summary_json <$> done) |}))
  | Settled t r => r = Ok ()
  end.

Record invariant (zone : Luxon.Zone) (n : string)
       (summaries : list TransactionSummary) (s : System) : Prop := {
  inv_writable : indexPath n ∉ Fs.unwritable (disk s);
  inv_readable : indexPath n ∉ Fs.unreadable (disk s);
  inv_bucket :
    loadWeeklyIndex (disk s) n
    = index_value {| name := n; messages := summary_json <$> completed s |};
  inv_calls : Forall (call_ok zone n (completed s)) (calls s);
  inv_done :
    Forall (fun t => JSON.well_formed (summary_value t) = true) (completed s);
  inv_all : completed s ++ omap pending (calls s) ≡ₚ summaries
}.

(** The bucket a summary goes to, and the summary a call carries. *)
Definition bucket (zone : Luxon.Zone) (t : TransactionSummary) : string :=
  indexName zone (processedAt t).

Definition summaryOf (u : Update) : TransactionSummary :=
  match u with
  | Loading t | Saving t _ _ | Settled t _ => t
  end.

(** The summaries of [l] that go to the bucket [n], in their order. *)
Definition inBucket (zone : Luxon.Zone) (n : string)
           (l : list TransactionSummary) : list TransactionSummary :=
  List.filter (fun t => String.eqb (bucket zone t) n) l.

(** The calls on the bucket [n] that have read it and not yet written it
    back. *)
Definition inFlightOn (zone : Luxon.Zone) (n : string) (s : System) : nat :=
  List.length
    (List.filter
       (fun u => saving u && String.eqb (bucket zone (summaryOf u)) n)
       (calls s)).

(** No bucket has two calls in flight; calls on different buckets may
    overlap. *)
Definition oneInFlightPerBucket (zone : Luxon.Zone) (s : System) : Prop :=
  Forall (fun u => inFlightOn zone (bucket zone (summaryOf u)) s <= 1)
    (calls s).

Fixpoint serializedPerBucket (zone : Luxon.Zone) (schedule : list nat)
         (s : System) : Prop :=
  oneInFlightPerBucket zone s /\
  match schedule with
  | [] => True
  | i :: rest => serializedPerBucket zone rest (resume zone i s)
  end.

(** What holds of a call while the updates are serialized bucket by bucket:
    a call that is about to save holds its bucket as it is on disk, with its
    own summary in front. *)
Definition bucket_call_ok (zone : Luxon.Zone)
           (done : list TransactionSummary) (u : Update) : Prop :=
  match u with
  | Loading t => JSON.well_formed (summary_value t) = true
  | Saving t path text =>
      JSON.well_formed (summary_value t) = true
      /\ path = indexPath (bucket zone t)
      /\ text = string_of_list_ascii
                  (JSON.text 0
                     (index_value
                        {| name := bucket zone t;
                           messages :=
                             summary_value t
                               :: (summary_json
                                     <$> inBucket zone (bucket zone t) done)
                        |}))
  | Settled t r => r = Ok ()
  end.

Record buckets_invariant (zone : Luxon.Zone)
       (summaries : list TransactionSummary) (s : System) : Prop := {
  pb_writable :
    Forall (fun t => indexPath (bucket zone t) ∉ Fs.unwritable (disk s))
      summaries;
  pb_readable :
    Forall (fun t => indexPath (bucket zone t) ∉ Fs.unreadable (disk s))
      summaries;
  pb_bucket :
    Forall
      (fun t =>
         loadWeeklyIndex (disk s) (bucket zone t)
         = index_value
             {| name := bucket zone t;
                messages :=
                  summary_json <$> inBucket zone (bucket zone t) (completed s)
             |})
      summaries;
  pb_calls : Forall (bucket_call_ok zone (completed s)) (calls s);
  pb_done :
    Forall (fun t => JSON.well_formed (summary_value t) = true) (completed s);
  pb_all : completed s ++ omap pending (calls s) ≡ₚ summaries
}.

(** ** Sample data *)
Module Sample.

Definition env_unset : Process.env :=
  {| Process.API_KEY := None; Process.EMAIL_DOMAIN := None;
     Process.EMAIL_ACCOUNT_PREFIX := Some "qa-";
     Process.ADMIN_APP_PORT := None |}.

Definition env_example : Process.env :=
  {| Process.API_KEY := None; Process.EMAIL_DOMAIN := Some "example.com";
     Process.EMAIL_ACCOUNT_PREFIX := None;
     Process.ADMIN_APP_PORT := None |}.

(** A prefix with capital letters, and a domain list that ends in a comma. *)
Definition env_upper : Process.env :=
  {| Process.API_KEY := None; Process.EMAIL_DOMAIN := Some "example.com";
     Process.EMAIL_ACCOUNT_PREFIX := Some "QA-";
     Process.ADMIN_APP_PORT := None |}.

Definition env_comma : Process.env :=
  {| Process.API_KEY := None; Process.EMAIL_DOMAIN := Some "example.com,";
     Process.EMAIL_ACCOUNT_PREFIX := None;
     Process.ADMIN_APP_PORT := None |}.

(** The admin API switched on. *)
Definition env_admin : Process.env :=
  {| Process.API_KEY := Some "0123456789abcdefghij";
     Process.EMAIL_DOMAIN := Some "example.com";
     Process.EMAIL_ACCOUNT_PREFIX := None;
     Process.ADMIN_APP_PORT := Some "2255" |}.

Definition session (id address : string) : Smtp.SMTPServerSession :=
  {| Smtp.id := id; Smtp.remoteAddress := "192.0.2.1";
     Smtp.envelope := {| Smtp.rcptTo := [{| Smtp.address := address |}] |} |}.

(** The instant 2024-01-07T23:30:00.000Z, a Sunday. *)
Definition sunday_night : Z := 1704670200000.

(** A zone two hours ahead of UTC. *)
Definition plus_two : Luxon.Zone := fun _ => 120%Z.

Definition sender : Mailparser.AddressObject :=
  {| Mailparser.value :=
       [{| Mailparser.address := Some "alice@example.org";
           Mailparser.name := "Alice" |}];
     Mailparser.html := "Alice"; Mailparser.text := "Alice" |}.

Definition mail : SMTPServerDataStream :=
  {| bytes := "Subject: hello";
     decoded := inr {| Mailparser.from := Some sender;
                       Mailparser.subject := Some "hello";
                       Mailparser.json := "{}" |} |}.

Definition broken : SMTPServerDataStream :=
  {| bytes := "?";
     decoded := inl {| message := "bad message"; own := [] |} |}.

(** A message whose From header names nobody. *)
Definition anonymous : SMTPServerDataStream :=
  {| bytes := "From:";
     decoded :=
       inr {| Mailparser.from :=
                Some {| Mailparser.value := []; Mailparser.html := EmptyString;
                        Mailparser.text := EmptyString |};
              Mailparser.subject := None;
              Mailparser.json := "{}" |} |}.

Definition summary (id time : string) : TransactionSummary :=
  {| recipientFolderPath := "mail/user@example.com/";
     messageId := id;
     processedAt := time;
     from := Some "alice@example.org";
     subject := Some "hello";
     filename := time +:+ "-" +:+ id +:+ ".json";
     error := None; writeErr := None |}.

Definition first : TransactionSummary :=
  summary "a1" "2024-01-03T10:00:00.000Z".
Definition second : TransactionSummary :=
  summary "b2" "2024-01-04T11:00:00.000Z".

(** A summary of the following week. *)
Definition third : TransactionSummary :=
  summary "c3" "2024-01-10T09:00:00.000Z".

(** A double quote and a line break, to spell out JSON texts. *)
Definition q : string := String JSON.dquote EmptyString.
Definition nl : string := String JSON.newline EmptyString.

(** A disk on which one path cannot be written. *)
Definition readonly (path : string) : Fs.t :=
  {| Fs.files := ∅; Fs.unreadable := ∅; Fs.unwritable := {[path]} |}.

(** A disk that holds one file. *)
Definition holding (path data : string) : Fs.t :=
  {| Fs.files := {[path := data]}; Fs.unreadable := ∅; Fs.unwritable := ∅ |}.

(** The text [saveWeeklyIndex] writes for an index. *)
Definition stored (i : IndexType) : string :=
  default EmptyString (JSON.stringify (index_value i)).

End Sample.

(** * Properties *)

(** ** Strings *)
Section StrFacts.
Import Str.

Lemma startsWith_app s p : startsWith s p = true <-> exists r, s = p +:+ r.
Proof.
  revert s; induction p as [|c p IH]; intros s; simpl.
  - split; [intros _; exists s; reflexivity | reflexivity].
  - destruct s as [|d s]; simpl.
    + split; [discriminate | intros [r Hr]; discriminate].
    + destruct (Ascii.eqb_spec d c) as [->|Hne].
      * rewrite IH. split; intros [r Hr]; exists r; simpl in *; congruence.
      * split; [discriminate | intros [r Hr]; simpl in Hr; congruence].
Qed.


Lemma length_app (u d : string) :
  String.length (u +:+ d) = String.length u + String.length d.
Proof. induction u; simpl; congruence. Qed.

Lemma substring_all (d : string) : substring 0 (String.length d) d = d.
Proof. induction d; simpl; congruence. Qed.

Lemma substring_skip (u d : string) (m : nat) :
  substring (String.length u) m (u +:+ d) = substring 0 m d.
Proof. induction u; simpl; auto. Qed.

Lemma substring_split (s : string) (k : nat) :
  k <= String.length s ->
  s = substring 0 k s +:+ substring k (String.length s - k) s.
Proof.
  revert k; induction s as [|c s IH]; intros [|k] Hk; simpl in *;
    try reflexivity; try lia.
  - f_equal. symmetry. apply substring_all.
  - f_equal. apply IH. lia.
Qed.

Lemma endsWith_app s d : endsWith s d = true <-> exists u, s = u +:+ d.
Proof.
  unfold endsWith. split.
  - destruct (Nat.leb_spec (String.length d) (String.length s)) as [Hle|];
      [|discriminate].
    intros Heq%String.eqb_eq.
    exists (substring 0 (String.length s - String.length d) s).
    pose proof (substring_split s (String.length s - String.length d)) as Hs.
    replace (String.length s - (String.length s - String.length d))
      with (String.length d) in Hs by lia.
    rewrite Heq in Hs. apply Hs. lia.
  - intros [u ->]. rewrite length_app.
    destruct (Nat.leb_spec (String.length d)
                (String.length u + String.length d)); [|lia].
    replace (String.length u + String.length d - String.length d)
      with (String.length u) by lia.
    rewrite substring_skip, substring_all. apply String.eqb_refl.
Qed.

Lemma endsWith_empty s : endsWith s EmptyString = true.
Proof.
  apply endsWith_app. exists s. induction s; simpl; congruence.
Qed.

Lemma toLowerCase_app u v :
  toLowerCase (u +:+ v) = toLowerCase u +:+ toLowerCase v.
Proof. induction u; simpl; congruence. Qed.

Lemma toLowerCase_split s x y :
  toLowerCase s = x +:+ y ->
  exists u v, s = u +:+ v /\ toLowerCase u = x /\ toLowerCase v = y.
Proof.
  revert s; induction x as [|c x IH]; intros s H; simpl in *.
  - exists EmptyString, s. auto.
  - destruct s as [|d s]; simpl in H; [discriminate|].
    injection H as Hc Hs. destruct (IH _ Hs) as (u & v & -> & Hu & Hv).
    exists (String d u), v. simpl. rewrite Hc, Hu. auto.
Qed.

Lemma split_empty sep : split sep EmptyString = [EmptyString].
Proof. reflexivity. Qed.

End StrFacts.

(** ** JSON *)

Section JSONFacts.
Import JSON.
Local Open Scope list_scope.

Lemma jsonify_object ps : jsonify (VObject ps) = Some (VObject (jsonify_props ps)).
Proof. reflexivity. Qed.

Lemma jsonify_error m ps : jsonify (VError m ps) = Some (VObject (jsonify_props ps)).
Proof. reflexivity. Qed.

Lemma print_object lvl ps :
  print lvl (VObject ps) = Some (block lvl "{" "}" (print_members lvl ps)).
Proof.
  simpl. do 2 f_equal. induction ps as [|[k x] ps IH]; simpl; [reflexivity|].
  destruct (print (S lvl) x); rewrite IH; reflexivity.
Qed.

Lemma print_error lvl m ps :
  print lvl (VError m ps) = Some (block lvl "{" "}" (print_members lvl ps)).
Proof.
  simpl. do 2 f_equal. induction ps as [|[k x] ps IH]; simpl; [reflexivity|].
  destruct (print (S lvl) x); rewrite IH; reflexivity.
Qed.

Lemma print_array lvl xs :
  print lvl (VArray xs) = Some (block lvl "[" "]" (List.map (text (S lvl)) xs)).
Proof. reflexivity. Qed.

(** [jsonify] is a normal form: its results are JSON values, and JSON
    values are their own image. *)
Lemma jsonify_is_json v j : jsonify v = Some j -> is_json j = true.
Proof.
  revert j; induction v as [| |b|n|s|xs IH|ps IH|m ps IH] using value_ind;
    intros j Hj.
  1-5: simpl in Hj; simplify_eq; reflexivity.
  - simpl in Hj. simplify_eq. simpl.
    induction IH as [|x xs Hx _ IHxs]; simpl; [reflexivity|].
    rewrite IHxs, andb_true_r.
    destruct (jsonify x) eqn:E; simpl; [eauto | reflexivity].
  - rewrite jsonify_object in Hj. simplify_eq. simpl.
    induction IH as [|[k x] ps Hx _ IHps]; simpl; [reflexivity|].
    simpl in Hx. destruct (jsonify x) eqn:E; simpl; [|assumption].
    rewrite IHps, andb_true_r. eauto.
  - rewrite jsonify_error in Hj. simplify_eq. simpl.
    induction IH as [|[k x] ps Hx _ IHps]; simpl; [reflexivity|].
    simpl in Hx. destruct (jsonify x) eqn:E; simpl; [|assumption].
    rewrite IHps, andb_true_r. eauto.
Qed.

Lemma jsonify_of_json j : is_json j = true -> jsonify j = Some j.
Proof.
  induction j as [| |b|n|s|xs IH|ps IH|m ps IH] using value_ind; intros Hj;
    try reflexivity; try discriminate.
  - simpl in *. do 2 f_equal.
    induction IH as [|x xs Hx _ IHxs]; simpl in *; [reflexivity|].
    apply andb_true_iff in Hj as [H1 H2].
    rewrite (Hx H1), (IHxs H2). reflexivity.
  - rewrite jsonify_object. do 2 f_equal. simpl in Hj.
    induction IH as [|[k x] ps Hx _ IHps]; simpl in *; [reflexivity|].
    apply andb_true_iff in Hj as [H1 H2].
    rewrite (Hx H1), (IHps H2). reflexivity.
Qed.

Lemma jsonify_idempotent v j : jsonify v = Some j -> jsonify j = Some j.
Proof. intros H. apply jsonify_of_json, (jsonify_is_json v), H. Qed.

Lemma mem_jsonify_props k ps :
  Obj.mem k (List.map fst (jsonify_props ps)) = true ->
  Obj.mem k (List.map fst ps) = true.
Proof.
  induction ps as [|[k' x] ps IH]; simpl; [auto|].
  destruct (jsonify x); simpl; intros H.
  - apply orb_true_iff in H as [H|H]; apply orb_true_iff; auto.
  - apply orb_true_iff; auto.
Qed.

Lemma distinct_jsonify_props ps :
  Obj.distinct (List.map fst ps) = true ->
  Obj.distinct (List.map fst (jsonify_props ps)) = true.
Proof.
  induction ps as [|[k x] ps IH]; simpl; [auto|].
  intros [H1 H2]%andb_true_iff. destruct (jsonify x); simpl; auto.
  rewrite (IH H2), andb_true_r.
  destruct (Obj.mem k (List.map fst (jsonify_props ps))) eqn:E; [|reflexivity].
  apply mem_jsonify_props in E. rewrite E in H1. discriminate.
Qed.

Lemma jsonify_well_formed v j :
  well_formed v = true -> jsonify v = Some j -> well_formed j = true.
Proof.
  revert j; induction v as [| |b|n|s|xs IH|ps IH|m ps IH] using value_ind;
    intros j Hw Hj.
  1-5: simpl in Hj; simplify_eq; reflexivity.
  - simpl in Hj. simplify_eq. simpl in *.
    induction IH as [|x xs Hx _ IHxs]; simpl in *; [reflexivity|].
    apply andb_true_iff in Hw as [H1 H2]. rewrite (IHxs H2), andb_true_r.
    destruct (jsonify x) eqn:E; simpl; [eauto | reflexivity].
  - rewrite jsonify_object in Hj. simplify_eq. simpl in *.
    apply andb_true_iff in Hw as [Hd Hw].
    rewrite (distinct_jsonify_props _ Hd). simpl. clear Hd.
    induction IH as [|[k x] ps Hx _ IHps]; simpl in *; [reflexivity|].
    apply andb_true_iff in Hw as [H1 H2].
    destruct (jsonify x) eqn:E; simpl; [|auto].
    rewrite (IHps H2), andb_true_r. eauto.
  - rewrite jsonify_error in Hj. simplify_eq. simpl in *.
    apply andb_true_iff in Hw as [Hd Hw].
    rewrite (distinct_jsonify_props _ Hd). simpl. clear Hd.
    induction IH as [|[k x] ps Hx _ IHps]; simpl in *; [reflexivity|].
    apply andb_true_iff in Hw as [H1 H2].
    destruct (jsonify x) eqn:E; simpl; [|auto].
    rewrite (IHps H2), andb_true_r. eauto.
Qed.

(** The text of a value is the text of its JSON image. *)
Lemma print_jsonify v lvl :
  print lvl v = j ← jsonify v; print lvl j.
Proof.
  revert lvl; induction v as [| |b|n|s|xs IH|ps IH|m ps IH] using value_ind;
    intros lvl; try reflexivity.
  - change (jsonify (VArray xs))
      with (Some (VArray (List.map (fun x => default VNull (jsonify x)) xs))).
    cbn [mbind option_bind]. rewrite !print_array.
    do 2 f_equal. rewrite List.map_map.
    induction IH as [|x xs Hx _ IHxs]; simpl; [reflexivity|].
    rewrite IHxs. f_equal. unfold text. rewrite Hx.
    destruct (jsonify x); reflexivity.
  - rewrite print_object, jsonify_object.
    cbn [mbind option_bind]. rewrite print_object.
    do 2 f_equal.
    induction IH as [|[k x] ps Hx _ IHps]; simpl; [reflexivity|].
    simpl in Hx. rewrite Hx. destruct (jsonify x) as [j|]; simpl; [|assumption].
    destruct (print (S lvl) j); rewrite IHps; reflexivity.
  - rewrite print_error, jsonify_error.
    cbn [mbind option_bind]. rewrite print_object.
    do 2 f_equal.
    induction IH as [|[k x] ps Hx _ IHps]; simpl; [reflexivity|].
    simpl in Hx. rewrite Hx. destruct (jsonify x) as [j|]; simpl; [|assumption].
    destruct (print (S lvl) j); rewrite IHps; reflexivity.
Qed.

End JSONFacts.

Section JSONText.
Import JSON.
Local Open Scope list_scope.
Local Open Scope N_scope.

(** *** Numbers *)

Lemma digit_range d :
  d < 10 ->
  is_digit (digit d) = true /\ N_of_ascii (digit d) - 48 = d
  /\ is_ws (digit d) = false /\ number_goes_on [digit d] = true.
Proof.
  intros H.
  assert (d = 0 \/ d = 1 \/ d = 2 \/ d = 3 \/ d = 4 \/ d = 5 \/ d = 6
          \/ d = 7 \/ d = 8 \/ d = 9) as Hd by lia.
  repeat destruct Hd as [->|Hd]; try subst d; repeat split; reflexivity.
Qed.

Lemma digit_head d :
  d < 10 ->
  forall c, c = digit d ->
  Ascii.eqb c "[" = false /\ Ascii.eqb c "{" = false
  /\ Ascii.eqb c dquote = false /\ Ascii.eqb c "n" = false
  /\ Ascii.eqb c "t" = false /\ Ascii.eqb c "f" = false
  /\ Ascii.eqb c "-" = false /\ Ascii.eqb c "]" = false
  /\ Ascii.eqb c "}" = false
  /\ (Ascii.eqb c "0" = true <-> d = 0).
Proof.
  intros H c ->.
  assert (d = 0 \/ d = 1 \/ d = 2 \/ d = 3 \/ d = 4 \/ d = 5 \/ d = 6
          \/ d = 7 \/ d = 8 \/ d = 9) as Hd by lia.
  repeat destruct Hd as [->|Hd]; try subst d; repeat split;
    try reflexivity; try discriminate.
Qed.

Lemma digits_go_parse f n :
  n < 2 ^ N.of_nat f ->
  exists k, forall acc rest,
    parse_digits acc (digits_go f n ++ rest) = parse_digits (acc * k + n) rest.
Proof.
  revert n; induction f as [|f IH]; intros n Hn.
  - exists 1. intros acc rest. simpl in *.
    replace (acc * 1 + n) with acc by lia. reflexivity.
  - cbn [digits_go]. destruct (N.ltb_spec n 10) as [Hlt|Hge].
    + exists 10. intros acc rest. simpl.
      destruct (digit_range n Hlt) as (-> & -> & _). reflexivity.
    + destruct (IH (n / 10)) as [k Hk].
      { rewrite Nat2N.inj_succ, N.pow_succ_r' in Hn.
        apply N.Div0.div_lt_upper_bound. lia. }
      exists (k * 10). intros acc rest.
      rewrite <- List.app_assoc, Hk. simpl.
      destruct (digit_range (n mod 10)) as (-> & -> & _).
      { apply N.mod_lt. lia. }
      f_equal. pose proof (N.div_mod n 10). lia.
Qed.

Lemma digits_go_head f n :
  0 < n -> n < 2 ^ N.of_nat f ->
  exists d r, 0 < d /\ d < 10 /\ digits_go f n = digit d :: r.
Proof.
  revert n; induction f as [|f IH]; intros n Hpos Hn.
  - simpl in Hn. lia.
  - cbn [digits_go]. destruct (N.ltb_spec n 10) as [Hlt|Hge].
    + exists n, []. auto.
    + destruct (IH (n / 10)) as (d & r & H1 & H2 & ->).
      { apply N.div_str_pos. lia. }
      { rewrite Nat2N.inj_succ, N.pow_succ_r' in Hn.
        apply N.Div0.div_lt_upper_bound. lia. }
      exists d, (r ++ [digit (n mod 10)]). auto.
Qed.

Lemma print_N_bound n : n < 2 ^ N.of_nat (S (N.to_nat (N.size n))).
Proof.
  rewrite Nat2N.inj_succ, N2Nat.id, N.pow_succ_r'.
  pose proof (N.size_gt n). lia.
Qed.

Lemma parse_digits_stop acc rest :
  number_goes_on rest = false -> parse_digits acc rest = (acc, rest).
Proof.
  destruct rest as [|c rest]; [reflexivity|]. cbn [number_goes_on parse_digits].
  intros H. repeat apply orb_false_iff in H as [H _]. rewrite H. reflexivity.
Qed.

Lemma parse_nat_print_N n rest :
  number_goes_on rest = false ->
  parse_nat (print_N n ++ rest) = Some (n, rest).
Proof.
  intros Hrest. destruct (N.eq_dec n 0) as [->|Hn].
  - simpl. rewrite Hrest. reflexivity.
  - unfold print_N.
    destruct (digits_go_head _ n ltac:(lia) (print_N_bound n))
      as (d & r & Hd0 & Hd & Hdig).
    destruct (digits_go_parse _ n (print_N_bound n)) as [k Hk].
    specialize (Hk 0 rest). rewrite N.mul_0_l, N.add_0_l in Hk.
    rewrite (parse_digits_stop n rest Hrest) in Hk.
    rewrite Hdig in *.
    destruct (digit_head d Hd _ eq_refl) as (_&_&_&_&_&_&_&_&_&Hz).
    destruct (digit_range d Hd) as (Hdg & _).
    unfold parse_nat. rewrite <- List.app_comm_cons.
    destruct (Ascii.eqb (digit d) "0") eqn:E;
      [destruct Hz as [Hz _]; specialize (Hz eq_refl); lia|].
    rewrite Hdg, List.app_comm_cons, Hk, Hrest. reflexivity.
Qed.

Lemma print_N_head n :
  exists d r, d < 10 /\ print_N n = digit d :: r.
Proof.
  destruct (N.eq_dec n 0) as [->|Hn].
  - exists 0, []. split; [lia | reflexivity].
  - destruct (digits_go_head _ n ltac:(lia) (print_N_bound n))
      as (d & r & _ & Hd & Hdig).
    exists d, r. auto.
Qed.

Lemma parse_number_print_Z z rest :
  number_goes_on rest = false ->
  parse_number (print_Z z ++ rest) = Some (VNumber z, rest).
Proof.
  intros Hrest. destruct z as [|p|p]; unfold print_Z.
  - simpl. rewrite Hrest. reflexivity.
  - destruct (print_N_head (N.pos p)) as (d & r & Hd & E).
    pose proof (parse_nat_print_N (N.pos p) rest Hrest) as H.
    rewrite E in *. simpl List.app in *. unfold parse_number.
    destruct (digit_head d Hd _ eq_refl) as (_&_&_&_&_&_&->&_).
    rewrite H. reflexivity.
  - simpl. rewrite parse_nat_print_N by assumption. reflexivity.
Qed.

(** *** Strings *)

Lemma parse_chars_quote_char c r :
  parse_chars (quote_char c ++ r)
  = '(cs, r') ← parse_chars r; Some (c :: cs, r').
Proof.
  destruct c as [[] [] [] [] [] [] [] []]; reflexivity.
Qed.

Lemma parse_chars_quote s rest :
  parse_chars (quote_chars s ++ dquote :: rest)
  = Some (list_ascii_of_string s, rest).
Proof.
  induction s as [|c s IH]; [reflexivity|].
  cbn [quote_chars]. rewrite <- List.app_assoc, parse_chars_quote_char, IH.
  reflexivity.
Qed.

End JSONText.

Ltac right_assoc :=
  repeat (rewrite <- List.app_assoc || rewrite <- List.app_comm_cons).

Section JSONRoundTrip.
Import JSON.
Local Open Scope list_scope.

(** *** White space *)

Lemma skip_ws_idempotent s : skip_ws (skip_ws s) = skip_ws s.
Proof.
  induction s as [|c s IH]; [reflexivity|]. simpl.
  destruct (is_ws c) eqn:E; [assumption|]. simpl. rewrite E. reflexivity.
Qed.

Lemma skip_ws_spaces n s : skip_ws (List.repeat " "%char n ++ s) = skip_ws s.
Proof. induction n; simpl; auto. Qed.

Lemma skip_ws_break lvl s : skip_ws (break lvl ++ s) = skip_ws s.
Proof. unfold break. simpl. apply skip_ws_spaces. Qed.

Lemma skip_ws_space s : skip_ws (" "%char :: s) = skip_ws s.
Proof. reflexivity. Qed.

Lemma skip_ws_head c s : is_ws c = false -> skip_ws (c :: s) = c :: s.
Proof. intros H. simpl. rewrite H. reflexivity. Qed.

(** *** One step of the parser *)

Lemma parse_value_skip f s : parse_value f (skip_ws s) = parse_value f s.
Proof. destruct f; [reflexivity|]. simpl. rewrite skip_ws_idempotent. reflexivity. Qed.

Lemma parse_elements_skip f s :
  parse_elements f (skip_ws s) = parse_elements f s.
Proof.
  destruct f; [reflexivity|]. cbn [parse_elements].
  rewrite parse_value_skip. reflexivity.
Qed.

Lemma parse_members_skip f s :
  parse_members f (skip_ws s) = parse_members f s.
Proof.
  destruct f; [reflexivity|]. cbn [parse_members].
  rewrite skip_ws_idempotent. reflexivity.
Qed.

Lemma parse_value_array f r c r' :
  skip_ws r = c :: r' -> Ascii.eqb c "]" = false ->
  parse_value (S f) ("["%char :: r)
  = '(xs, r'') ← parse_elements f (c :: r'); Some (VArray xs, r'').
Proof. intros H1 H2. simpl. rewrite H1, H2. reflexivity. Qed.

Lemma parse_value_object f r c r' :
  skip_ws r = c :: r' -> Ascii.eqb c "}" = false ->
  parse_value (S f) ("{"%char :: r)
  = '(ms, r'') ← parse_members f (c :: r');
    Some (VObject (Obj.assign [] ms), r'').
Proof. intros H1 H2. simpl. rewrite H1, H2. reflexivity. Qed.

Lemma parse_value_string f s rest :
  parse_value (S f) (quote s ++ rest) = Some (VString s, rest).
Proof.
  unfold quote. simpl. rewrite <- List.app_assoc. simpl.
  rewrite parse_chars_quote. simpl.
  rewrite string_of_list_ascii_of_string. reflexivity.
Qed.

Lemma parse_value_number f z rest :
  number_goes_on rest = false ->
  parse_value (S f) (print_Z z ++ rest) = Some (VNumber z, rest).
Proof.
  intros Hrest. rewrite <- (parse_number_print_Z z rest Hrest).
  assert (exists c r, print_Z z ++ rest = c :: r
            /\ ((exists d, (d < 10)%N /\ c = digit d) \/ c = "-"%char))
    as (c & r & -> & Hc).
  { destruct z as [|p|p]; unfold print_Z.
    - destruct (print_N_head 0) as (d & r & Hd & ->). eauto 10.
    - destruct (print_N_head (N.pos p)) as (d & r & Hd & ->). eauto 10.
    - eexists _, _. split; [reflexivity | auto]. }
  destruct Hc as [(d & Hd & ->)| ->]; [|reflexivity].
  destruct (digit_head d Hd _ eq_refl) as (H1&H2&H3&H4&H5&H6&_).
  destruct (digit_range d Hd) as (_&_&Hws&_).
  cbn [parse_value]. rewrite (skip_ws_head _ _ Hws), H1, H2, H3, H4, H5, H6.
  reflexivity.
Qed.

Lemma parse_elements_step f x r s c r' :
  parse_value f s = Some (x, r) -> skip_ws r = c :: r' ->
  parse_elements (S f) s
  = if Ascii.eqb c ","
    then '(xs, r'') ← parse_elements f r'; Some (x :: xs, r'')
    else if Ascii.eqb c "]" then Some ([x], r') else None.
Proof. intros H1 H2. cbn [parse_elements]. rewrite H1. simpl. rewrite H2. reflexivity. Qed.

Lemma parse_members_step f k x s r c r' :
  parse_value f s = Some (x, r) -> skip_ws r = c :: r' ->
  parse_members (S f) (quote k ++ ":"%char :: s)
  = if Ascii.eqb c ","
    then '(ms, r'') ← parse_members f r'; Some ((k, x) :: ms, r'')
    else if Ascii.eqb c "}" then Some ([(k, x)], r') else None.
Proof.
  intros H1 H2. unfold quote. cbn [parse_members]. simpl List.app.
  rewrite <- List.app_assoc. simpl List.app.
  rewrite skip_ws_head by reflexivity.
  change (Ascii.eqb dquote dquote) with true. cbn match.
  rewrite parse_chars_quote. simpl. rewrite H1. simpl. rewrite H2.
  rewrite string_of_list_ascii_of_string. reflexivity.
Qed.

(** *** Texts of JSON values *)

Lemma print_json lvl j : is_json j = true -> print lvl j = Some (text lvl j).
Proof.
  destruct j as [| |[]|n|s|xs|ps|m ps]; intros H; try discriminate;
    reflexivity.
Qed.

Lemma block_head lvl open close items :
  exists t, block lvl open close items = open :: t.
Proof. destruct items; simpl; eauto. Qed.

Lemma text_start lvl j :
  is_json j = true ->
  exists c t, text lvl j = c :: t /\ is_ws c = false
              /\ Ascii.eqb c "]" = false /\ Ascii.eqb c "}" = false.
Proof.
  destruct j as [| |[]|n|s|xs|ps|m ps]; intros H; try discriminate.
  1-3, 5: eexists _, _; split; [reflexivity | auto].
  - unfold text. simpl. destruct n as [|p|p]; unfold print_Z.
    + destruct (print_N_head 0) as (d & r & Hd & ->).
      destruct (digit_head d Hd _ eq_refl) as (_&_&_&_&_&_&_&?&?&_).
      destruct (digit_range d Hd) as (_&_&?&_). eauto 10.
    + destruct (print_N_head (N.pos p)) as (d & r & Hd & ->).
      destruct (digit_head d Hd _ eq_refl) as (_&_&_&_&_&_&_&?&?&_).
      destruct (digit_range d Hd) as (_&_&?&_). eauto 10.
    + eexists _, _; split; [reflexivity | auto].
  - unfold text. rewrite print_array. simpl.
    destruct (block_head lvl "[" "]" (List.map (text (S lvl)) xs)) as [t ->].
    eexists _, _; split; [reflexivity | auto].
  - unfold text. rewrite print_object. simpl.
    destruct (block_head lvl "{" "}" (print_members lvl ps)) as [t ->].
    eexists _, _; split; [reflexivity | auto].
Qed.

Lemma skip_ws_text lvl j s :
  is_json j = true -> skip_ws (text lvl j ++ s) = text lvl j ++ s.
Proof.
  intros H. destruct (text_start lvl j H) as (c & t & -> & Hc & _).
  apply skip_ws_head, Hc.
Qed.

Lemma print_members_json lvl ps :
  forallb (fun p => is_json (snd p)) ps = true ->
  print_members lvl ps
  = List.map (fun p => member (fst p) (text (S lvl) (snd p))) ps.
Proof.
  induction ps as [|[k x] ps IH]; simpl; [reflexivity|].
  intros [H1 H2]%andb_true_iff.
  rewrite (print_json _ _ H1), (IH H2). reflexivity.
Qed.

Lemma lines_cons lvl close t u r :
  lines lvl close (t :: u :: r)
  = t ++ ","%char :: break (S lvl) ++ lines lvl close (u :: r).
Proof. reflexivity. Qed.

Lemma lines_last lvl close t :
  lines lvl close [t] = t ++ break lvl ++ [close].
Proof. reflexivity. Qed.

Lemma lines_start lvl close c t items rest :
  exists u, lines lvl close ((c :: t) :: items) ++ rest = c :: u.
Proof. destruct items; simpl; eauto. Qed.

Lemma parse_value_block_array f lvl c t items rest :
  is_ws c = false -> Ascii.eqb c "]" = false ->
  parse_value (S f) (block lvl "[" "]" ((c :: t) :: items) ++ rest)
  = '(xs, r) ← parse_elements f (lines lvl "]" ((c :: t) :: items) ++ rest);
    Some (VArray xs, r).
Proof.
  intros Hws Hc. destruct (lines_start lvl "]" c t items rest) as [u Hu].
  cbn [block]. right_assoc.
  rewrite (parse_value_array f _ c u), Hu; [reflexivity| |assumption].
  rewrite skip_ws_break, Hu. apply skip_ws_head, Hws.
Qed.

Lemma parse_value_block_object f lvl c t items rest :
  is_ws c = false -> Ascii.eqb c "}" = false ->
  parse_value (S f) (block lvl "{" "}" ((c :: t) :: items) ++ rest)
  = '(ms, r) ← parse_members f (lines lvl "}" ((c :: t) :: items) ++ rest);
    Some (VObject (Obj.assign [] ms), r).
Proof.
  intros Hws Hc. destruct (lines_start lvl "}" c t items rest) as [u Hu].
  cbn [block]. right_assoc.
  rewrite (parse_value_object f _ c u), Hu; [reflexivity| |assumption].
  rewrite skip_ws_break, Hu. apply skip_ws_head, Hws.
Qed.

(** *** Parsing the text of a value gives the value back *)


Lemma parse_elements_lines lvl x xs rest fuel :
  Forall parses (x :: xs) -> forallb is_json (x :: xs) = true ->
  list_sum (List.map (fun x => S (size x)) (x :: xs)) <= fuel ->
  parse_elements fuel
    (lines lvl "]" (List.map (text (S lvl)) (x :: xs)) ++ rest)
  = Some (x :: xs, rest).
Proof.
  revert x fuel; induction xs as [|y ys IH]; intros x fuel HP Hj Hfuel;
    inversion HP as [|? ? Hx HP']; subst;
    apply andb_true_iff in Hj as [Hjx Hj];
    (destruct fuel as [|f]; [simpl in Hfuel; lia|]).
  - cbn [List.map]. rewrite lines_last. right_assoc.
    erewrite parse_elements_step.
    2:{ apply Hx; [simpl in Hfuel; lia | reflexivity]. }
    2:{ rewrite skip_ws_break. apply skip_ws_head. reflexivity. }
    reflexivity.
  - cbn [List.map]. rewrite lines_cons. right_assoc.
    erewrite parse_elements_step.
    2:{ apply Hx; [simpl in Hfuel; lia | reflexivity]. }
    2:{ apply skip_ws_head. reflexivity. }
    change (Ascii.eqb "," ",") with true. cbn match.
    rewrite <- parse_elements_skip, skip_ws_break, parse_elements_skip.
    change (text (S lvl) y :: List.map (text (S lvl)) ys)
      with (List.map (text (S lvl)) (y :: ys)).
    rewrite IH; [reflexivity | assumption | assumption |].
    simpl in *. lia.
Qed.

Lemma parse_members_lines lvl p ps rest fuel :
  Forall (fun p => parses (snd p)) (p :: ps) ->
  forallb (fun p => is_json (snd p)) (p :: ps) = true ->
  size_props (p :: ps) <= fuel ->
  parse_members fuel
    (lines lvl "}"
       (List.map (fun p => member (fst p) (text (S lvl) (snd p))) (p :: ps))
     ++ rest)
  = Some (p :: ps, rest).
Proof.
  revert p fuel; induction ps as [|q qs IH]; intros [k x] fuel HP Hj Hfuel;
    inversion HP as [|? ? Hx HP']; subst;
    apply andb_true_iff in Hj as [Hjx Hj];
    (destruct fuel as [|f]; [simpl in Hfuel; lia|]).
  - cbn [List.map fst snd]. rewrite lines_last. unfold member.
    right_assoc.
    erewrite parse_members_step.
    2:{ rewrite <- parse_value_skip, skip_ws_space, parse_value_skip.
        apply Hx; [simpl in Hfuel |- *; lia | reflexivity]. }
    2:{ rewrite skip_ws_break. apply skip_ws_head. reflexivity. }
    reflexivity.
  - cbn [List.map fst snd]. rewrite lines_cons. unfold member at 1.
    right_assoc.
    erewrite parse_members_step.
    2:{ rewrite <- parse_value_skip, skip_ws_space, parse_value_skip.
        apply Hx; [simpl in Hfuel |- *; lia | reflexivity]. }
    2:{ apply skip_ws_head. reflexivity. }
    change (Ascii.eqb "," ",") with true. cbn match.
    rewrite <- parse_members_skip, skip_ws_break, parse_members_skip.
    change (member q.1 (text (S lvl) q.2)
              :: List.map (fun p => member p.1 (text (S lvl) p.2)) qs)
      with (List.map (fun p => member p.1 (text (S lvl) p.2)) (q :: qs)).
    rewrite IH; [reflexivity | assumption | assumption |].
    simpl in *. lia.
Qed.

End JSONRoundTrip.

Section JSONParseStringify.
Import JSON.
Local Open Scope list_scope.

(** *** Building an object from distinct members *)

Lemma set_fresh k v acc :
  Obj.mem k (List.map fst acc) = false -> Obj.set k v acc = acc ++ [(k, v)].
Proof.
  induction acc as [|[k' v'] acc IH]; simpl; [reflexivity|].
  intros [H1 H2]%orb_false_iff. rewrite H1, (IH H2). reflexivity.
Qed.

Lemma mem_app k ks ks' :
  Obj.mem k (ks ++ ks') = Obj.mem k ks || Obj.mem k ks'.
Proof. induction ks; simpl; [reflexivity|]. rewrite IHks, orb_assoc. reflexivity. Qed.

Lemma assign_distinct acc ps :
  Obj.distinct (List.map fst (acc ++ ps)) = true ->
  Obj.assign acc ps = acc ++ ps.
Proof.
  revert acc; induction ps as [|[k v] ps IH]; intros acc H.
  - simpl. rewrite List.app_nil_r. reflexivity.
  - unfold Obj.assign in *. cbn [fold_left fst snd].
    assert (Obj.mem k (List.map fst acc) = false) as Hk.
    { clear IH. induction acc as [|[k' v'] acc IHacc]; [reflexivity|].
      simpl in H. apply andb_true_iff in H as [H1 H2].
      simpl. rewrite (IHacc H2), orb_false_r.
      rewrite List.map_app, mem_app in H1. simpl in H1.
      apply negb_true_iff in H1.
      apply orb_false_iff in H1 as [_ H1]. apply orb_false_iff in H1 as [H1 _].
      rewrite String.eqb_sym. exact H1. }
    rewrite (set_fresh _ _ _ Hk), IH, <- List.app_assoc; [reflexivity|].
    rewrite <- List.app_assoc. exact H.
Qed.

(** *** The round trip *)

Lemma parse_text j :
  is_json j = true -> well_formed j = true -> parses j.
Proof.
  induction j as [| |b|n|s|xs IH|ps IH|m ps IH] using value_ind;
    intros Hj Hw lvl fuel rest Hfuel Hrest; try discriminate;
    (destruct fuel as [|f]; [simpl in Hfuel; lia|]).
  - reflexivity.
  - destruct b; reflexivity.
  - apply parse_value_number, Hrest.
  - apply parse_value_string.
  - unfold text. rewrite print_array. cbn [default from_option id].
    assert (Forall parses xs) as HP.
    { simpl in Hj, Hw. clear Hfuel.
      induction IH as [|y ys Hy _ IHys]; constructor;
        apply andb_true_iff in Hj as [? ?];
        apply andb_true_iff in Hw as [? ?]; auto. }
    destruct xs as [|x xs]; [reflexivity|].
    cbn [List.map].
    destruct (text_start (S lvl) x) as (c & t & E & Hws & Hc & _).
    { simpl in Hj. apply andb_true_iff in Hj as [Hj _]. exact Hj. }
    rewrite E, parse_value_block_array, <- E by assumption.
    change (text (S lvl) x :: List.map (text (S lvl)) xs)
      with (List.map (text (S lvl)) (x :: xs)).
    rewrite parse_elements_lines; [reflexivity | assumption | exact Hj |].
    simpl in Hfuel |- *. lia.
  - unfold text. rewrite print_object. cbn [default from_option id].
    simpl in Hj, Hw. apply andb_true_iff in Hw as [Hd Hw].
    rewrite (print_members_json _ _ Hj).
    assert (Forall (fun p => parses (snd p)) ps) as HP.
    { clear Hfuel Hd.
      induction IH as [|y ys Hy _ IHys]; constructor;
        apply andb_true_iff in Hj as [? ?];
        apply andb_true_iff in Hw as [? ?]; auto. }
    destruct ps as [|[k x] ps]; [reflexivity|].
    cbn [List.map fst snd].
    assert (exists u, member k (text (S lvl) x) = dquote :: u) as [u E]
      by (eexists; reflexivity).
    rewrite E, parse_value_block_object, <- E by reflexivity.
    change (member k (text (S lvl) x)
              :: List.map (fun p => member p.1 (text (S lvl) p.2)) ps)
      with (List.map (fun p => member p.1 (text (S lvl) p.2)) ((k, x) :: ps)).
    rewrite parse_members_lines; [|assumption|exact Hj|].
    + cbn [mbind option_bind]. rewrite (assign_distinct [] _ Hd). reflexivity.
    + change (size_props ((k, x) :: ps) <= f). 
      change (S (size_props ((k, x) :: ps)) <= S f) in Hfuel. lia.
Qed.

Lemma list_sum_cons a l : list_sum (a :: l) = a + list_sum l.
Proof. reflexivity. Qed.

Lemma lines_length lvl close items :
  list_sum (List.map (fun t => S (List.length t)) items)
  <= List.length (lines lvl close items).
Proof.
  induction items as [|t [|u r] IH].
  - simpl. lia.
  - rewrite lines_last. simpl. rewrite !List.length_app. simpl. lia.
  - rewrite lines_cons. cbn [List.map] in *. rewrite !list_sum_cons in *.
    rewrite List.length_app. cbn [List.length]. rewrite List.length_app. lia.
Qed.

Lemma block_length lvl open close items :
  S (list_sum (List.map (fun t => S (List.length t)) items))
  <= List.length (block lvl open close items).
Proof.
  destruct items as [|t r]; [simpl; lia|]. cbn [block List.length].
  rewrite List.length_app. pose proof (lines_length lvl close (t :: r)). lia.
Qed.

Lemma size_text lvl j :
  is_json j = true -> size j <= List.length (text lvl j).
Proof.
  revert lvl; induction j as [| |b|n|s|xs IH|ps IH|m ps IH] using value_ind;
    intros lvl Hj; try discriminate.
  - simpl. lia.
  - destruct b; simpl; lia.
  - unfold text. simpl. destruct n as [|p|p]; unfold print_Z.
    + destruct (print_N_head 0) as (d & r & _ & ->). simpl. lia.
    + destruct (print_N_head (N.pos p)) as (d & r & _ & ->). simpl. lia.
    + simpl. lia.
  - unfold text, quote. simpl. lia.
  - unfold text. rewrite print_array. cbn [default from_option id size].
    etransitivity; [|apply block_length]. apply le_n_S.
    rewrite List.map_map. simpl in Hj.
    induction IH as [|y ys Hy _ IHys]; [simpl; lia|].
    apply andb_true_iff in Hj as [H1 H2]. cbn [List.map].
    rewrite !list_sum_cons.
    specialize (Hy (S lvl) H1). specialize (IHys H2). lia.
  - unfold text. rewrite print_object. cbn [default from_option id].
    simpl in Hj. rewrite (print_members_json _ _ Hj).
    change (size (VObject ps)) with (S (size_props ps)).
    etransitivity; [|apply block_length]. apply le_n_S.
    rewrite List.map_map.
    induction IH as [|[k y] ys Hy _ IHys]; [simpl; lia|].
    apply andb_true_iff in Hj as [H1 H2]. cbn [List.map size_props].
    rewrite !list_sum_cons.
    specialize (Hy (S lvl) H1). specialize (IHys H2).
    cbn [fst snd] in *. unfold member at 1. rewrite List.length_app.
    cbn [List.length]. lia.
Qed.

(** [JSON.parse] recovers from the text of [JSON.stringify] the JSON image
    of the value. *)
Lemma parse_stringify v text :
  well_formed v = true -> stringify v = Some text ->
  parse text = jsonify v.
Proof.
  intros Hw Hs. unfold stringify in Hs. rewrite (print_jsonify v 0) in Hs.
  destruct (jsonify v) as [j|] eqn:Ej; [|discriminate].
  pose proof (jsonify_is_json _ _ Ej) as Hj.
  pose proof (jsonify_well_formed _ _ Hw Ej) as Hwj.
  cbn [mbind option_bind] in Hs. rewrite (print_json 0 j Hj) in Hs.
  cbn [fmap option_fmap option_map] in Hs. simplify_eq.
  unfold parse. rewrite list_ascii_of_string_of_list_ascii.
  pose proof (parse_text j Hj Hwj 0 (S (List.length (text 0 j))) []) as H.
  rewrite List.app_nil_r in H. rewrite H; [reflexivity| |reflexivity].
  pose proof (size_text 0 j Hj). lia.
Qed.

End JSONParseStringify.

(** The text of a small index, as [JSON.stringify(index, null, '  ')] lays it
    out, and what [JSON.parse] makes of sloppier input. *)
Lemma stringify_layout :
  JSON.stringify
    (index_value {| name := "w1-2024"; messages := [VObject []; VUndefined] |})
  = Some ("{" +:+ Sample.nl
          +:+ "  " +:+ Sample.q +:+ "name" +:+ Sample.q +:+ ": "
          +:+ Sample.q +:+ "w1-2024" +:+ Sample.q +:+ "," +:+ Sample.nl
          +:+ "  " +:+ Sample.q +:+ "messages" +:+ Sample.q +:+ ": ["
          +:+ Sample.nl
          +:+ "    {}," +:+ Sample.nl
          +:+ "    null" +:+ Sample.nl
          +:+ "  ]" +:+ Sample.nl
          +:+ "}")
  /\ JSON.parse
       (" { " +:+ Sample.q +:+ "a" +:+ Sample.q +:+ " : [1, -20 ,true,null], "
        +:+ Sample.q +:+ "a" +:+ Sample.q +:+ ":" +:+ Sample.q +:+ "x\u0041\n"
        +:+ Sample.q +:+ "} ")
     = Some (VObject [("a", VString ("xA" +:+ Sample.nl))])
  /\ JSON.parse "[1,]" = None
  /\ JSON.parse "01" = None
  /\ JSON.parse EmptyString = None.
Proof. repeat split. Qed.

(** ISO weeks as Luxon numbers them: Sunday 2024-01-07 closes week 1 and the
    Monday after opens week 2; 2024-12-30 is in week 1 and 2021-01-01 in
    week 53, whatever the calendar year. *)
Lemma luxon_weeks :
  (dt ← Luxon.fromISO Luxon.UTC "2024-01-07T23:59:59.999Z";
   Some (Luxon.weekNumber dt, Luxon.year dt, Luxon.weekday dt))
  = Some (1, 2024, 7)%Z
  /\ (dt ← Luxon.fromISO Luxon.UTC "2024-01-08T00:00:00.000Z";
      Some (Luxon.weekNumber dt, Luxon.year dt, Luxon.weekday dt))
     = Some (2, 2024, 1)%Z
  /\ (dt ← Luxon.fromISO Luxon.UTC "2024-12-30T12:00:00.000Z";
      Some (Luxon.weekNumber dt, Luxon.year dt, Luxon.weekday dt))
     = Some (1, 2024, 1)%Z
  /\ (dt ← Luxon.fromISO Luxon.UTC "2021-01-01T12:00:00.000Z";
      Some (Luxon.weekNumber dt, Luxon.year dt, Luxon.weekday dt))
     = Some (53, 2021, 5)%Z
  /\ Luxon.fromISO Luxon.UTC "2024-02-30T12:00:00.000Z" = None.
Proof. repeat split; vm_compute; reflexivity. Qed.

Section Append.

Lemma append_assoc (a b c : string) : (a +:+ b) +:+ c = a +:+ b +:+ c.
Proof. induction a; simpl; congruence. Qed.

Lemma append_empty (s : string) : s = s +:+ EmptyString.
Proof. induction s; simpl; congruence. Qed.

End Append.

(** ** The recipient policy *)
Section Policy.
Import Str.
Variable env : Process.env.

Lemma endsWith_ignoring_case a d :
  endsWith (toLowerCase a) (toLocaleLowerCase d) = true
  <-> suffix_ignoring_case a d.
Proof.
  unfold toLocaleLowerCase, suffix_ignoring_case. rewrite endsWith_app. split.
  - intros [x Hx]. apply toLowerCase_split in Hx as (u & s & -> & _ & Hs).
    eauto.
  - intros (u & s & -> & Hs). exists (toLowerCase u).
    rewrite toLowerCase_app, Hs. reflexivity.
Qed.

Lemma onRcptTo_accepts (address : Smtp.SMTPServerAddress) :
  onRcptTo env address = None
  <-> startsWith (toLowerCase (Smtp.address address))
        (EMAIL_ACCOUNT_PREFIX env) = true
      /\ exists domain, In domain (EMAIL_DOMAINS env)
           /\ suffix_ignoring_case (Smtp.address address) domain.
Proof.
  unfold onRcptTo.
  destruct (startsWith _ _) eqn:Hp; simpl.
  - destruct (List.find _ _) eqn:Hf.
    + split; [intros _; split; [reflexivity|] | reflexivity].
      apply find_some in Hf as [Hin Hd]. exists s. split; [exact Hin|].
      apply endsWith_ignoring_case, Hd.
    + split; [discriminate|]. intros (_ & d & Hin & Hd).
      apply endsWith_ignoring_case in Hd.
      pose proof (find_none _ _ Hf d Hin) as Hn. simpl in Hn. congruence.
  - split; [discriminate | intros [? _]; discriminate].
Qed.


Lemma EMAIL_DOMAINS_unset :
  Process.EMAIL_DOMAIN env = None -> EMAIL_DOMAINS env = [EmptyString].
Proof. unfold EMAIL_DOMAINS. intros ->. reflexivity. Qed.

(** C9.  When the domain list contains the empty string, and it is the
    list of the empty string alone when [EMAIL_DOMAIN] is unset, every
    address that meets the prefix condition is accepted. *)
Theorem empty_domain_accepts_all (address : Smtp.SMTPServerAddress) :
  Process.EMAIL_DOMAIN env = None \/ In EmptyString (EMAIL_DOMAINS env) ->
  startsWith (toLowerCase (Smtp.address address))
    (EMAIL_ACCOUNT_PREFIX env) = true ->
  onRcptTo env address = None.
Proof.
  intros Hd Hp.
  assert (In EmptyString (EMAIL_DOMAINS env)) as Hin.
  { destruct Hd as [Hd|Hd]; [rewrite (EMAIL_DOMAINS_unset Hd); left|];
      auto. }
  apply onRcptTo_accepts. split; [exact Hp|].
  exists EmptyString. split; [exact Hin|].
  exists (Smtp.address address), EmptyString.
  split; [apply append_empty | reflexivity].
Qed.

End Policy.


(** With the domain [example.com] and no prefix: [user@example.com] is
    accepted, [user@other.com] is refused, and [user@notexample.com] is
    accepted as well, the domain being matched as a plain suffix. *)
Lemma onRcptTo_scenario :
  onRcptTo Sample.env_example {| Smtp.address := "user@example.com" |} = None
  /\ onRcptTo Sample.env_example {| Smtp.address := "user@other.com" |}
     = Some {| message := "No thank you"; own := [] |}
  /\ onRcptTo Sample.env_example {| Smtp.address := "user@notexample.com" |}
     = None.
Proof. repeat split. Qed.

Lemma empty_domain_accepts_all_witness :
  onRcptTo Sample.env_unset {| Smtp.address := "QA-Bot@Anywhere.example" |}
  = None.
Proof.
  apply (empty_domain_accepts_all Sample.env_unset
           {| Smtp.address := "QA-Bot@Anywhere.example" |}).
  - left. reflexivity.
  - reflexivity.
Defined.

(** ** Ingestion *)
Section Ingestion.

Lemma append_not_empty (s t : string) :
  t <> EmptyString -> s +:+ t <> EmptyString.
Proof. destruct s; simpl; [auto | discriminate]. Qed.

(** What the callback of [simpleParser] leaves in the summary, before the
    artifact is written. *)
Lemma handleMessageStream_cases now fs folder id stream fs' t :
  handleMessageStream now fs folder id stream = (fs', Resolved t) ->
  (exists parseErr, decoded stream = inl parseErr
     /\ error t = Some parseErr /\ filename t = EmptyString)
  \/ (exists parsed, decoded stream = inr parsed /\ error t = None
        /\ filename t
           = (Luxon.toISO (Luxon.utc now) +:+ "-" +:+ id) +:+ ".json").
Proof.
  unfold handleMessageStream. generalize (Luxon.toISO (Luxon.utc now)).
  intros iso. destruct (decoded stream) as [parseErr|parsed].
  - destruct (Fs.writeFile _ _ _); intros [= _ <-]; left;
      eexists; repeat split; reflexivity.
  - destruct (Mailparser.from parsed) as [[[|first senders] ? ?]|];
      cbn [Mailparser.value]; [discriminate| |];
      (destruct (Fs.writeFile _ _ _); intros [= _ <-]; right;
       eexists; repeat split; reflexivity).
Qed.

(** C2.  A summary that [handleMessageStream] resolves with has a
    non-empty [filename] exactly when it has no [error], and neither field
    depends on whether writing the artifact failed. *)
Theorem summary_filename_xor_error now fs folder id stream fs' t :
  handleMessageStream now fs folder id stream = (fs', Resolved t) ->
  (filename t <> EmptyString <-> error t = None)
  /\ forall fs2 fs2' t2,
       handleMessageStream now fs2 folder id stream = (fs2', Resolved t2) ->
       filename t2 = filename t /\ error t2 = error t.
Proof.
  intros H. split.
  - destruct (handleMessageStream_cases _ _ _ _ _ _ _ H)
      as [(e & _ & -> & ->)|(p & _ & -> & ->)].
    + split; [congruence | discriminate].
    + split; [reflexivity|]. intros _.
      apply append_not_empty. discriminate.
  - intros fs2 fs2' t2 H2.
    destruct (handleMessageStream_cases _ _ _ _ _ _ _ H)
      as [(e & He & -> & ->)|(p & Hp & -> & ->)];
      destruct (handleMessageStream_cases _ _ _ _ _ _ _ H2)
      as [(e2 & He2 & -> & ->)|(p2 & Hp2 & -> & ->)];
      try congruence; split; congruence.
Qed.

(** C4, where the code departs from it.  When the decoder reports a sender
    list that is empty, the callback throws before [resolve] is reached:
    no artifact is written and the promise stays pending. *)
Theorem handleMessageStream_stalls_on_empty_sender_list
        now fs folder id raw html text subject json :
  handleMessageStream now fs folder id
    {| bytes := raw;
       decoded :=
         inr {| Mailparser.from :=
                  Some {| Mailparser.value := []; Mailparser.html := html;
                          Mailparser.text := text |};
                Mailparser.subject := subject;
                Mailparser.json := json |} |}
  = (pipe fs
       (folder +:+ (Luxon.toISO (Luxon.utc now) +:+ "-" +:+ id) +:+ ".raw")
       raw,
     Pending).
Proof. reflexivity. Qed.

(** On every other stream the promise is resolved; a
    decode failure is in [error], a failed write of the artifact is in
    [writeErr], and the write does not touch the other fields. *)
Lemma handleMessageStream_resolves now fs folder id stream :
  (forall parsed sender,
      decoded stream = inr parsed -> Mailparser.from parsed = Some sender ->
      Mailparser.value sender <> []) ->
  exists fs' t,
    handleMessageStream now fs folder id stream = (fs', Resolved t)
    /\ (forall parseErr, decoded stream = inl parseErr ->
                         error t = Some parseErr)
    /\ (forall parsed, decoded stream = inr parsed -> error t = None).
Proof.
  intros Hsender. unfold handleMessageStream.
  destruct (decoded stream) as [parseErr|parsed] eqn:E.
  - destruct (Fs.writeFile _ _ _); eexists _, _;
      (split; [reflexivity|]); split; intros; simplify_eq; reflexivity.
  - destruct (Mailparser.from parsed) as [sender|] eqn:Ef.
    + specialize (Hsender parsed sender eq_refl Ef).
      destruct (Mailparser.value sender) as [|first senders]; [done|].
      destruct (Fs.writeFile _ _ _); eexists _, _;
        (split; [reflexivity|]); split; intros; simplify_eq; reflexivity.
    + destruct (Fs.writeFile _ _ _); eexists _, _;
        (split; [reflexivity|]); split; intros; simplify_eq; reflexivity.
Qed.

Lemma handleMessageStream_never_rejects now fs folder id stream fs' e :
  handleMessageStream now fs folder id stream <> (fs', Rejected e).
Proof.
  unfold handleMessageStream. generalize (Luxon.toISO (Luxon.utc now)).
  intros iso. destruct (decoded stream) as [parseErr|parsed].
  - destruct (Fs.writeFile _ _ _); discriminate.
  - destruct (Mailparser.from parsed) as [[[|first senders] ? ?]|];
      cbn [Mailparser.value]; [discriminate| |];
      destruct (Fs.writeFile _ _ _); discriminate.
Qed.

Variable sanitize : string -> string.
Variable systemZone : Luxon.Zone.

(** The folder [onData] derives for the first recipient is the one every
    summary it obtains carries. *)
Lemma onData_recipientFolderPath now fs stream session fs' outcome t :
  onData sanitize systemZone now fs stream session = (fs', outcome) ->
  outcome = ParseFailed t \/ outcome = SaveFailed t
  \/ (exists r, outcome = Indexed t r) ->
  exists rcpt rest,
    Smtp.rcptTo (Smtp.envelope session) = rcpt :: rest
    /\ recipientFolderPath t = "mail/" +:+ sanitize (Smtp.address rcpt) +:+ "/".
Proof.
  unfold onData.
  destruct (Smtp.rcptTo _) as [|rcpt rest];
    [intros [= _ <-] [|[|[? ?]]]; discriminate|].
  destruct (createRecipientDirectory _ _) as [fs1|e];
    [|intros [= _ <-] [|[|[? ?]]]; discriminate].
  destruct (handleMessageStream _ _ _ _ _) as [fs2 [t'| |]] eqn:H;
    [|intros [= _ <-] [|[|[? ?]]]; discriminate..].
  assert (recipientFolderPath t'
          = "mail/" +:+ sanitize (Smtp.address rcpt) +:+ "/") as Hf.
  { revert H. unfold handleMessageStream.
    generalize (Luxon.toISO (Luxon.utc now)). intros iso.
    destruct (decoded stream) as [parseErr|parsed].
    - destruct (Fs.writeFile _ _ _); intros [= _ <-]; reflexivity.
    - destruct (Mailparser.from parsed) as [[[|first senders] ? ?]|];
        cbn [Mailparser.value]; [discriminate| |];
        destruct (Fs.writeFile _ _ _); intros [= _ <-]; reflexivity. }
  intros Ho Ht. exists rcpt, rest. split; [reflexivity|].
  destruct (error t') eqn:He.
  { injection Ho as _ <-. destruct Ht as [[= <-]|[|[? ?]]];
      [exact Hf | discriminate..]. }
  destruct (writeErr t') eqn:Hw.
  { injection Ho as _ <-. destruct Ht as [|[[= <-]|[? ?]]];
      [discriminate | exact Hf | discriminate]. }
  destruct (updateOrCreateWeeklyMessageIndex _ _ _); injection Ho as _ <-;
    destruct Ht as [|[|[? [= <- _]]]]; try discriminate; exact Hf.
Qed.

(** C10.  [onData] hands a summary to the weekly index only when it has
    neither [error] nor [writeErr]; such a summary has a file name, and the
    entry stored for it carries that name and no failure. *)
Theorem onData_indexes_clean_summaries now fs stream session fs' t r :
  onData sanitize systemZone now fs stream session = (fs', Indexed t r) ->
  error t = None /\ writeErr t = None /\ filename t <> EmptyString
  /\ Js.read (summary_json t) "filename" = Some (VString (filename t))
  /\ Js.read (summary_json t) "error" = Some VUndefined
  /\ Js.read (summary_json t) "writeErr" = Some VUndefined.
Proof.
  unfold onData.
  destruct (Smtp.rcptTo _) as [|rcpt rest]; [discriminate|].
  destruct (createRecipientDirectory _ _) as [fs1|e]; [|discriminate].
  destruct (handleMessageStream _ _ _ _ _) as [fs2 [t'| |]] eqn:H;
    [|discriminate..].
  destruct (error t') eqn:He; [discriminate|].
  destruct (writeErr t') eqn:Hw; [discriminate|].
  intros Ht.
  assert (t' = t) as -> by (destruct (updateOrCreateWeeklyMessageIndex _ _ _);
                            congruence).
  assert (filename t <> EmptyString) as Hf.
  { destruct (handleMessageStream_cases _ _ _ _ _ _ _ H)
      as [(e & _ & He' & _)|(p & _ & _ & ->)]; [congruence|].
    apply append_not_empty. discriminate. }
  repeat split; [assumption | assumption | exact Hf |..];
    unfold summary_json, summary_value; rewrite He, Hw;
    destruct (from t), (subject t); reflexivity.
Qed.

End Ingestion.

(** A failed write of the artifact shows in [writeErr] next to either
    outcome of the decoder: on a disk that refuses the artifact, the decoded
    message keeps its file name and has no [error], the undecodable one keeps
    its [error] and has no file name. *)
Lemma writeErr_in_either_case :
  (handleMessageStream Sample.sunday_night
     (Sample.readonly
        "mail/user@example.com/2024-01-07T23:30:00.000Z-m1.json")
     "mail/user@example.com/" "m1" Sample.mail).2
  = Resolved
      (set_writeErr
         (Fs.ioError "EACCES" "open"
            "mail/user@example.com/2024-01-07T23:30:00.000Z-m1.json")
         (Sample.summary "m1" "2024-01-07T23:30:00.000Z"))
  /\ (handleMessageStream Sample.sunday_night
        (Sample.readonly
           "mail/user@example.com/2024-01-07T23:30:00.000Z-m1.err")
        "mail/user@example.com/" "m1" Sample.broken).2
     = Resolved
         {| recipientFolderPath := "mail/user@example.com/";
            messageId := "m1";
            processedAt := "2024-01-07T23:30:00.000Z";
            from := None; subject := None; filename := EmptyString;
            error := Some {| message := "bad message"; own := [] |};
            writeErr :=
              Some (Fs.ioError "EACCES" "open"
                      "mail/user@example.com/2024-01-07T23:30:00.000Z-m1.err")
         |}.
Proof. split; vm_compute; reflexivity. Qed.

Lemma summary_filename_xor_error_witness :
  filename (Sample.summary "m1" "2024-01-07T23:30:00.000Z") <> EmptyString
  <-> error (Sample.summary "m1" "2024-01-07T23:30:00.000Z") = None.
Proof.
  refine (proj1 (summary_filename_xor_error Sample.sunday_night Fs.empty
                   "mail/user@example.com/" "m1" Sample.mail _
                   (Sample.summary "m1" "2024-01-07T23:30:00.000Z") _)).
  vm_compute. reflexivity.
Defined.

Lemma onData_indexes_clean_summaries_witness :
  error (Sample.summary "m1" "2024-01-07T23:30:00.000Z") = None
  /\ writeErr (Sample.summary "m1" "2024-01-07T23:30:00.000Z") = None
  /\ filename (Sample.summary "m1" "2024-01-07T23:30:00.000Z") <> EmptyString.
Proof.
  refine (let H :=
            onData_indexes_clean_summaries (fun a => a) Luxon.UTC
              Sample.sunday_night Fs.empty Sample.mail
              (Sample.session "m1" "user@example.com")
              _ (Sample.summary "m1" "2024-01-07T23:30:00.000Z") (Ok ()) _
          in conj (proj1 H) (conj (proj1 (proj2 H))
                                  (proj1 (proj2 (proj2 H))))).
  vm_compute. reflexivity.
Defined.

(** ** The weekly index and the read API *)
Section Index.

Lemma loadWeeklyIndex_unavailable fs indexName :
  unavailable fs (indexPath indexName) ->
  loadWeeklyIndex fs indexName
  = index_value {| name := indexName; messages := [] |}.
Proof.
  unfold unavailable, loadWeeklyIndex.
  destruct (Fs.readFile _ _); [intros ->|]; reflexivity.
Qed.

(** C6.  [loadWeeklyIndex] has no failing outcome.  When the file of a
    bucket is absent, cannot be read or does not hold JSON, it returns the
    bucket of that name with no messages, and the read API answers the
    request for that week with an empty array. *)
Theorem absent_bucket_is_empty fs indexName :
  unavailable fs (indexPath indexName) ->
  loadWeeklyIndex fs indexName
  = index_value {| name := indexName; messages := [] |}
  /\ forall year week,
       indexName = "w" +:+ Js.Number_toString (parseInt week) +:+ "-"
                   +:+ Js.Number_toString (parseInt year) ->
       listMessages fs year week = Json 200 (VArray []).
Proof.
  intros H. pose proof (loadWeeklyIndex_unavailable _ _ H) as Hl.
  split; [exact Hl|]. intros year week ->.
  unfold listMessages. rewrite Hl. reflexivity.
Qed.

Lemma writeFile_lookup fs path body fs' :
  Fs.writeFile fs path body = Ok fs' -> Fs.files fs' !! path = Some body.
Proof.
  unfold Fs.writeFile. destruct (decide _); [discriminate|].
  intros [= <-]. simpl. apply lookup_insert_eq.
Qed.

(** A summary without [error] and [writeErr] names the artifact that
    [handleMessageStream] wrote into the folder of the recipient. *)
Lemma handleMessageStream_artifact now fs folder id stream fs' t :
  handleMessageStream now fs folder id stream = (fs', Resolved t) ->
  error t = None -> writeErr t = None ->
  exists parsed,
    decoded stream = inr parsed /\ recipientFolderPath t = folder
    /\ Fs.files fs' !! (folder +:+ filename t) = Some (Mailparser.json parsed).
Proof.
  unfold handleMessageStream. generalize (Luxon.toISO (Luxon.utc now)).
  intros iso. destruct (decoded stream) as [parseErr|parsed].
  { destruct (Fs.writeFile _ _ _); intros [= _ <-]; discriminate. }
  destruct (Mailparser.from parsed) as [[[|first senders] ? ?]|];
    cbn [Mailparser.value]; [discriminate| |];
    (destruct (Fs.writeFile _ _ _) as [fs2|e] eqn:E; intros [= <- <-] He Hw;
     [|discriminate]; exists parsed; split; [reflexivity|];
     split; [reflexivity | exact (writeFile_lookup _ _ _ _ E)]).
Qed.

Variable sanitize : string -> string.

Lemma messagePath_folder domain username messageFilename :
  messagePath sanitize domain username messageFilename
  = ("mail/" +:+ sanitize (username +:+ "@" +:+ domain) +:+ "/")
    +:+ messageFilename.
Proof. unfold messagePath. rewrite !append_assoc. reflexivity. Qed.

(** C8.  [loadMessage] reads the artifact where ingestion wrote it for the
    recipient [username@domain], and whenever that file is absent, cannot be
    read or does not hold JSON the answer is the same 404 "Not Found". *)
Theorem fetchMessage_path_and_not_found
        now fs id stream domain username fs' t :
  handleMessageStream now fs
    ("mail/" +:+ sanitize (username +:+ "@" +:+ domain) +:+ "/") id stream
  = (fs', Resolved t) ->
  error t = None -> writeErr t = None ->
  (exists parsed,
      decoded stream = inr parsed
      /\ messagePath sanitize domain username (filename t)
         = recipientFolderPath t +:+ filename t
      /\ Fs.files fs' !! messagePath sanitize domain username (filename t)
         = Some (Mailparser.json parsed))
  /\ forall fs0 messageFilename,
       unavailable fs0 (messagePath sanitize domain username messageFilename) ->
       loadMessage sanitize fs0 domain username messageFilename = VNull
       /\ fetchMessage sanitize fs0 domain username messageFilename
          = Json 404 (VObject [("message", VString "Not Found")]).
Proof.
  intros H He Hw. split.
  - destruct (handleMessageStream_artifact _ _ _ _ _ _ _ H He Hw)
      as (parsed & Hd & Hf & Hfile).
    exists parsed. rewrite messagePath_folder, Hf. auto.
  - intros fs0 file Hu. unfold fetchMessage, loadMessage.
    unfold unavailable in Hu.
    destruct (Fs.readFile _ _); [rewrite Hu|]; split; reflexivity.
Qed.

End Index.

Section IndexUpdate.

Variable systemZone : Luxon.Zone.

Lemma stringify_index_value i :
  JSON.stringify (index_value i)
  = Some (string_of_list_ascii (JSON.text 0 (index_value i))).
Proof. reflexivity. Qed.

Lemma indexFile_index_value i :
  indexFile (index_value i)
  = Ok (indexPath (name i),
        string_of_list_ascii (JSON.text 0 (index_value i))).
Proof. reflexivity. Qed.

Lemma newIndex_index_value t i :
  newIndex t (index_value i)
  = Ok (index_value
          {| name := name i; messages := summary_value t :: messages i |}).
Proof. reflexivity. Qed.

(** Whatever the bucket name: the update loads the bucket, puts the summary
    in front of the messages it holds, keeps their order and the bucket
    name, and writes the whole bucket in one [writeFile]. *)
Lemma updateOrCreateWeeklyMessageIndex_prepends fs t i :
  loadWeeklyIndex fs (indexName systemZone (processedAt t)) = index_value i ->
  updateOrCreateWeeklyMessageIndex systemZone fs t
  = Fs.writeFile fs (indexPath (name i))
      (string_of_list_ascii
         (JSON.text 0
            (index_value
               {| name := name i;
                  messages := summary_value t :: messages i |}))).
Proof.
  intros H. unfold updateOrCreateWeeklyMessageIndex, saveWeeklyIndex.
  rewrite H, newIndex_index_value, indexFile_index_value. reflexivity.
Qed.

Lemma readFile_writeFile fs path body fs' :
  Fs.writeFile fs path body = Ok fs' -> path ∉ Fs.unreadable fs ->
  Fs.readFile fs' path = Ok body.
Proof.
  unfold Fs.writeFile, Fs.readFile. destruct (decide _); [discriminate|].
  intros [= <-] Hr. simpl. destruct (decide _); [done|].
  rewrite lookup_insert_eq. reflexivity.
Qed.

Lemma writeFile_writable fs path body :
  path ∉ Fs.unwritable fs -> exists fs', Fs.writeFile fs path body = Ok fs'.
Proof. unfold Fs.writeFile. destruct (decide _); [done | eauto]. Qed.

(** Reading back what [saveWeeklyIndex] wrote. *)
Lemma loadWeeklyIndex_saved fs fs' i :
  JSON.well_formed (index_value i) = true ->
  Fs.writeFile fs (indexPath (name i))
    (string_of_list_ascii (JSON.text 0 (index_value i))) = Ok fs' ->
  indexPath (name i) ∉ Fs.unreadable fs ->
  Some (loadWeeklyIndex fs' (name i)) = JSON.jsonify (index_value i).
Proof.
  intros Hwf Hw Hr. unfold loadWeeklyIndex.
  rewrite (readFile_writeFile _ _ _ _ Hw Hr).
  rewrite (parse_stringify _ _ Hwf (stringify_index_value i)).
  reflexivity.
Qed.

(** C7.  An index written by [saveWeeklyIndex] and loaded again by
    [loadWeeklyIndex] under its name has the JSON image of the index that
    was written. *)
Theorem save_then_load fs (i : IndexType) :
  JSON.well_formed (index_value i) = true ->
  indexPath (name i) ∉ Fs.unwritable fs ->
  indexPath (name i) ∉ Fs.unreadable fs ->
  exists fs',
    saveWeeklyIndex fs (index_value i) = Ok fs'
    /\ JSON.jsonify (loadWeeklyIndex fs' (name i))
       = JSON.jsonify (index_value i).
Proof.
  intros Hwf Hw Hr. unfold saveWeeklyIndex. rewrite indexFile_index_value.
  destruct (writeFile_writable fs _
              (string_of_list_ascii (JSON.text 0 (index_value i))) Hw)
    as [fs' Hfs'].
  exists fs'. split; [exact Hfs'|].
  pose proof (loadWeeklyIndex_saved _ _ _ Hwf Hfs' Hr) as Hl.
  destruct (JSON.jsonify (index_value i)) as [j|] eqn:Ej; [|discriminate].
  injection Hl as ->. apply (jsonify_idempotent _ _ Ej).
Qed.

End IndexUpdate.

(** C5, where the code departs from it.  [indexName] takes the week and the
    year of [processedAt] in the default zone of the process, not in UTC:
    two hours east of UTC, a message stamped Sunday 2024-01-07 23:30 UTC
    (ISO week 1) goes to the bucket of week 2, while the read API still
    redirects to week 1 at that instant. *)
Theorem indexName_follows_process_zone :
  Luxon.toISO (Luxon.utc Sample.sunday_night) = "2024-01-07T23:30:00.000Z"
  /\ indexName Luxon.UTC "2024-01-07T23:30:00.000Z" = "w1-2024"
  /\ indexName Sample.plus_two "2024-01-07T23:30:00.000Z" = "w2-2024"
  /\ currentWeek Sample.sunday_night = Redirect "/api/mail/2024/1".
Proof. repeat split; vm_compute; reflexivity. Qed.

Lemma save_then_load_witness :
  exists fs',
    saveWeeklyIndex Fs.empty
      (index_value
         {| name := "w1-2024";
            messages := [summary_value Sample.first; VUndefined] |}) = Ok fs'
    /\ JSON.jsonify (loadWeeklyIndex fs' "w1-2024")
       = JSON.jsonify
           (index_value
              {| name := "w1-2024";
                 messages := [summary_value Sample.first; VUndefined] |}).
Proof.
  apply (save_then_load Fs.empty
           {| name := "w1-2024";
              messages := [summary_value Sample.first; VUndefined] |}).
  - reflexivity.
  - apply not_elem_of_empty.
  - apply not_elem_of_empty.
Defined.

Lemma absent_bucket_is_empty_witness :
  unavailable Fs.empty (indexPath "w10-2024")
  /\ loadWeeklyIndex Fs.empty "w10-2024"
     = index_value {| name := "w10-2024"; messages := [] |}
  /\ listMessages Fs.empty "2024" "10" = Json 200 (VArray []).
Proof.
  split; [exact I|].
  destruct (absent_bucket_is_empty Fs.empty "w10-2024" I) as [Hload Hlist].
  split; [exact Hload | exact (Hlist "2024" "10" eq_refl)].
Defined.

Lemma fetchMessage_path_and_not_found_witness :
  fetchMessage (fun a => a) Fs.empty "example.com" "user" "missing.json"
  = Json 404 (VObject [("message", VString "Not Found")]).
Proof.
  refine (proj2 (proj2 (fetchMessage_path_and_not_found (fun a => a)
                          Sample.sunday_night Fs.empty "m1" Sample.mail
                          "example.com" "user" _
                          (Sample.summary "m1" "2024-01-07T23:30:00.000Z")
                          _ eq_refl eq_refl)
                   Fs.empty "missing.json" I)).
  vm_compute. reflexivity.
Defined.

(** ** Concurrent updates of one bucket *)
Section Concurrency.

Variable systemZone : Luxon.Zone.
Variable n : string.
Variable summaries : list TransactionSummary.

Local Abbreviation call_ok := (call_ok systemZone n).
Local Abbreviation invariant := (invariant systemZone n summaries).
Local Abbreviation resume := (resume systemZone).
Local Abbreviation run := (run systemZone).

Lemma summary_json_spec t :
  JSON.jsonify (summary_value t) = Some (summary_json t).
Proof. reflexivity. Qed.

Lemma summary_json_is_json t : JSON.is_json (summary_json t) = true.
Proof. apply (jsonify_is_json _ _ (summary_json_spec t)). Qed.

Lemma summary_json_well_formed t :
  JSON.well_formed (summary_value t) = true ->
  JSON.well_formed (summary_json t) = true.
Proof. intros H. apply (jsonify_well_formed _ _ H (summary_json_spec t)). Qed.

Lemma jsonify_entries (done : list TransactionSummary) :
  List.map (fun x => default VNull (JSON.jsonify x)) (summary_json <$> done)
  = summary_json <$> done.
Proof.
  induction done as [|t done IH]; [reflexivity|].
  cbn [fmap list_fmap List.map] in *. rewrite IH.
  rewrite (jsonify_of_json _ (summary_json_is_json t)). reflexivity.
Qed.

Lemma jsonify_next_index t done :
  JSON.jsonify
    (index_value
       {| name := n; messages := summary_value t :: (summary_json <$> done) |})
  = Some (index_value
            {| name := n; messages := summary_json <$> (t :: done) |}).
Proof.
  unfold index_value. rewrite jsonify_object.
  cbn [name messages JSON.jsonify_props].
  change (JSON.jsonify (VString n)) with (Some (VString n)).
  change (JSON.jsonify (VArray ?l))
    with (Some (VArray (List.map (fun x => default VNull (JSON.jsonify x)) l))).
  cbn [List.map]. rewrite jsonify_entries. reflexivity.
Qed.

Lemma well_formed_next_index t done :
  JSON.well_formed (summary_value t) = true ->
  Forall (fun t => JSON.well_formed (summary_value t) = true) done ->
  JSON.well_formed
    (index_value
       {| name := n; messages := summary_value t :: (summary_json <$> done) |})
  = true.
Proof.
  intros Ht Hdone. unfold index_value. cbn [name messages].
  change (JSON.well_formed (VObject ?ps))
    with (Obj.distinct (List.map fst ps)
          && forallb (fun p => JSON.well_formed (snd p)) ps).
  cbn [List.map fst snd forallb Obj.distinct Obj.mem].
  change (JSON.well_formed (VString n)) with true.
  change (JSON.well_formed (VArray ?l)) with (forallb JSON.well_formed l).
  cbn [forallb]. rewrite Ht.
  replace (forallb JSON.well_formed (summary_json <$> done)) with true;
    [reflexivity|].
  symmetry. induction Hdone as [|t' done Ht' _ IH]; [reflexivity|].
  cbn [fmap list_fmap forallb] in *.
  rewrite (summary_json_well_formed _ Ht'), IH. reflexivity.
Qed.

(** *** The calls of a system *)

Lemma omap_pending_loading (l : list TransactionSummary) :
  omap pending (Loading <$> l) = l.
Proof. induction l as [|t l IH]; [reflexivity|]. cbn. rewrite IH. reflexivity. Qed.

Lemma omap_pending_insert_same (l : list Update) i u u' :
  l !! i = Some u -> pending u' = pending u ->
  omap pending (<[i := u']> l) = omap pending l.
Proof.
  revert i; induction l as [|x l IH]; intros [|i] Hi Hp; simplify_eq/=.
  - rewrite Hp. reflexivity.
  - rewrite (IH i Hi Hp). reflexivity.
Qed.

Lemma omap_pending_insert_settled (l : list Update) i u t r :
  l !! i = Some u -> pending u = Some t ->
  omap pending l ≡ₚ t :: omap pending (<[i := Settled t r]> l).
Proof.
  revert i; induction l as [|x l IH]; intros [|i] Hi Hp; simplify_eq/=.
  - rewrite Hp. reflexivity.
  - destruct (pending x); rewrite (IH i Hi Hp); [apply perm_swap | reflexivity].
Qed.

Lemma omap_pending_settled (l : list Update) :
  Forall (fun u => settled u = true) l -> omap pending l = [].
Proof.
  induction 1 as [|u l Hu _ IH]; [reflexivity|].
  destruct u; try discriminate. exact IH.
Qed.

Lemma one_in_flight (l : list Update) i j u v :
  List.length (List.filter saving l) <= 1 ->
  l !! i = Some u -> saving u = true -> l !! j = Some v -> i <> j ->
  saving v = false.
Proof.
  revert i j; induction l as [|x l IH]; intros i j Hlen Hi Hu Hj Hne;
    [discriminate|].
  cbn [List.filter] in Hlen.
  destruct i as [|i], j as [|j]; simplify_eq/=.
  - rewrite Hu in Hlen. cbn in Hlen.
    destruct (saving v) eqn:Hv; [|reflexivity].
    assert (In v (List.filter saving l)) as Hin.
    { apply filter_In. split; [|exact Hv].
      apply list_elem_of_In, list_elem_of_lookup. eauto. }
    destruct (List.filter saving l); [destruct Hin | simpl in Hlen; lia].
  - destruct (saving v) eqn:Hv; [|reflexivity]. cbn in Hlen.
    assert (In u (List.filter saving l)) as Hin.
    { apply filter_In. split; [|exact Hu].
      apply list_elem_of_In, list_elem_of_lookup. eauto. }
    destruct (List.filter saving l); [destruct Hin | simpl in Hlen; lia].
  - apply (IH i j); auto.
    destruct (saving x); cbn in Hlen; lia.
Qed.

Lemma call_ok_not_saving done done' u :
  saving u = false -> call_ok done u -> call_ok done' u.
Proof. destruct u; [auto | discriminate | auto]. Qed.

(** *** One turn of the event loop keeps the invariant *)

Lemma advance_loading s t :
  invariant s -> call_ok (completed s) (Loading t) ->
  advance systemZone (disk s) (Loading t)
  = (disk s,
     Saving t (indexPath n)
       (string_of_list_ascii
          (JSON.text 0
             (index_value
                {| name := n;
                   messages :=
                     summary_value t :: (summary_json <$> completed s) |})))).
Proof.
  intros Hinv [Hn _]. cbn [advance]. rewrite Hn, (inv_bucket _ _ _ _ Hinv).
  rewrite newIndex_index_value, indexFile_index_value. reflexivity.
Qed.

Lemma resume_invariant i s :
  invariant s -> inFlight s <= 1 -> invariant (resume i s).
Proof.
  intros Hinv Hone. unfold resume.
  destruct (calls s !! i) as [u|] eqn:Hi; [|exact Hinv].
  pose proof (proj1 (Forall_lookup _ _) (inv_calls _ _ _ _ Hinv) i u Hi) as Hu.
  destruct u as [t|t path text|t r].
  - rewrite (advance_loading s t Hinv Hu).
    destruct Hinv as [Iw Ir Ib Ic Id Ia]. destruct Hu as [Hn Hw].
    constructor; cbn [disk calls completed persisted List.app]; auto.
    + apply Forall_insert; [assumption|]. cbn. auto.
    + rewrite (omap_pending_insert_same _ _ (Loading t)); auto.
  - destruct Hu as (Hw & -> & ->). cbn [advance].
    destruct (writeFile_writable (disk s) (indexPath n)
                (string_of_list_ascii
                   (JSON.text 0
                      (index_value
                         {| name := n;
                            messages :=
                              summary_value t
                                :: (summary_json <$> completed s) |})))
                (inv_writable _ _ _ _ Hinv)) as [fs' Hfs'].
    rewrite Hfs'.
    assert (Fs.unwritable fs' = Fs.unwritable (disk s)
            /\ Fs.unreadable fs' = Fs.unreadable (disk s)) as [Huw Hur].
    { revert Hfs'. unfold Fs.writeFile. destruct (decide _); [discriminate|].
      intros [= <-]. auto. }
    pose proof (loadWeeklyIndex_saved (disk s) fs'
                  {| name := n;
                     messages :=
                       summary_value t :: (summary_json <$> completed s) |}
                  (well_formed_next_index t _ Hw (inv_done _ _ _ _ Hinv))
                  Hfs' (inv_readable _ _ _ _ Hinv)) as Hload.
    rewrite jsonify_next_index in Hload. injection Hload as Hload.
    destruct Hinv as [Iw Ir Ib Ic Id Ia].
    constructor; cbn [disk calls completed persisted List.app name] in *.
    + rewrite Huw. assumption.
    + rewrite Hur. assumption.
    + exact Hload.
    + apply Forall_lookup. intros j v Hj.
      destruct (decide (i = j)) as [<-|Hne].
      * rewrite list_lookup_insert_eq in Hj
          by (apply lookup_lt_Some in Hi; exact Hi).
        injection Hj as <-. reflexivity.
      * rewrite list_lookup_insert_ne in Hj by assumption.
        apply (call_ok_not_saving (completed s)).
        -- apply (one_in_flight (calls s) i j _ v Hone Hi eq_refl Hj Hne).
        -- apply (proj1 (Forall_lookup _ _) Ic j v Hj).
    + constructor; assumption.
    + rewrite <- Ia.
      rewrite (omap_pending_insert_settled (calls s) i _ t (Ok ()) Hi eq_refl).
      cbn. apply Permutation_middle.
  - cbn [advance persisted List.app]. rewrite (list_insert_id _ _ _ Hi).
    destruct s. exact Hinv.
Qed.

Lemma run_invariant schedule s :
  invariant s -> serialized systemZone schedule s -> invariant (run schedule s).
Proof.
  revert s; induction schedule as [|i schedule IH]; intros s Hinv Hser;
    [exact Hinv|].
  destruct Hser as [Hone Hser]. cbn [run fold_left].
  apply IH; [apply resume_invariant; assumption | exact Hser].
Qed.

Lemma start_invariant fs :
  Forall (fun t => indexName systemZone (processedAt t) = n
                   /\ JSON.well_formed (summary_value t) = true) summaries ->
  Fs.files fs !! indexPath n = None ->
  indexPath n ∉ Fs.unwritable fs -> indexPath n ∉ Fs.unreadable fs ->
  invariant (start fs summaries).
Proof.
  intros Hs Hfile Hw Hr. constructor; cbn [start disk calls completed]; auto.
  - unfold loadWeeklyIndex, Fs.readFile.
    destruct (decide _); [reflexivity|]. rewrite Hfile. reflexivity.
  - apply Forall_fmap. exact Hs.
  - cbn. rewrite omap_pending_loading. reflexivity.
Qed.

(** C1, as the code has it.  The code does not serialize the updates of a
    bucket.  When a schedule happens to keep at most one call between its
    load and its save at any time, and runs every call to its end, the
    bucket on disk holds one entry per summary and nothing else, the later
    an update was persisted the nearer the front. *)
Theorem serialized_updates_keep_every_summary fs schedule :
  Forall (fun t => indexName systemZone (processedAt t) = n
                   /\ JSON.well_formed (summary_value t) = true) summaries ->
  Fs.files fs !! indexPath n = None ->
  indexPath n ∉ Fs.unwritable fs -> indexPath n ∉ Fs.unreadable fs ->
  serialized systemZone schedule (start fs summaries) ->
  Forall (fun u => settled u = true)
    (calls (run schedule (start fs summaries))) ->
  loadWeeklyIndex (disk (run schedule (start fs summaries))) n
  = index_value
      {| name := n;
         messages :=
           summary_json <$> completed (run schedule (start fs summaries)) |}
  /\ completed (run schedule (start fs summaries)) ≡ₚ summaries.
Proof.
  intros Hs Hfile Hw Hr Hser Hend.
  pose proof (run_invariant schedule _ (start_invariant fs Hs Hfile Hw Hr) Hser)
    as Hinv.
  split; [apply (inv_bucket _ _ _ _ Hinv)|].
  pose proof (inv_all _ _ _ _ Hinv) as Hall.
  rewrite (omap_pending_settled _ Hend), List.app_nil_r in Hall. exact Hall.
Qed.

End Concurrency.

(** C1, as the specification has it, fails: nothing keeps two updates of one
    bucket apart.  Two calls that both load the bucket before either saves it
    are both in flight, both succeed, and the bucket is left with the summary
    of the call that saved last; the other one is lost. *)
Lemma interleaved_updates_lose_a_summary :
  indexName Luxon.UTC (processedAt Sample.first) = "w1-2024"
  /\ indexName Luxon.UTC (processedAt Sample.second) = "w1-2024"
  /\ inFlight (run Luxon.UTC [0; 1] (start Fs.empty [Sample.first; Sample.second]))
     = 2
  /\ calls (run Luxon.UTC [0; 1; 0; 1]
              (start Fs.empty [Sample.first; Sample.second]))
     = [Settled Sample.first (Ok ()); Settled Sample.second (Ok ())]
  /\ loadWeeklyIndex
       (disk (run Luxon.UTC [0; 1; 0; 1]
                (start Fs.empty [Sample.first; Sample.second])))
       "w1-2024"
     = index_value
         {| name := "w1-2024"; messages := [summary_json Sample.second] |}
  /\ ~ serialized Luxon.UTC [0; 1; 0; 1]
        (start Fs.empty [Sample.first; Sample.second]).
Proof.
  repeat split; try (vm_compute; reflexivity).
  intros H. vm_compute in H. destruct H as (_ & _ & H & _). lia.
Qed.

Lemma serialized_updates_keep_every_summary_witness :
  loadWeeklyIndex
    (disk (run Luxon.UTC [1; 1; 0; 0]
             (start Fs.empty [Sample.first; Sample.second])))
    "w1-2024"
  = index_value
      {| name := "w1-2024";
         messages :=
           summary_json
             <$> completed (run Luxon.UTC [1; 1; 0; 0]
                              (start Fs.empty [Sample.first; Sample.second])) |}
  /\ completed (run Luxon.UTC [1; 1; 0; 0]
                  (start Fs.empty [Sample.first; Sample.second]))
     ≡ₚ [Sample.first; Sample.second].
Proof.
  apply (serialized_updates_keep_every_summary Luxon.UTC "w1-2024"
           [Sample.first; Sample.second] Fs.empty [1; 1; 0; 0]).
  - repeat constructor; vm_compute; reflexivity.
  - reflexivity.
  - apply not_elem_of_empty.
  - apply not_elem_of_empty.
  - vm_compute. repeat split; lia.
  - vm_compute. repeat constructor.
Defined.

(** * Further properties of the code *)

(** ** More on strings *)
Section MoreStrings.
Import Str.

Lemma lower_ascii_not_upper c : isUpper (lower_ascii c) = false.
Proof. destruct c as [[] [] [] [] [] [] [] []]; reflexivity. Qed.

Lemma toLowerCase_no_upper s : hasUpper (toLowerCase s) = false.
Proof.
  induction s as [|c s IH]; [reflexivity|]. cbn [toLowerCase hasUpper].
  rewrite lower_ascii_not_upper, IH. reflexivity.
Qed.

Lemma startsWith_hasUpper s p :
  startsWith s p = true -> hasUpper p = true -> hasUpper s = true.
Proof.
  revert s; induction p as [|c p IH]; intros s; [discriminate|].
  destruct s as [|d s]; [discriminate|]. cbn [startsWith hasUpper].
  destruct (Ascii.eqb_spec d c) as [->|]; [|discriminate].
  intros Hs [Hc|Hp]%orb_true_iff; apply orb_true_iff; eauto.
Qed.

Lemma split_not_nil sep s : split sep s <> [].
Proof.
  induction s as [|c s IH]; [discriminate|]. cbn [split].
  destruct (Ascii.eqb c sep); [discriminate|].
  destruct (split sep s); discriminate.
Qed.

Lemma split_app sep u v :
  split sep (u +:+ String sep v) = (split sep u ++ split sep v)%list.
Proof.
  induction u as [|c u IH]; cbn [String.append split].
  - rewrite Ascii.eqb_refl. reflexivity.
  - rewrite IH. destruct (Ascii.eqb c sep); [reflexivity|].
    destruct (split sep u) eqn:E; [|reflexivity].
    destruct (split_not_nil _ _ E).
Qed.

Lemma split_none sep s : contains sep s = false -> split sep s = [s].
Proof.
  induction s as [|c s IH]; [reflexivity|]. cbn [contains split].
  intros [Hc Hs]%orb_false_iff. rewrite Ascii.eqb_sym, Hc, (IH Hs). reflexivity.
Qed.

Lemma append_cancel_l (a x y : string) : a +:+ x = a +:+ y -> x = y.
Proof. induction a; simpl; [auto | intros [= H]; auto]. Qed.

Lemma length_append (u d : string) :
  String.length (u +:+ d) = String.length u + String.length d.
Proof. induction u; simpl; congruence. Qed.

Lemma append_cancel_r (x y s : string) : x +:+ s = y +:+ s -> x = y.
Proof.
  revert y; induction x as [|c x IH]; intros [|d y] H; simpl in H.
  - reflexivity.
  - apply (f_equal String.length) in H. simpl in H.
    rewrite length_append in H. lia.
  - apply (f_equal String.length) in H. simpl in H.
    rewrite length_append in H. lia.
  - injection H as -> H. f_equal. apply IH, H.
Qed.

(** *** [trim] *)





End MoreStrings.

(** ** More on the recipient policy *)
Section MorePolicy.
Import Str.
Variable env : Process.env.

(** X1.  A configured prefix that holds a capital letter shuts every
    recipient out: the address is lowercased before the comparison, the
    prefix is not. *)
Theorem uppercase_prefix_refuses_all (address : Smtp.SMTPServerAddress) :
  hasUpper (EMAIL_ACCOUNT_PREFIX env) = true ->
  onRcptTo env address = Some {| message := "No thank you"; own := [] |}.
Proof.
  intros Hup. unfold onRcptTo.
  destruct (startsWith _ _) eqn:Hp; [|reflexivity].
  pose proof (startsWith_hasUpper _ _ Hp Hup) as H.
  rewrite toLowerCase_no_upper in H. discriminate.
Qed.

(** X2.  A domain list with an empty piece (a comma at its start or its end,
    or two commas in a row) lets every address through that meets the prefix
    condition. *)
Theorem empty_piece_accepts_all (u v : string)
        (address : Smtp.SMTPServerAddress) :
  Process.EMAIL_DOMAIN env = Some (u +:+ "," +:+ v) ->
  u = EmptyString \/ v = EmptyString \/ startsWith v "," = true ->
  startsWith (toLowerCase (Smtp.address address))
    (EMAIL_ACCOUNT_PREFIX env) = true ->
  onRcptTo env address = None.
Proof.
  intros Hd Hempty Hp.
  assert (In EmptyString (EMAIL_DOMAINS env)) as Hin.
  { unfold EMAIL_DOMAINS. rewrite Hd.
    replace (Process.or (Some (u +:+ "," +:+ v)) EmptyString)
      with (u +:+ String "," v) by (destruct u; reflexivity).
    rewrite split_app. apply in_or_app.
    destruct Hempty as [->|[->|Hv]].
    - left. left. reflexivity.
    - right. left. reflexivity.
    - right. destruct v as [|c v]; [discriminate|]. cbn [startsWith] in Hv.
      destruct (Ascii.eqb_spec c ","); [subst c | discriminate].
      cbn [split]. rewrite Ascii.eqb_refl. left. reflexivity. }
  apply onRcptTo_accepts. split; [exact Hp|].
  exists EmptyString. split; [exact Hin|].
  exists (Smtp.address address), EmptyString.
  split; [apply append_empty | reflexivity].
Qed.



End MorePolicy.

Lemma uppercase_prefix_refuses_all_witness :
  onRcptTo Sample.env_upper {| Smtp.address := "QA-bob@example.com" |}
  = Some {| message := "No thank you"; own := [] |}.
Proof. apply uppercase_prefix_refuses_all. reflexivity. Defined.

Lemma empty_piece_accepts_all_witness :
  onRcptTo Sample.env_comma {| Smtp.address := "bob@elsewhere.org" |} = None.
Proof.
  apply (empty_piece_accepts_all Sample.env_comma "example.com" EmptyString).
  - reflexivity.
  - right. left. reflexivity.
  - reflexivity.
Defined.



(** ** The admin API *)
Section MoreAdmin.
Import Str.
Variable sanitize : string -> string.

Lemma checkApiKey_passes apiKey api_key :
  checkApiKey apiKey api_key = None ->
  exists k, api_key = Some k /\ trim k = apiKey.
Proof.
  unfold checkApiKey. destruct api_key as [[|c r]|]; try discriminate.
  destruct (String.eqb_spec (trim (String c r)) apiKey); [|discriminate].
  intros _. eauto.
Qed.

Lemma adminAPI_denied apiKey now fs api_key request :
  checkApiKey apiKey api_key <> None ->
  adminAPI sanitize apiKey now fs api_key request
  = Json 401 (VObject [("message", VString "Access denied")]).
Proof.
  unfold adminAPI, checkApiKey. destruct api_key as [[|c r]|]; try reflexivity.
  destruct (negb _); [reflexivity|]. intros H. destruct H. reflexivity.
Qed.


(** X6.  Once the admin API is enabled, a request with no key, an empty key
    or a key of fewer than 20 characters after trimming is denied on every
    route. *)
Theorem short_key_denied env port apiKey now fs api_key request :
  adminSettings env = Some (port, apiKey) ->
  (forall k, api_key = Some k -> String.length (trim k) < 20) ->
  adminAPI sanitize apiKey now fs api_key request
  = Json 401 (VObject [("message", VString "Access denied")]).
Proof.
  intros Hs Hshort. apply adminAPI_denied. intros H.
  destruct (checkApiKey_passes _ _ H) as (k & -> & Hk).
  specialize (Hshort k eq_refl). rewrite Hk in Hshort.
  unfold adminSettings in Hs.
  destruct (Process.ADMIN_APP_PORT env) as [[|c p]|]; try discriminate.
  destruct (Process.API_KEY env) as [[|c' key]|]; try discriminate.
  destruct (Nat.ltb_spec (String.length (String c' key)) 20);
    [discriminate|].
  injection Hs as _ <-. lia.
Qed.

End MoreAdmin.


Lemma short_key_denied_witness :
  adminAPI (fun a => a) "0123456789abcdefghij" 0 Fs.empty
    (Some "  0123456789abcdefghi  ") (GetWeek "2024" "1")
  = Json 401 (VObject [("message", VString "Access denied")]).
Proof.
  apply (short_key_denied (fun a => a) Sample.env_admin "2255").
  - reflexivity.
  - intros k [= <-]. vm_compute. lia.
Defined.

(** ** What ingestion leaves on the disk *)
Section Disk.

Lemma append_last (a b : ascii) (u v : string) :
  u +:+ String a EmptyString = v +:+ String b EmptyString -> a = b.
Proof.
  revert v; induction u as [|c u IH]; intros [|d v] H; simpl in H.
  - congruence.
  - injection H as _ H. destruct v; discriminate.
  - injection H as _ H. destruct u; discriminate.
  - injection H as _ H. exact (IH _ H).
Qed.

(** Paths with different last letters are different. *)
Lemma last_letter (a b : ascii) (s t u v : string) :
  a <> b ->
  u +:+ s +:+ String a EmptyString <> v +:+ t +:+ String b EmptyString.
Proof.
  intros Hab H. rewrite <- !append_assoc in H.
  exact (Hab (append_last _ _ _ _ H)).
Qed.

(** The raw copy and the [.err] artifact are no bucket files. *)
Lemma raw_not_index folder label n :
  folder +:+ label +:+ ".raw" <> indexPath n.
Proof.
  unfold indexPath. rewrite <- (append_assoc folder), <- (append_assoc "mail/").
  exact (last_letter "w" "n" ".ra" ".jso" _ _ ltac:(discriminate)).
Qed.

Lemma err_not_index folder label n :
  folder +:+ label +:+ ".err" <> indexPath n.
Proof.
  unfold indexPath. rewrite <- (append_assoc folder), <- (append_assoc "mail/").
  exact (last_letter "r" "n" ".er" ".jso" _ _ ltac:(discriminate)).
Qed.

Lemma writeFile_frame fs path body fs' :
  Fs.writeFile fs path body = Ok fs' ->
  Fs.unreadable fs' = Fs.unreadable fs /\ Fs.unwritable fs' = Fs.unwritable fs
  /\ forall q, q <> path -> Fs.files fs' !! q = Fs.files fs !! q.
Proof.
  unfold Fs.writeFile. destruct (decide _); [discriminate|]. intros [= <-].
  repeat split. intros q Hq. simpl. apply lookup_insert_ne. congruence.
Qed.

Lemma pipe_frame fs path body :
  Fs.unreadable (pipe fs path body) = Fs.unreadable fs
  /\ Fs.unwritable (pipe fs path body) = Fs.unwritable fs
  /\ forall q, q <> path ->
               Fs.files (pipe fs path body) !! q = Fs.files fs !! q.
Proof.
  unfold pipe. destruct (Fs.writeFile fs path body) eqn:E; [|auto].
  exact (writeFile_frame _ _ _ _ E).
Qed.

Lemma pipe_written fs path body :
  path ∉ Fs.unwritable fs -> Fs.files (pipe fs path body) !! path = Some body.
Proof.
  intros H. unfold pipe.
  destruct (writeFile_writable fs path body H) as [fs' E].
  rewrite E. exact (writeFile_lookup _ _ _ _ E).
Qed.

Lemma same_at_trans q fs1 fs2 fs3 :
  same_at q fs1 fs2 -> same_at q fs2 fs3 -> same_at q fs1 fs3.
Proof.
  unfold same_at. intros (-> & -> & ->) (-> & -> & ->). auto.
Qed.

Lemma writeFile_same_at fs path body fs' q :
  Fs.writeFile fs path body = Ok fs' -> q <> path -> same_at q fs fs'.
Proof.
  intros E Hq. destruct (writeFile_frame _ _ _ _ E) as (Hr & Hw & Hf).
  repeat split; [exact Hr | exact Hw | exact (Hf q Hq)].
Qed.

Lemma pipe_same_at fs path body q :
  q <> path -> same_at q fs (pipe fs path body).
Proof.
  intros Hq. destruct (pipe_frame fs path body) as (Hr & Hw & Hf).
  repeat split; [exact Hr | exact Hw | exact (Hf q Hq)].
Qed.

(** [handleMessageStream] writes the raw copy and at most one of the two
    artifacts, and nothing else. *)
Lemma handleMessageStream_frame now fs folder id stream fs' p q :
  handleMessageStream now fs folder id stream = (fs', p) ->
  q <> folder +:+ (Luxon.toISO (Luxon.utc now) +:+ "-" +:+ id) +:+ ".raw" ->
  q <> folder +:+ (Luxon.toISO (Luxon.utc now) +:+ "-" +:+ id) +:+ ".err" ->
  q <> folder +:+ (Luxon.toISO (Luxon.utc now) +:+ "-" +:+ id) +:+ ".json" ->
  same_at q fs fs'.
Proof.
  unfold handleMessageStream.
  generalize (Luxon.toISO (Luxon.utc now)). intros iso H Hraw Herr Hjson.
  pose proof (pipe_same_at fs _ (bytes stream) _ Hraw) as H1.
  revert H. set (fs1 := pipe fs _ _) in *. clearbody fs1.
  destruct (decoded stream) as [parseErr|parsed].
  - destruct (Fs.writeFile _ _ _) as [fs2|e] eqn:E; intros [= <- <-];
      [|exact H1].
    exact (same_at_trans _ _ _ _ H1 (writeFile_same_at _ _ _ _ _ E Herr)).
  - destruct (Mailparser.from parsed) as [[[|first senders] ? ?]|];
      cbn [Mailparser.value]; [intros [= <- <-]; exact H1 | |];
      (destruct (Fs.writeFile _ _ _) as [fs2|e] eqn:E; intros [= <- <-];
       [|exact H1];
       exact (same_at_trans _ _ _ _ H1 (writeFile_same_at _ _ _ _ _ E Hjson))).
Qed.

Lemma contains_app c u v :
  Str.contains c (u +:+ v) = Str.contains c u || Str.contains c v.
Proof.
  induction u as [|d u IH]; [reflexivity|]. cbn [String.append Str.contains].
  rewrite IH. apply orb_assoc.
Qed.

Lemma contains_list c l :
  Str.contains c (string_of_list_ascii l) = existsb (Ascii.eqb c) l.
Proof.
  induction l as [|d l IH]; [reflexivity|]. simpl. rewrite IH. reflexivity.
Qed.

Lemma digits_go_no_slash f n :
  existsb (Ascii.eqb "/") (JSON.digits_go f n) = false.
Proof.
  revert n; induction f as [|f IH]; intros n; [reflexivity|].
  cbn [JSON.digits_go].
  assert (forall d, (d < 10)%N -> Ascii.eqb "/" (JSON.digit d) = false) as Hd.
  { intros d H.
    assert (d = 0 \/ d = 1 \/ d = 2 \/ d = 3 \/ d = 4 \/ d = 5 \/ d = 6
            \/ d = 7 \/ d = 8 \/ d = 9)%N as Hc by lia.
    repeat destruct Hc as [->|Hc]; try subst d; reflexivity. }
  destruct (N.ltb_spec n 10) as [Hlt|Hge].
  - cbn [existsb]. rewrite (Hd n Hlt). reflexivity.
  - rewrite existsb_app, IH. cbn [existsb orb]. rewrite Hd; [reflexivity|].
    apply N.mod_lt. lia.
Qed.

Lemma Number_toString_no_slash z :
  Str.contains "/" (Js.Number_toString z) = false.
Proof.
  unfold Js.Number_toString. rewrite contains_list.
  destruct z; unfold JSON.print_Z, JSON.print_N; cbn [existsb];
    apply digits_go_no_slash.
Qed.


Lemma loadWeeklyIndex_same_at fs fs' n :
  same_at (indexPath n) fs fs' -> loadWeeklyIndex fs' n = loadWeeklyIndex fs n.
Proof.
  intros (Hr & _ & Hf). unfold loadWeeklyIndex, Fs.readFile.
  rewrite Hr, Hf. reflexivity.
Qed.

Variable sanitize : string -> string.
Variable systemZone : Luxon.Zone.

(** X7.  When [onData] fails before a summary exists (no recipient, or the
    folder of the recipient cannot be created), nothing has been written,
    not even the raw copy. *)
Theorem onData_failure_writes_nothing now fs stream session fs' e :
  onData sanitize systemZone now fs stream session = (fs', Failed e) ->
  fs' = fs
  /\ (Smtp.rcptTo (Smtp.envelope session) = []
      \/ exists rcpt rest,
           Smtp.rcptTo (Smtp.envelope session) = rcpt :: rest
           /\ ("mail/" +:+ sanitize (Smtp.address rcpt) +:+ "/")
                ∈ Fs.unwritable fs).
Proof.
  unfold onData.
  destruct (Smtp.rcptTo _) as [|rcpt rest]; [intros [= <- _]; auto|].
  unfold createRecipientDirectory, Fs.mkdir.
  destruct (decide _) as [Hin|Hout].
  { intros [= <- _]. split; [reflexivity|]. right. exists rcpt, rest. auto. }
  destruct (handleMessageStream _ _ _ _ _) as [fs2 [t| |]] eqn:H.
  - destruct (error t); [discriminate|].
    destruct (writeErr t); [discriminate|].
    destruct (updateOrCreateWeeklyMessageIndex _ _ _); discriminate.
  - destruct (handleMessageStream_never_rejects _ _ _ _ _ _ _ H).
  - discriminate.
Qed.

(** X8.  Whatever becomes of the message afterwards (decoded or not,
    artifact written or not, indexed or not, or the promise left pending),
    the raw copy holds the bytes of the stream as they came, as long as its
    path can be written. *)
Theorem onData_keeps_raw_copy now fs stream session fs' outcome rcpt rest :
  onData sanitize systemZone now fs stream session = (fs', outcome) ->
  Smtp.rcptTo (Smtp.envelope session) = rcpt :: rest ->
  (forall e, outcome <> Failed e) ->
  ("mail/" +:+ sanitize (Smtp.address rcpt) +:+ "/")
  +:+ (Luxon.toISO (Luxon.utc now) +:+ "-" +:+ Smtp.id session) +:+ ".raw"
    ∉ Fs.unwritable fs ->
  Fs.files fs' !!
    (("mail/" +:+ sanitize (Smtp.address rcpt) +:+ "/")
     +:+ (Luxon.toISO (Luxon.utc now) +:+ "-" +:+ Smtp.id session) +:+ ".raw")
  = Some (bytes stream).
Proof.
  unfold onData. intros H Hrcpt Hout Hw. rewrite Hrcpt in H.
  unfold createRecipientDirectory, Fs.mkdir in H.
  destruct (decide _); [injection H as _ <-; destruct (Hout _ eq_refl)|].
  set (folder := "mail/" +:+ sanitize (Smtp.address rcpt) +:+ "/") in *.
  assert (forall fs2 p,
             handleMessageStream now fs folder (Smtp.id session) stream
             = (fs2, p) ->
             Fs.files fs2 !!
               (folder +:+ (Luxon.toISO (Luxon.utc now) +:+ "-"
                            +:+ Smtp.id session) +:+ ".raw")
             = Some (bytes stream)) as Hraw.
  { unfold handleMessageStream.
    revert Hw. generalize (Luxon.toISO (Luxon.utc now)). intros iso Hw fs2 p.
    pose proof (pipe_written fs _ (bytes stream) Hw) as Hp.
    set (fs1 := pipe fs _ _) in *. clearbody fs1.
    assert (forall suffix body fs3,
               suffix <> ".raw" ->
               Fs.writeFile fs1
                 (folder +:+ (iso +:+ "-" +:+ Smtp.id session) +:+ suffix)
                 body = Ok fs3 ->
               Fs.files fs3
                 !! (folder +:+ (iso +:+ "-" +:+ Smtp.id session) +:+ ".raw")
               = Some (bytes stream)) as Hkeep.
    { intros suffix body fs3 Hs E.
      destruct (writeFile_frame _ _ _ _ E) as (_ & _ & Hf).
      rewrite Hf; [exact Hp|]. intros Heq.
      apply append_cancel_l, append_cancel_l in Heq. congruence. }
    destruct (decoded stream) as [parseErr|parsed].
    - destruct (Fs.writeFile _ _ _) eqn:E; intros [= <- _];
        [apply (Hkeep ".err" _ _ ltac:(discriminate) E) | exact Hp].
    - destruct (Mailparser.from parsed) as [[[|first senders] ? ?]|];
        cbn [Mailparser.value]; [intros [= <- _]; exact Hp | |];
        (destruct (Fs.writeFile _ _ _) eqn:E; intros [= <- _];
         [apply (Hkeep ".json" _ _ ltac:(discriminate) E) | exact Hp]). }
  destruct (handleMessageStream _ _ _ _ _) as [fs2 [t| |]] eqn:Hh;
    [|injection H as <- _; exact (Hraw _ _ eq_refl)..].
  specialize (Hraw _ _ eq_refl).
  destruct (error t); [injection H as <- _; exact Hraw|].
  destruct (writeErr t); [injection H as <- _; exact Hraw|].
  unfold updateOrCreateWeeklyMessageIndex, saveWeeklyIndex, indexFile in H.
  destruct (newIndex _ _) as [index|]; [|injection H as <- _; exact Hraw].
  destruct (Js.read index "name") as [name|];
    [|injection H as <- _; exact Hraw].
  destruct (JSON.stringify index) as [text|];
    [|injection H as <- _; exact Hraw].
  destruct (Fs.writeFile _ _ _) as [fs3|] eqn:E; injection H as <- _;
    [|exact Hraw].
  destruct (writeFile_frame _ _ _ _ E) as (_ & _ & Hf).
  rewrite Hf; [exact Hraw|]. apply raw_not_index.
Qed.


(** X10.  A message whose index update failed is stored all the same: the
    artifact is in the folder of the recipient, under the file name of the
    summary. *)
Theorem ingest_survives_index_failure
        now fs stream session fs' t e :
  onData sanitize systemZone now fs stream session = (fs', Indexed t (Err e)) ->
  exists parsed,
    decoded stream = inr parsed
    /\ Fs.files fs' !! (recipientFolderPath t +:+ filename t)
       = Some (Mailparser.json parsed).
Proof.
  unfold onData.
  destruct (Smtp.rcptTo _) as [|rcpt rest]; [discriminate|].
  destruct (createRecipientDirectory _ _) as [fs1|]; [|discriminate].
  destruct (handleMessageStream _ _ _ _ _) as [fs2 [t'| |]] eqn:Hh;
    [|discriminate..].
  destruct (error t') eqn:He; [discriminate|].
  destruct (writeErr t') eqn:Hw; [discriminate|].
  destruct (updateOrCreateWeeklyMessageIndex _ _ _); intros [= <- <- <-].
  destruct (handleMessageStream_artifact _ _ _ _ _ _ _ Hh He Hw)
    as (parsed & Hd & -> & Hfile).
  exists parsed. auto.
Qed.

End Disk.

Lemma onData_failure_writes_nothing_witness :
  Smtp.rcptTo (Smtp.envelope (Sample.session "m1" "user@example.com")) = []
  \/ exists rcpt rest,
       Smtp.rcptTo (Smtp.envelope (Sample.session "m1" "user@example.com"))
       = rcpt :: rest
       /\ ("mail/" +:+ Smtp.address rcpt +:+ "/")
            ∈ Fs.unwritable (Sample.readonly "mail/user@example.com/").
Proof.
  refine (proj2 (onData_failure_writes_nothing (fun a => a) Luxon.UTC
                   Sample.sunday_night
                   (Sample.readonly "mail/user@example.com/") Sample.mail
                   (Sample.session "m1" "user@example.com")
                   (Sample.readonly "mail/user@example.com/")
                   (Fs.ioError "EACCES" "mkdir" "mail/user@example.com/") _)).
  vm_compute. reflexivity.
Defined.

Lemma onData_keeps_raw_copy_witness :
  Fs.files
    (onData (fun a => a) Luxon.UTC Sample.sunday_night Fs.empty Sample.broken
       (Sample.session "m1" "user@example.com")).1
  !! (("mail/" +:+ "user@example.com" +:+ "/")
      +:+ (Luxon.toISO (Luxon.utc Sample.sunday_night) +:+ "-" +:+ "m1")
      +:+ ".raw")
  = Some "?".
Proof.
  refine (onData_keeps_raw_copy (fun a => a) Luxon.UTC Sample.sunday_night
            Fs.empty Sample.broken (Sample.session "m1" "user@example.com") _
            (ParseFailed
               (set_error {| message := "bad message"; own := [] |}
                  {| recipientFolderPath := "mail/user@example.com/";
                     messageId := "m1";
                     processedAt := "2024-01-07T23:30:00.000Z";
                     from := None; subject := None; filename := EmptyString;
                     error := None; writeErr := None |}))
            {| Smtp.address := "user@example.com" |} [] _ eq_refl _ _).
  - vm_compute. reflexivity.
  - discriminate.
  - apply not_elem_of_empty.
Defined.


Lemma ingest_survives_index_failure_witness :
  exists parsed,
    decoded Sample.mail = inr parsed
    /\ Fs.files
         (onData (fun a => a) Luxon.UTC Sample.sunday_night
            (Sample.readonly "mail/w1-2024.json") Sample.mail
            (Sample.session "m1" "user@example.com")).1
       !! (recipientFolderPath (Sample.summary "m1" "2024-01-07T23:30:00.000Z")
           +:+ filename (Sample.summary "m1" "2024-01-07T23:30:00.000Z"))
       = Some (Mailparser.json parsed).
Proof.
  refine (ingest_survives_index_failure (fun a => a) Luxon.UTC
            Sample.sunday_night (Sample.readonly "mail/w1-2024.json")
            Sample.mail (Sample.session "m1" "user@example.com") _
            (Sample.summary "m1" "2024-01-07T23:30:00.000Z")
            (Fs.ioError "EACCES" "open" "mail/w1-2024.json") _).
  vm_compute. reflexivity.
Defined.

(** ** What [JSON.parse] returns *)
Section ParseResults.
Import JSON.
Local Open Scope list_scope.

Lemma mem_set k' k v acc :
  Obj.mem k' (List.map fst (Obj.set k v acc))
  = Obj.mem k' (List.map fst acc) || String.eqb k' k.
Proof.
  induction acc as [|[k0 v0] acc IH]; simpl; [apply orb_comm|].
  destruct (String.eqb_spec k k0) as [->|Hne]; simpl.
  - destruct (String.eqb k' k0); [reflexivity|]. simpl.
    rewrite orb_false_r. reflexivity.
  - rewrite IH, orb_assoc. reflexivity.
Qed.

Lemma set_distinct k v acc :
  Obj.distinct (List.map fst acc) = true ->
  Obj.distinct (List.map fst (Obj.set k v acc)) = true.
Proof.
  induction acc as [|[k0 v0] acc IH]; simpl; [reflexivity|].
  intros [H1 H2]%andb_true_iff.
  destruct (String.eqb_spec k k0) as [->|Hne]; simpl.
  - rewrite H1, H2. reflexivity.
  - rewrite mem_set, (IH H2), andb_true_r.
    apply negb_true_iff in H1. rewrite H1. simpl.
    apply negb_true_iff. apply String.eqb_neq. congruence.
Qed.

Lemma set_Forall (P : value -> Prop) k v acc :
  Forall (fun p => P (snd p)) acc -> P v ->
  Forall (fun p => P (snd p)) (Obj.set k v acc).
Proof.
  intros Ha Hv. induction Ha as [|[k0 v0] acc H0 Ha IH]; simpl.
  - constructor; [exact Hv | constructor].
  - destruct (String.eqb k k0); constructor; auto.
Qed.

Lemma assign_distinct_keys acc ms :
  Obj.distinct (List.map fst acc) = true ->
  Obj.distinct (List.map fst (Obj.assign acc ms)) = true.
Proof.
  revert acc; induction ms as [|[k v] ms IH]; intros acc H; [exact H|].
  unfold Obj.assign in *. cbn [fold_left fst snd].
  apply IH, set_distinct, H.
Qed.

Lemma assign_Forall (P : value -> Prop) acc ms :
  Forall (fun p => P (snd p)) acc -> Forall (fun p => P (snd p)) ms ->
  Forall (fun p => P (snd p)) (Obj.assign acc ms).
Proof.
  intros Ha Hm. revert acc Ha.
  induction Hm as [|[k v] ms Hv Hm IH]; intros acc Ha; [exact Ha|].
  unfold Obj.assign in *. cbn [fold_left fst snd].
  apply IH, set_Forall; assumption.
Qed.

Lemma plain_array xs : Forall plain xs -> plain (VArray xs).
Proof.
  intros H. split; cbn [is_json well_formed]; apply forallb_forall;
    intros x Hx; rewrite List.Forall_forall in H; apply (H x Hx).
Qed.

Lemma plain_object ps :
  Obj.distinct (List.map fst ps) = true ->
  Forall (fun p => plain (snd p)) ps -> plain (VObject ps).
Proof.
  intros Hd H. rewrite List.Forall_forall in H.
  split; cbn [is_json well_formed]; [|rewrite Hd; cbn [andb]];
    apply forallb_forall; intros x Hx; apply (H x Hx).
Qed.

Lemma plain_members ps :
  plain (VObject ps) ->
  Obj.distinct (List.map fst ps) = true
  /\ Forall (fun p => plain (snd p)) ps.
Proof.
  intros [Hj Hw]. cbn [is_json well_formed] in *.
  apply andb_true_iff in Hw as [Hd Hw]. split; [exact Hd|].
  rewrite forallb_forall in Hj, Hw. apply List.Forall_forall.
  intros x Hx. split; auto.
Qed.

Lemma plain_elements xs : plain (VArray xs) -> Forall plain xs.
Proof.
  intros [Hj Hw]. cbn [is_json well_formed] in *.
  rewrite forallb_forall in Hj, Hw. apply List.Forall_forall.
  intros x Hx. split; auto.
Qed.

Lemma parse_number_plain s v r : parse_number s = Some (v, r) -> plain v.
Proof.
  unfold parse_number. destruct s as [|c s]; [discriminate|].
  destruct (Ascii.eqb c "-").
  - destruct (parse_nat s) as [[n r']|]; [|discriminate].
    intros [= <- _]. split; reflexivity.
  - destruct (parse_nat (c :: s)) as [[n r']|]; [|discriminate].
    intros [= <- _]. split; reflexivity.
Qed.

Lemma parse_value_plain fuel :
  (forall s v r, parse_value fuel s = Some (v, r) -> plain v)
  /\ (forall s xs r, parse_elements fuel s = Some (xs, r) -> Forall plain xs)
  /\ (forall s ms r, parse_members fuel s = Some (ms, r) ->
                     Forall (fun p => plain (snd p)) ms).
Proof.
  induction fuel as [|f (IHv & IHe & IHm)];
    [split; [|split]; intros; discriminate|].
  split; [|split].
  - intros s v r. cbn [parse_value].
    destruct (skip_ws s) as [|c t]; [discriminate|].
    destruct (Ascii.eqb c "[").
    { destruct (skip_ws t) as [|c' t']; [discriminate|].
      destruct (Ascii.eqb c' "]"); [intros [= <- _]; split; reflexivity|].
      destruct (parse_elements f (c' :: t')) as [[xs r'']|] eqn:E;
        [|discriminate].
      intros [= <- _]. apply plain_array, (IHe _ _ _ E). }
    destruct (Ascii.eqb c "{").
    { destruct (skip_ws t) as [|c' t']; [discriminate|].
      destruct (Ascii.eqb c' "}"); [intros [= <- _]; split; reflexivity|].
      destruct (parse_members f (c' :: t')) as [[ms r'']|] eqn:E;
        [|discriminate].
      intros [= <- _]. apply plain_object.
      - apply assign_distinct_keys. reflexivity.
      - apply assign_Forall; [constructor | exact (IHm _ _ _ E)]. }
    destruct (Ascii.eqb c dquote).
    { destruct (parse_chars t) as [[cs r']|]; [|discriminate].
      intros [= <- _]. split; reflexivity. }
    destruct (Ascii.eqb c "n").
    { destruct (expect _ t); [|discriminate].
      intros [= <- _]. split; reflexivity. }
    destruct (Ascii.eqb c "t").
    { destruct (expect _ t); [|discriminate].
      intros [= <- _]. split; reflexivity. }
    destruct (Ascii.eqb c "f").
    { destruct (expect _ t); [|discriminate].
      intros [= <- _]. split; reflexivity. }
    apply parse_number_plain.
  - intros s xs r. cbn [parse_elements].
    destruct (parse_value f s) as [[x r1]|] eqn:E; [|discriminate].
    cbn [mbind option_bind]. destruct (skip_ws r1) as [|c t]; [discriminate|].
    destruct (Ascii.eqb c ",").
    { destruct (parse_elements f t) as [[xs' r2]|] eqn:E2; [|discriminate].
      intros [= <- _].
      constructor; [exact (IHv _ _ _ E) | exact (IHe _ _ _ E2)]. }
    destruct (Ascii.eqb c "]"); [|discriminate].
    intros [= <- _]. constructor; [exact (IHv _ _ _ E) | constructor].
  - intros s ms r. cbn [parse_members].
    destruct (skip_ws s) as [|q r0]; [discriminate|].
    destruct (Ascii.eqb q dquote); [|discriminate].
    destruct (parse_chars r0) as [[k r1]|]; [|discriminate].
    cbn [mbind option_bind]. destruct (skip_ws r1) as [|c1 r2]; [discriminate|].
    destruct (Ascii.eqb c1 ":"); [|discriminate].
    destruct (parse_value f r2) as [[x r3]|] eqn:E; [|discriminate].
    cbn [mbind option_bind]. destruct (skip_ws r3) as [|c r4]; [discriminate|].
    destruct (Ascii.eqb c ",").
    { destruct (parse_members f r4) as [[ms' r5]|] eqn:E2; [|discriminate].
      intros [= <- _].
      constructor; [exact (IHv _ _ _ E) | exact (IHm _ _ _ E2)]. }
    destruct (Ascii.eqb c "}"); [|discriminate].
    intros [= <- _]. constructor; [exact (IHv _ _ _ E) | constructor].
Qed.

(** [JSON.parse] returns JSON values whose objects have one property per
    key. *)
Lemma parse_plain text v : parse text = Some v -> plain v.
Proof.
  unfold parse.
  destruct (parse_value _ _) as [[v' r]|] eqn:E; [|discriminate].
  cbn [mbind option_bind]. destruct (skip_ws r); [|discriminate].
  intros [= <-]. exact (proj1 (parse_value_plain _) _ _ _ E).
Qed.

Lemma loadWeeklyIndex_plain fs n : plain (loadWeeklyIndex fs n).
Proof.
  unfold loadWeeklyIndex. destruct (Fs.readFile _ _) as [data|];
    [|split; reflexivity].
  destruct (parse data) eqn:E; [exact (parse_plain _ _ E) | split; reflexivity].
Qed.

End ParseResults.

(** ** Updates of an existing bucket *)
Section MoreIndex.
Import JSON.
Local Open Scope list_scope.

Lemma indexPath_injective a b : indexPath a = indexPath b -> a = b.
Proof.
  unfold indexPath. intros H. apply append_cancel_l in H.
  exact (append_cancel_r _ _ _ H).
Qed.

(** The bucket of a name without a slash is no file of a recipient folder. *)
Lemma bucket_not_in_folder n recipient file :
  Str.contains "/" n = false ->
  "mail/" +:+ recipient +:+ "/" +:+ file <> indexPath n.
Proof.
  unfold indexPath. intros Hn H. apply append_cancel_l in H.
  apply (f_equal (Str.contains "/")) in H.
  rewrite !contains_app, Hn in H.
  cbn in H. rewrite orb_true_r in H. discriminate.
Qed.

Lemma indexName_no_slash zone processedAt :
  Str.contains "/" (indexName zone processedAt) = false.
Proof.
  unfold indexName. destruct (Luxon.fromISO _ _); [|reflexivity].
  rewrite !contains_app, !Number_toString_no_slash. reflexivity.
Qed.

Lemma jsonify_plain_list xs :
  Forall plain xs ->
  List.map (fun x => default VNull (jsonify x)) xs = xs.
Proof.
  induction 1 as [|x xs [Hx _] _ IH]; [reflexivity|].
  cbn [List.map]. rewrite IH, (jsonify_of_json _ Hx). reflexivity.
Qed.

Lemma jsonify_prepended n t msgs :
  Forall plain msgs ->
  jsonify (index_value {| name := n; messages := summary_value t :: msgs |})
  = Some (index_value {| name := n; messages := summary_json t :: msgs |}).
Proof.
  intros H. unfold index_value. rewrite jsonify_object.
  cbn [name messages jsonify_props].
  change (jsonify (VString n)) with (Some (VString n)).
  change (jsonify (VArray ?l))
    with (Some (VArray (List.map (fun x => default VNull (jsonify x)) l))).
  cbn [List.map]. rewrite (jsonify_plain_list _ H). reflexivity.
Qed.

Lemma well_formed_prepended n t msgs :
  well_formed (summary_value t) = true -> Forall plain msgs ->
  well_formed
    (index_value {| name := n; messages := summary_value t :: msgs |}) = true.
Proof.
  intros Ht H. unfold index_value. cbn [name messages].
  change (well_formed (VObject ?ps))
    with (Obj.distinct (List.map fst ps)
          && forallb (fun p => well_formed (snd p)) ps).
  cbn [List.map fst snd forallb Obj.distinct Obj.mem].
  change (well_formed (VString n)) with true.
  change (well_formed (VArray ?l)) with (forallb well_formed l).
  cbn [forallb]. rewrite Ht.
  replace (forallb well_formed msgs) with true; [reflexivity|].
  symmetry. apply forallb_forall. rewrite List.Forall_forall in H.
  intros x Hx. apply (H x Hx).
Qed.

Lemma index_value_messages_plain i :
  plain (index_value i) -> Forall plain (messages i).
Proof.
  intros H. destruct (plain_members _ H) as [_ Hm].
  inversion Hm as [|? ? _ Hm']. inversion Hm' as [|? ? Ha _].
  exact (plain_elements _ Ha).
Qed.

(** A summary that reports no failure has one property per key. *)
Lemma clean_summary_well_formed t :
  error t = None -> writeErr t = None ->
  well_formed (summary_value t) = true.
Proof.
  intros He Hw. unfold summary_value. rewrite He, Hw.
  destruct (from t), (subject t); reflexivity.
Qed.

Variable systemZone : Luxon.Zone.

(** The update of a bucket stored under its own name: what is loaded
    afterwards is the summary in front of what was loaded before. *)
Lemma update_then_load fs fs' t i :
  loadWeeklyIndex fs (indexName systemZone (processedAt t)) = index_value i ->
  name i = indexName systemZone (processedAt t) ->
  well_formed (summary_value t) = true ->
  indexPath (name i) ∉ Fs.unreadable fs ->
  updateOrCreateWeeklyMessageIndex systemZone fs t = Ok fs' ->
  loadWeeklyIndex fs' (indexName systemZone (processedAt t))
  = index_value
      {| name := indexName systemZone (processedAt t);
         messages := summary_json t :: messages i |}.
Proof.
  intros Hl Hn Ht Hr Hu.
  assert (Forall plain (messages i)) as Hm.
  { apply index_value_messages_plain. rewrite <- Hl.
    apply loadWeeklyIndex_plain. }
  rewrite (updateOrCreateWeeklyMessageIndex_prepends _ _ _ _ Hl) in Hu.
  pose proof (loadWeeklyIndex_saved _ _
                {| name := name i; messages := summary_value t :: messages i |}
                (well_formed_prepended _ _ _ Ht Hm) Hu Hr) as Hs.
  cbn [name] in Hs. rewrite jsonify_prepended in Hs by exact Hm.
  rewrite Hn in Hs. injection Hs as Hs. exact Hs.
Qed.

Variable sanitize : string -> string.

(** X11.  Read your own write: after [onData] has indexed a message, the
    bucket of its week, loaded again, holds the entry of the message in
    front of the entries it held before, provided the bucket file can be
    read and is stored under its own name (as every bucket the server
    created is). *)
Theorem indexed_message_heads_its_week now fs stream session fs' t i :
  onData sanitize systemZone now fs stream session
  = (fs', Indexed t (Ok ())) ->
  loadWeeklyIndex fs (indexName systemZone (processedAt t)) = index_value i ->
  name i = indexName systemZone (processedAt t) ->
  indexPath (indexName systemZone (processedAt t)) ∉ Fs.unreadable fs ->
  loadWeeklyIndex fs' (indexName systemZone (processedAt t))
  = index_value
      {| name := indexName systemZone (processedAt t);
         messages := summary_json t :: messages i |}.
Proof.
  unfold onData. intros H Hl Hn Hr.
  destruct (Smtp.rcptTo _) as [|rcpt rest]; [discriminate|].
  unfold createRecipientDirectory, Fs.mkdir in H.
  destruct (decide _); [discriminate|].
  destruct (handleMessageStream _ _ _ _ _) as [fs2 [t'| |]] eqn:Hh;
    [|discriminate..].
  destruct (error t') eqn:He; [discriminate|].
  destruct (writeErr t') eqn:Hw; [discriminate|].
  destruct (updateOrCreateWeeklyMessageIndex _ _ _) as [fs3|] eqn:Hu;
    [|discriminate].
  injection H as <- <-.
  assert (same_at (indexPath (indexName systemZone (processedAt t'))) fs fs2)
    as Hs.
  { apply (handleMessageStream_frame _ _ _ _ _ _ _ _ Hh).
    - intros Heq. symmetry in Heq. exact (raw_not_index _ _ _ Heq).
    - intros Heq. symmetry in Heq. exact (err_not_index _ _ _ Heq).
    - intros Heq. symmetry in Heq. rewrite !append_assoc in Heq.
      exact (bucket_not_in_folder _ _ _ (indexName_no_slash _ _) Heq). }
  apply (update_then_load fs2).
  - rewrite (loadWeeklyIndex_same_at _ _ _ Hs). exact Hl.
  - exact Hn.
  - exact (clean_summary_well_formed _ He Hw).
  - destruct Hs as (-> & _). rewrite Hn. exact Hr.
  - exact Hu.
Qed.


(** X13.  A bucket file that holds JSON of another shape (no [messages], or
    [messages] that is neither an array nor a string) blocks its week: every
    update of the bucket fails and the read API throws, where a missing or
    unparsable file would count as an empty bucket. *)
Theorem misshapen_bucket_blocks_its_week fs n :
  (forall xs, Js.read (loadWeeklyIndex fs n) "messages" <> Some (VArray xs)) ->
  (forall s, Js.read (loadWeeklyIndex fs n) "messages" <> Some (VString s)) ->
  (forall t, indexName systemZone (processedAt t) = n ->
             exists e, updateOrCreateWeeklyMessageIndex systemZone fs t = Err e)
  /\ (forall year week,
         n = "w" +:+ Js.Number_toString (parseInt week) +:+ "-"
             +:+ Js.Number_toString (parseInt year) ->
         exists e, listMessages fs year week = Thrown e).
Proof.
  intros Ha Hs. split.
  - intros t <-. unfold updateOrCreateWeeklyMessageIndex, newIndex.
    destruct (Js.read _ "messages") as [old|]; [|eauto].
    destruct old; cbn [Js.iterate]; eauto.
    + destruct (Hs _ eq_refl).
    + destruct (Ha _ eq_refl).
  - intros year week ->. unfold listMessages.
    destruct (Js.read _ "messages") as [old|]; [|eauto].
    destruct old; eauto. destruct (Ha _ eq_refl).
Qed.

End MoreIndex.

(** ** The read API on stored entries *)
Section MoreReadAPI.
Import Str.

Lemma get_set_eq k v ps : Obj.get k (Obj.set k v ps) = v.
Proof.
  induction ps as [|[k' v'] ps IH]; simpl;
    [rewrite String.eqb_refl; reflexivity|].
  destruct (String.eqb_spec k k') as [->|Hne]; simpl.
  - rewrite String.eqb_refl. reflexivity.
  - destruct (String.eqb_spec k k'); [contradiction | exact IH].
Qed.

Lemma get_set_ne k k' v ps :
  k <> k' -> Obj.get k (Obj.set k' v ps) = Obj.get k ps.
Proof.
  intros Hne. induction ps as [|[k0 v0] ps IH]; simpl.
  - destruct (String.eqb_spec k k'); [contradiction | reflexivity].
  - destruct (String.eqb_spec k' k0) as [->|Hne']; simpl.
    + destruct (String.eqb_spec k k0); [contradiction | reflexivity].
    + rewrite IH. reflexivity.
Qed.

Lemma assign_cons acc k v src :
  Obj.assign acc ((k, v) :: src) = Obj.assign (Obj.set k v acc) src.
Proof. reflexivity. Qed.

Lemma get_assign_absent k acc src :
  Obj.mem k (List.map fst src) = false ->
  Obj.get k (Obj.assign acc src) = Obj.get k acc.
Proof.
  revert acc; induction src as [|[k' v'] src IH]; intros acc H; [reflexivity|].
  rewrite assign_cons. simpl in H. apply orb_false_iff in H as [H1 H2].
  rewrite (IH _ H2). apply get_set_ne. apply String.eqb_neq, H1.
Qed.

Lemma get_assign_present k acc src :
  Obj.distinct (List.map fst src) = true ->
  Obj.mem k (List.map fst src) = true ->
  Obj.get k (Obj.assign acc src) = Obj.get k src.
Proof.
  revert acc; induction src as [|[k' v'] src IH]; intros acc Hd H;
    [discriminate|].
  rewrite assign_cons. simpl in *.
  apply andb_true_iff in Hd as [Hk Hd].
  destruct (String.eqb_spec k k') as [->|Hne].
  - apply negb_true_iff in Hk.
    rewrite (get_assign_absent _ _ _ Hk). apply get_set_eq.
  - simpl in H. apply (IH _ Hd H).
Qed.

Lemma substring_rest p s m :
  String.length s <= m -> substring (String.length p) m (p +:+ s) = s.
Proof.
  intros H. induction p as [|c p IH]; [|exact IH]. simpl.
  revert m H; induction s as [|c s IH]; intros [|m] H; simpl in *;
    [reflexivity | reflexivity | lia |].
  rewrite IH by lia. reflexivity.
Qed.

Lemma replace_prefix p s :
  p <> EmptyString -> replace p EmptyString (p +:+ s) = s.
Proof.
  intros Hp. destruct p as [|c p]; [contradiction|].
  cbn [String.append replace].
  assert (startsWith (String c (p +:+ s)) (String c p) = true) as ->.
  { apply (startsWith_app (String c (p +:+ s)) (String c p)). exists s.
    reflexivity. }
  cbn [String.append]. change (String c (p +:+ s)) with (String c p +:+ s).
  apply substring_rest. rewrite length_append. lia.
Qed.

Lemma dropLast_app s c : dropLast (s +:+ String c EmptyString) = s.
Proof.
  induction s as [|d s IH]; [reflexivity|]. cbn [String.append dropLast].
  rewrite IH. destruct s; reflexivity.
Qed.

Variable sanitize : string -> string.

(** X14.  The link of a listed entry leads to the artifact: for a summary
    stored in the folder of [u@d], the entry the read API returns names the
    recipient, hides the folder, keeps the other properties, and its link
    is made of [d], [u] and the file name, the parameters for which
    [loadMessage] reads the very file [handleMessageStream] wrote. *)
Theorem listed_entry_links_to_artifact t u d :
  recipientFolderPath t = "mail/" +:+ (u +:+ "@" +:+ d) +:+ "/" ->
  contains "@" u = false -> contains "@" d = false ->
  exists entry,
    withMessageUrl (summary_json t) = Ok entry
    /\ Js.read entry "recipient" = Some (VString (u +:+ "@" +:+ d))
    /\ Js.read entry "recipientFolderPath" = Some VNull
    /\ Js.read entry "message"
       = Some (VObject
                 [("href",
                   VString ("/api/mail/" +:+ encodeURIComponent d +:+ "/"
                            +:+ encodeURIComponent u +:+ "/"
                            +:+ encodeURIComponent (filename t)))])
    /\ (forall k, k <> "recipient" -> k <> "recipientFolderPath" ->
                  k <> "message" ->
                  Js.read entry k = Js.read (summary_json t) k)
    /\ (sanitize (u +:+ "@" +:+ d) = u +:+ "@" +:+ d ->
        messagePath sanitize d u (filename t)
        = recipientFolderPath t +:+ filename t).
Proof.
  intros Hf Hu Hd.
  assert (exists ps, summary_json t
                     = VObject (("recipientFolderPath",
                                 VString (recipientFolderPath t))
                                :: ("messageId", VString (messageId t))
                                :: ("processedAt", VString (processedAt t))
                                :: ("filename", VString (filename t)) :: ps))
    as [ps Hj].
  { unfold summary_json, summary_value. rewrite jsonify_object.
    cbn [app JSON.jsonify_props JSON.jsonify default from_option id].
    eexists. reflexivity. }
  rewrite Hj. unfold withMessageUrl.
  cbn [Js.read Obj.get String.eqb Ascii.eqb Bool.eqb].
  rewrite Hf, (replace_prefix "mail/") by discriminate.
  rewrite <- append_assoc, dropLast_app.
  replace (u +:+ "@" +:+ d) with (u +:+ String "@" d) by reflexivity.
  rewrite split_app, (split_none _ _ Hu), (split_none _ _ Hd).
  cbn [app nth_string lookup list_lookup Js.toString].
  eexists. split; [reflexivity|].
  unfold Obj.assign. cbn [fold_left fst snd Js.spread Js.read].
  split; [|split; [|split; [|split]]].
  - rewrite get_set_ne, get_set_eq by discriminate. reflexivity.
  - do 2 rewrite get_set_ne by discriminate. rewrite get_set_eq. reflexivity.
  - rewrite get_set_eq. reflexivity.
  - intros k H1 H2 H3. rewrite !get_set_ne by assumption. reflexivity.
  - intros Hs. unfold messagePath.
    change ("@" +:+ d) with (String "@" d). rewrite Hs, !append_assoc.
    reflexivity.
Qed.

(** X15.  When the artifact exists, [GET /api/mail/:domain/:username/
    :messageFilename] answers 200 with the properties of the stored message;
    the three request parameters are added, and a stored property of the
    same name wins over them. *)
Theorem fetchMessage_found fs domain username messageFilename data ps :
  Fs.readFile fs (messagePath sanitize domain username messageFilename)
  = Ok data ->
  JSON.parse data = Some (VObject ps) ->
  exists out,
    fetchMessage sanitize fs domain username messageFilename
    = Json 200 (VObject out)
    /\ (forall k, Obj.mem k (List.map fst ps) = true ->
                  Obj.get k out = Obj.get k ps)
    /\ (forall k, Obj.mem k (List.map fst ps) = false ->
                  Obj.get k out
                  = Obj.get k [("domain", VString domain);
                               ("username", VString username);
                               ("messageFilename", VString messageFilename)]).
Proof.
  intros Hr Hp. unfold fetchMessage, loadMessage. rewrite Hr, Hp.
  cbn [Js.truthy negb Js.spread]. eexists. split; [reflexivity|].
  destruct (plain_members _ (parse_plain _ _ Hp)) as [Hd _].
  split; intros k Hk.
  - exact (get_assign_present _ _ _ Hd Hk).
  - exact (get_assign_absent _ _ _ Hk).
Qed.

End MoreReadAPI.

(** ** Listing a week *)
Section Listing.

Lemma withMessageUrl_ok m :
  has_folder m -> exists o, withMessageUrl m = Ok o.
Proof.
  intros [path H]. unfold withMessageUrl. rewrite H.
  destruct m; try discriminate; cbn [Js.read]; eauto.
Qed.

Lemma withMessageUrl_err m :
  ~ has_folder m -> exists e, withMessageUrl m = Err e.
Proof.
  intros H. unfold withMessageUrl.
  destruct (Js.read m "recipientFolderPath") as [[]|] eqn:E; eauto.
  destruct H. eexists. exact E.
Qed.

Lemma mapResult_ok msgs :
  Forall has_folder msgs ->
  exists out, mapResult withMessageUrl msgs = Ok out
              /\ Forall2 (fun m o => withMessageUrl m = Ok o) msgs out.
Proof.
  induction 1 as [|m msgs Hm _ (out & IH & Hall)]; cbn [mapResult].
  - exists []. split; [reflexivity | constructor].
  - destruct (withMessageUrl_ok _ Hm) as [o Ho]. rewrite Ho, IH.
    exists (o :: out). split; [reflexivity | constructor; assumption].
Qed.

Lemma mapResult_err msgs :
  Exists (fun m => ~ has_folder m) msgs ->
  exists e, mapResult withMessageUrl msgs = Err e.
Proof.
  induction 1 as [m msgs Hm|m msgs _ [e IH]]; cbn [mapResult].
  - destruct (withMessageUrl_err _ Hm) as [e ->]. eauto.
  - destruct (withMessageUrl m); [rewrite IH|]; eauto.
Qed.

(** X16.  The listing of a week is all or nothing: when every stored entry
    has a folder, the answer is 200 with one entry per stored entry, in the
    stored order; a single entry without one (a [null], say) makes the whole
    request throw. *)
Theorem listMessages_all_or_nothing fs year week msgs :
  Js.read
    (loadWeeklyIndex fs
       ("w" +:+ Js.Number_toString (parseInt week) +:+ "-"
        +:+ Js.Number_toString (parseInt year))) "messages"
  = Some (VArray msgs) ->
  (Forall has_folder msgs ->
   exists out,
     listMessages fs year week = Json 200 (VArray out)
     /\ Forall2 (fun m o => withMessageUrl m = Ok o) msgs out)
  /\ (Exists (fun m => ~ has_folder m) msgs ->
      exists e, listMessages fs year week = Thrown e).
Proof.
  intros H. unfold listMessages. rewrite H. split.
  - intros Hall. destruct (mapResult_ok _ Hall) as (out & -> & Hout). eauto.
  - intros Hex. destruct (mapResult_err _ Hex) as [e ->]. eauto.
Qed.

End Listing.

Lemma indexed_message_heads_its_week_witness :
  loadWeeklyIndex
    (onData (fun a => a) Luxon.UTC Sample.sunday_night Fs.empty Sample.mail
       (Sample.session "m1" "user@example.com")).1
    (indexName Luxon.UTC
       (processedAt (Sample.summary "m1" "2024-01-07T23:30:00.000Z")))
  = index_value
      {| name :=
           indexName Luxon.UTC
             (processedAt (Sample.summary "m1" "2024-01-07T23:30:00.000Z"));
         messages :=
           summary_json (Sample.summary "m1" "2024-01-07T23:30:00.000Z")
           :: messages {| name := "w1-2024"; messages := [] |} |}.
Proof.
  refine (indexed_message_heads_its_week Luxon.UTC (fun a => a)
            Sample.sunday_night Fs.empty Sample.mail
            (Sample.session "m1" "user@example.com") _
            (Sample.summary "m1" "2024-01-07T23:30:00.000Z")
            {| name := "w1-2024"; messages := [] |} _ _ _ _).
  - vm_compute. reflexivity.
  - vm_compute. reflexivity.
  - vm_compute. reflexivity.
  - apply not_elem_of_empty.
Defined.


Lemma misshapen_bucket_blocks_its_week_witness :
  exists e,
    listMessages (Sample.holding "mail/w1-2024.json" "{}") "2024" "1"
    = Thrown e.
Proof.
  refine (proj2 (misshapen_bucket_blocks_its_week Luxon.UTC
                   (Sample.holding "mail/w1-2024.json" "{}") "w1-2024" _ _)
            "2024" "1" _).
  - intros xs. vm_compute. discriminate.
  - intros s. vm_compute. discriminate.
  - vm_compute. reflexivity.
Defined.

Lemma listed_entry_links_to_artifact_witness :
  exists entry,
    withMessageUrl
      (summary_json (Sample.summary "m1" "2024-01-07T23:30:00.000Z"))
    = Ok entry
    /\ Js.read entry "recipient"
       = Some (VString ("user" +:+ "@" +:+ "example.com")).
Proof.
  destruct (listed_entry_links_to_artifact (fun a => a)
              (Sample.summary "m1" "2024-01-07T23:30:00.000Z")
              "user" "example.com" eq_refl eq_refl eq_refl)
    as (entry & H1 & H2 & _).
  exists entry. split; [exact H1 | exact H2].
Defined.

Lemma fetchMessage_found_witness :
  exists out,
    fetchMessage (fun a => a)
      (Sample.holding "mail/user@example.com/a.json" "{}")
      "example.com" "user" "a.json"
    = Json 200 (VObject out).
Proof.
  destruct (fetchMessage_found (fun a => a)
              (Sample.holding "mail/user@example.com/a.json" "{}")
              "example.com" "user" "a.json" "{}" []
              ltac:(vm_compute; reflexivity) ltac:(vm_compute; reflexivity))
    as (out & H & _).
  exists out. exact H.
Defined.

Lemma listMessages_all_or_nothing_witness :
  exists e,
    listMessages
      (Sample.holding "mail/w1-2024.json"
         (Sample.stored {| name := "w1-2024"; messages := [VNull] |}))
      "2024" "1"
    = Thrown e.
Proof.
  refine (proj2 (listMessages_all_or_nothing
                   (Sample.holding "mail/w1-2024.json"
                      (Sample.stored
                         {| name := "w1-2024"; messages := [VNull] |}))
                   "2024" "1" [VNull] _) _).
  - vm_compute. reflexivity.
  - apply Exists_cons_hd. intros [path H]. discriminate.
Defined.

(** ** The calendar of Luxon *)

Ltac arith := Z.div_mod_to_equations; lia.

(** Tests on numerals are evaluated. *)
Ltac closed_tests :=
  repeat match goal with
         | |- context [(?a =? ?b)%Z] =>
             let v := eval vm_compute in (a =? b)%Z in
             match v with
             | true => change (a =? b)%Z with true
             | false => change (a =? b)%Z with false
             end
         | |- context [(?a <=? ?b)%Z] =>
             let v := eval vm_compute in (a <=? b)%Z in
             match v with
             | true => change (a <=? b)%Z with true
             | false => change (a <=? b)%Z with false
             end
         end.

Section Calendar.
Import Luxon.
Local Open Scope Z_scope.

Lemma daysFromCivil_civil d :
  daysFromCivil (civil d).1.1 (civil d).1.2 (civil d).2 = d.
Proof.
  unfold civil, daysFromCivil. cbn [fst snd].
  set (z := d + 719468).
  set (era := z / 146097).
  set (doe := z - era * 146097).
  assert (0 <= doe < 146097) as Hdoe by (subst doe era; arith).
  assert (d = era * 146097 + doe - 719468) as Hd by (subst doe z; lia).
  clearbody doe era. subst d. clear z.
  set (yoe := (doe - doe / 1460 + doe / 36524 - doe / 146096) / 365).
  assert (0 <= yoe < 400) as Hyoe by (subst yoe; arith).
  set (doy := doe - (365 * yoe + yoe / 4 - yoe / 100)).
  assert (0 <= doy <= 365) as Hdoy by (subst doy yoe; arith).
  assert (doe = yoe * 365 + yoe / 4 - yoe / 100 + doy) as Hdoe'
    by (subst doy; lia).
  clearbody doy. clearbody yoe.
  set (mp := (5 * doy + 2) / 153).
  assert (0 <= mp <= 11) as Hmp by (subst mp; arith).
  destruct (Z.ltb_spec mp 10).
  - replace (mp + 3 <=? 2) with false by (symmetry; apply Z.leb_gt; lia).
    replace (2 <? mp + 3) with true by (symmetry; apply Z.ltb_lt; lia).
    replace (mp + 3 - 3) with mp by lia.
    replace ((yoe + era * 400 + 0) / 400) with era by arith.
    replace (yoe + era * 400 + 0 - era * 400) with yoe by lia.
    lia.
  - replace (mp - 9 <=? 2) with true by (symmetry; apply Z.leb_le; lia).
    replace (2 <? mp - 9) with false by (symmetry; apply Z.ltb_ge; lia).
    replace (mp - 9 + 9) with mp by lia.
    replace ((yoe + era * 400 + 1 - 1) / 400) with era by arith.
    replace (yoe + era * 400 + 1 - 1 - era * 400) with yoe by lia.
    lia.
Qed.

Lemma civil_valid d :
  1 <= (civil d).1.2 <= 12
  /\ 1 <= (civil d).2 <= daysInMonth (civil d).1.1 (civil d).1.2.
Proof.
  unfold civil. cbn [fst snd].
  set (z := d + 719468).
  set (era := z / 146097).
  set (doe := z - era * 146097).
  assert (0 <= doe < 146097) as Hdoe by (subst doe era; arith).
  clearbody doe era. clear z.
  set (yoe := (doe - doe / 1460 + doe / 36524 - doe / 146096) / 365).
  assert (0 <= yoe < 400) as Hyoe by (subst yoe; arith).
  set (doy := doe - (365 * yoe + yoe / 4 - yoe / 100)).
  assert (0 <= doy <= 365) as Hdoy by (subst doy yoe; arith).
  assert (doy = 365 ->
          (yoe + 1) mod 4 = 0
          /\ ((yoe + 1) mod 100 <> 0 \/ (yoe + 1) mod 400 = 0)) as Hleap.
  { intros Heq. subst doy yoe. arith. }
  clearbody doy. clearbody yoe. clear doe Hdoe.
  set (mp := (5 * doy + 2) / 153).
  assert (0 <= mp <= 11) as Hmp by (subst mp; arith).
  assert (1 <= doy - (153 * mp + 2) / 5 + 1) as Hd1 by (subst mp; arith).
  split.
  { destruct (Z.ltb_spec mp 10); lia. }
  split; [exact Hd1|].
  unfold daysInMonth, isLeapYear.
  assert (mp = 0 \/ mp = 1 \/ mp = 2 \/ mp = 3 \/ mp = 4 \/ mp = 5 \/ mp = 6
          \/ mp = 7 \/ mp = 8 \/ mp = 9 \/ mp = 10 \/ mp = 11) as Hc by lia.
  repeat destruct Hc as [Hc|Hc]; rewrite Hc in *; closed_tests;
    cbn [orb]; try (unfold mp in Hc; arith).
  destruct (Z.eqb_spec ((yoe + era * 400 + 1) mod 4) 0),
    (Z.eqb_spec ((yoe + era * 400 + 1) mod 100) 0),
    (Z.eqb_spec ((yoe + era * 400 + 1) mod 400) 0);
    cbn [andb orb negb]; unfold mp in Hc; arith.
Qed.
End Calendar.

Ltac same_number :=
  match goal with
  | |- Some (?x, ?r) = Some (?y, ?r) =>
      apply (f_equal (fun v => Some (v, r)))
  end.

Section Pads.
Import Luxon.
Local Open Scope Z_scope.

Lemma list_ascii_app a b :
  list_ascii_of_string (a +:+ b)
  = (list_ascii_of_string a ++ list_ascii_of_string b)%list.
Proof.
  induction a as [|c a IH]; [reflexivity|]. simpl. rewrite IH. reflexivity.
Qed.

Lemma length_of_list l :
  String.length (string_of_list_ascii l) = List.length l.
Proof. induction l as [|c l IH]; [reflexivity|]. simpl. rewrite IH. reflexivity. Qed.

Lemma digits_add a b acc s :
  digits (a + b) acc s
  = match digits a acc s with
    | Some (v, r) => digits b v r
    | None => None
    end.
Proof.
  revert acc s; induction a as [|a IH]; intros acc s; [reflexivity|].
  cbn [Nat.add digits]. destruct s as [|c s]; [reflexivity|].
  destruct (JSON.is_digit c); [apply IH | reflexivity].
Qed.

Lemma digits_zeros k m s :
  digits (k + m) 0 (List.repeat "0"%char k ++ s) = digits m 0 s.
Proof. induction k as [|k IH]; [reflexivity|]. exact IH. Qed.

Lemma digits_digit acc d rest :
  (d < 10)%N ->
  digits 1 acc (JSON.digit d :: rest) = Some (acc * 10 + Z.of_N d, rest).
Proof.
  intros H. cbn [digits].
  destruct (digit_range d H) as (-> & Hd & _).
  replace (Z.of_N (N_of_ascii (JSON.digit d)) - 48) with (Z.of_N d);
    [reflexivity|].
  assert (48 <= N_of_ascii (JSON.digit d))%N.
  { unfold JSON.digit. rewrite N_ascii_embedding; lia. }
  lia.
Qed.

Lemma digits_go_read f n acc rest :
  (n < 2 ^ N.of_nat f)%N ->
  digits (List.length (JSON.digits_go f n)) acc (JSON.digits_go f n ++ rest)
  = Some (acc * 10 ^ Z.of_nat (List.length (JSON.digits_go f n)) + Z.of_N n,
          rest).
Proof.
  revert n acc rest; induction f as [|f IH]; intros n acc rest Hn.
  { simpl in Hn. assert (n = 0%N) as -> by lia. cbn. same_number. lia. }
  cbn [JSON.digits_go]. destruct (N.ltb_spec n 10) as [Hlt|Hge].
  - cbn [List.length app]. rewrite (digits_digit _ _ _ Hlt).
    same_number. lia.
  - rewrite List.length_app, <- List.app_assoc. cbn [List.length app].
    rewrite digits_add, IH.
    2:{ rewrite Nat2N.inj_succ, N.pow_succ_r' in Hn.
        apply N.Div0.div_lt_upper_bound. lia. }
    rewrite digits_digit by (apply N.mod_lt; lia).
    same_number.
    rewrite Nat2Z.inj_add, Z.pow_add_r by lia.
    pose proof (N.div_mod n 10 ltac:(lia)) as Hdm.
    rewrite N2Z.inj_div, N2Z.inj_mod.
    pose proof (Z.div_mod (Z.of_N n) 10 ltac:(lia)). change (Z.of_N 10) with 10.
    change (10 ^ Z.of_nat 1) with 10. lia.
Qed.

Lemma digits_go_length f n w :
  (n < 10 ^ N.of_nat w)%N -> (0 < w)%nat ->
  (List.length (JSON.digits_go f n) <= w)%nat.
Proof.
  revert n w; induction f as [|f IH]; intros n w Hn Hw; [simpl; lia|].
  cbn [JSON.digits_go]. destruct (N.ltb_spec n 10) as [Hlt|Hge];
    [simpl; lia|].
  rewrite List.length_app. cbn [List.length].
  destruct w as [|[|w]]; [lia | simpl in Hn; lia |].
  assert (List.length (JSON.digits_go f (n / 10)) <= S w)%nat; [|lia].
  apply IH; [|lia].
  rewrite Nat2N.inj_succ, N.pow_succ_r' in Hn.
  apply N.Div0.div_lt_upper_bound. lia.
Qed.

(** A number written with [pad] is read back by [digits]. *)
Lemma digits_pad w z rest :
  0 <= z < 10 ^ Z.of_nat w -> (0 < w)%nat ->
  digits w 0 (list_ascii_of_string (pad w z) ++ rest) = Some (z, rest).
Proof.
  intros Hz Hw. unfold pad, Js.Number_toString.
  rewrite list_ascii_app, !list_ascii_of_string_of_list_ascii.
  rewrite length_of_list.
  set (n := Z.to_N z).
  assert (JSON.print_Z z = JSON.print_N n) as ->.
  { subst n. destruct z; try reflexivity. lia. }
  assert (n < 10 ^ N.of_nat w)%N as Hn.
  { subst n. apply N2Z.inj_lt. rewrite N2Z.inj_pow, Z2N.id, nat_N_Z by lia.
    apply Hz. }
  unfold JSON.print_N. set (f := S (N.to_nat (N.size n))).
  pose proof (print_N_bound n) as Hf. fold f in Hf.
  pose proof (digits_go_length f n w Hn Hw) as Hl.
  replace w with ((w - List.length (JSON.digits_go f n))
                  + List.length (JSON.digits_go f n))%nat at 1 by lia.
  rewrite <- List.app_assoc, digits_zeros, (digits_go_read _ _ _ _ Hf).
  same_number. subst n. lia.
Qed.

End Pads.

Section RoundTrip.
Import Luxon.
Local Open Scope Z_scope.

Lemma sep_head c r : sep c (c :: r) = Some r.
Proof. unfold sep. rewrite Ascii.eqb_refl. reflexivity. Qed.

Lemma daysInMonth_bound y m : daysInMonth y m <= 31.
Proof.
  unfold daysInMonth. destruct (m =? 2); [destruct (isLeapYear y); lia|].
  destruct (_ || _); lia.
Qed.

Lemma parseISO_fields y mo d h mi sec ms :
  0 <= y < 10000 -> 1 <= mo <= 12 -> 1 <= d <= daysInMonth y mo ->
  0 <= h <= 23 -> 0 <= mi <= 59 -> 0 <= sec <= 59 -> 0 <= ms <= 999 ->
  parseISO
    (pad 4 y +:+ "-" +:+ pad 2 mo +:+ "-" +:+ pad 2 d +:+ "T" +:+ pad 2 h
     +:+ ":" +:+ pad 2 mi +:+ ":" +:+ pad 2 sec +:+ "." +:+ pad 3 ms +:+ "Z")
  = Some (daysFromCivil y mo d * 86400000
          + ((h * 60 + mi) * 60 + sec) * 1000 + ms).
Proof.
  intros Hy Hmo Hd Hh Hmi Hsec Hms.
  pose proof (daysInMonth_bound y mo) as Hb.
  unfold parseISO. rewrite !list_ascii_app.
  change (list_ascii_of_string "-") with ["-"%char].
  change (list_ascii_of_string "T") with ["T"%char].
  change (list_ascii_of_string ":") with [":"%char].
  change (list_ascii_of_string ".") with ["."%char].
  change (list_ascii_of_string "Z") with ["Z"%char].
  cbn [app].
  rewrite digits_pad by (change (10 ^ Z.of_nat 4) with 10000; lia).
  cbn [mbind option_bind]. rewrite sep_head. cbn [mbind option_bind].
  rewrite digits_pad by (change (10 ^ Z.of_nat 2) with 100; lia).
  cbn [mbind option_bind]. rewrite sep_head. cbn [mbind option_bind].
  rewrite digits_pad by (change (10 ^ Z.of_nat 2) with 100; lia).
  cbn [mbind option_bind]. rewrite sep_head. cbn [mbind option_bind].
  rewrite digits_pad by (change (10 ^ Z.of_nat 2) with 100; lia).
  cbn [mbind option_bind]. rewrite sep_head. cbn [mbind option_bind].
  rewrite digits_pad by (change (10 ^ Z.of_nat 2) with 100; lia).
  cbn [mbind option_bind]. rewrite sep_head. cbn [mbind option_bind].
  rewrite digits_pad by (change (10 ^ Z.of_nat 2) with 100; lia).
  cbn [mbind option_bind]. rewrite sep_head. cbn [mbind option_bind].
  rewrite <- (List.app_nil_r (list_ascii_of_string (pad 3 ms))) at 1.
  rewrite <- List.app_assoc. cbn [app].
  rewrite digits_pad by (change (10 ^ Z.of_nat 3) with 1000; lia).
  cbn [mbind option_bind].
  change (parseOffset ["Z"%char]) with (Some 0). cbn [mbind option_bind].
  replace ((1 <=? mo) && (mo <=? 12) && (1 <=? d) && (d <=? daysInMonth y mo)
           && (h <=? 23) && (mi <=? 59) && (sec <=? 59)) with true.
  - f_equal. lia.
  - symmetry. repeat (apply andb_true_iff; split); apply Z.leb_le; lia.
Qed.

Lemma civil_year_range d :
  0 <= d < 2932897 -> 1970 <= (civil d).1.1 < 10000.
Proof.
  intros Hd. unfold civil. cbn [fst snd].
  set (z := d + 719468).
  set (era := z / 146097).
  set (doe := z - era * 146097).
  assert (0 <= doe < 146097) as Hdoe by (subst doe era; arith).
  assert (4 <= era <= 24) as Hera by (subst era z; arith).
  assert (era = 4 -> 135080 <= doe) as Hlo by (subst doe era z; arith).
  assert (era = 24 -> doe < 146037) as Hhi by (subst doe era z; arith).
  clearbody doe era. clear z Hd.
  set (yoe := (doe - doe / 1460 + doe / 36524 - doe / 146096) / 365).
  assert (0 <= yoe < 400) as Hyoe by (subst yoe; arith).
  set (doy := doe - (365 * yoe + yoe / 4 - yoe / 100)).
  assert (0 <= doy <= 365) as Hdoy by (subst doy yoe; arith).
  assert (era = 4 -> 370 <= yoe \/ (yoe = 369 /\ 306 <= doy)) as Hlo'
    by (subst doy yoe; arith).
  assert (era = 24 -> yoe = 399 -> doy < 306) as Hhi'
    by (subst doy yoe; arith).
  clearbody doy yoe.
  set (mp := (5 * doy + 2) / 153).
  assert (0 <= mp <= 11) as Hmp by (subst mp; arith).
  assert (306 <= doy <-> 10 <= mp) as Hjan by (subst mp; arith).
  clearbody mp.
  destruct (Z.ltb_spec mp 10).
  - replace (mp + 3 <=? 2) with false by (symmetry; apply Z.leb_gt; lia). lia.
  - replace (mp - 9 <=? 2) with true by (symmetry; apply Z.leb_le; lia). lia.
Qed.

(** [DateTime.fromISO] reads back the instant [DateTime.utc().toISO()]
    wrote, for the years 1970 to 9999. *)
Lemma parseISO_toISO now :
  0 <= now < 253402300800000 -> parseISO (toISO (utc now)) = Some now.
Proof.
  intros Hnow. unfold toISO.
  change (offset (utc now)) with 0. cbn [Z.eqb].
  unfold year, month, day, hour, minute, second, millisecond, millisOfDay,
    localDays, localMillis.
  change (offset (utc now)) with 0. change (ts (utc now)) with now.
  replace (now + 0 * 60000) with now by lia.
  pose proof (civil_valid (now / 86400000)) as (Hm & Hd).
  pose proof (daysFromCivil_civil (now / 86400000)) as Hc.
  assert (0 <= now / 86400000 < 2932897) as Hdays by arith.
  pose proof (civil_year_range _ Hdays) as Hy.
  rewrite parseISO_fields; try assumption; try arith.
  f_equal. rewrite Hc. arith.
Qed.

End RoundTrip.

(** ** The week of a message *)
Section Weeks.
Import Luxon.

Lemma parseInt_Number_toString z :
  (0 <= z)%Z -> parseInt (Js.Number_toString z) = z.
Proof.
  intros Hz. unfold parseInt, Js.Number_toString.
  rewrite list_ascii_of_string_of_list_ascii.
  assert (JSON.print_Z z = JSON.print_N (Z.to_N z)) as ->.
  { destruct z; try reflexivity. lia. }
  unfold JSON.print_N.
  destruct (digits_go_parse _ _ (print_N_bound (Z.to_N z))) as [k Hk].
  rewrite <- (List.app_nil_r (JSON.digits_go _ _)), Hk.
  cbn [JSON.parse_digits fst]. lia.
Qed.

Lemma weekNumber_positive dt : (0 <= weekNumber dt)%Z.
Proof.
  unfold weekNumber.
  assert (forall y, 0 <= weeksInWeekYear y)%Z as Hw.
  { intros y. unfold weeksInWeekYear. destruct (_ || _); lia. }
  destruct (Z.ltb_spec ((ordinal dt - weekday dt + 10) / 7) 1); [apply Hw|].
  destruct (_ <? _)%Z; lia.
Qed.

Lemma handleMessageStream_processedAt now fs folder id stream fs' t :
  handleMessageStream now fs folder id stream = (fs', Resolved t) ->
  processedAt t = toISO (utc now).
Proof.
  unfold handleMessageStream. generalize (toISO (utc now)). intros iso.
  destruct (decoded stream) as [parseErr|parsed].
  - destruct (Fs.writeFile _ _ _); intros [= _ <-]; reflexivity.
  - destruct (Mailparser.from parsed) as [[[|first senders] ? ?]|];
      cbn [Mailparser.value]; [discriminate| |];
      destruct (Fs.writeFile _ _ _); intros [= _ <-]; reflexivity.
Qed.

(** The bucket of a stamp written at [now]: the week and the year of that
    instant in the zone of the process. *)
Lemma indexName_stamp zone now :
  (0 <= now < 253402300800000)%Z ->
  indexName zone (toISO (utc now))
  = "w" +:+ Js.Number_toString (weekNumber {| ts := now; zone := zone |})
    +:+ "-" +:+ Js.Number_toString (year {| ts := now; zone := zone |}).
Proof.
  intros H. unfold indexName, fromISO. rewrite (parseISO_toISO _ H).
  reflexivity.
Qed.

Variable sanitize : string -> string.

Lemma onData_processedAt zone now fs stream session fs' t r :
  onData sanitize zone now fs stream session = (fs', Indexed t r) ->
  processedAt t = toISO (utc now).
Proof.
  unfold onData.
  destruct (Smtp.rcptTo _) as [|rcpt rest]; [discriminate|].
  destruct (createRecipientDirectory _ _) as [fs1|]; [|discriminate].
  destruct (handleMessageStream _ _ _ _ _) as [fs2 [t'| |]] eqn:Hh;
    [|discriminate..].
  destruct (error t'); [discriminate|].
  destruct (writeErr t'); [discriminate|].
  destruct (updateOrCreateWeeklyMessageIndex _ _ _); intros [= _ <- _];
    exact (handleMessageStream_processedAt _ _ _ _ _ _ _ Hh).
Qed.

(** X17.  Whatever the default zone of the process, a message indexed at
    the instant [now] (years 1970 to 9999) goes to the bucket named after
    the ISO week number and the calendar year of that instant as seen in
    that zone. *)
Theorem bucket_is_week_in_process_zone
        systemZone now fs stream session fs' t r :
  (0 <= now < 253402300800000)%Z ->
  onData sanitize systemZone now fs stream session = (fs', Indexed t r) ->
  indexName systemZone (processedAt t)
  = "w"
    +:+ Js.Number_toString (weekNumber {| ts := now; zone := systemZone |})
    +:+ "-"
    +:+ Js.Number_toString (year {| ts := now; zone := systemZone |}).
Proof.
  intros Hnow H. rewrite (onData_processedAt _ _ _ _ _ _ _ _ H).
  exact (indexName_stamp _ _ Hnow).
Qed.

(** X18.  In a process whose default zone is UTC, a message indexed at the
    instant [now] goes to the bucket that the read API loads for the
    address to which [GET /api/mail] redirects at that instant. *)
Theorem utc_process_indexes_into_current_week now fs stream session fs' t r :
  (0 <= now < 253402300800000)%Z ->
  onData sanitize UTC now fs stream session = (fs', Indexed t r) ->
  exists year week,
    currentWeek now = Redirect ("/api/mail/" +:+ year +:+ "/" +:+ week)
    /\ indexName UTC (processedAt t)
       = "w" +:+ Js.Number_toString (parseInt week) +:+ "-"
         +:+ Js.Number_toString (parseInt year).
Proof.
  intros Hnow H. rewrite (onData_processedAt _ _ _ _ _ _ _ _ H).
  exists (Js.Number_toString (Luxon.year (utc now))),
    (Js.Number_toString (weekNumber (utc now))).
  split; [reflexivity|].
  rewrite (indexName_stamp _ _ Hnow).
  rewrite !parseInt_Number_toString; [reflexivity | |apply weekNumber_positive].
  unfold Luxon.year, localDays, localMillis.
  change (offset _) with 0%Z. change (ts _) with now.
  assert (0 <= (now + 0 * 60000) / 86400000 < 2932897)%Z as Hd by arith.
  pose proof (civil_year_range _ Hd). lia.
Qed.

End Weeks.

Lemma bucket_is_week_in_process_zone_witness :
  indexName Sample.plus_two
    (processedAt (Sample.summary "m1" "2024-01-07T23:30:00.000Z"))
  = "w"
    +:+ Js.Number_toString
          (Luxon.weekNumber
             {| Luxon.ts := Sample.sunday_night;
                Luxon.zone := Sample.plus_two |})
    +:+ "-"
    +:+ Js.Number_toString
          (Luxon.year
             {| Luxon.ts := Sample.sunday_night;
                Luxon.zone := Sample.plus_two |}).
Proof.
  refine (bucket_is_week_in_process_zone (fun a => a) Sample.plus_two
            Sample.sunday_night Fs.empty Sample.mail
            (Sample.session "m1" "user@example.com") _
            (Sample.summary "m1" "2024-01-07T23:30:00.000Z") (Ok ()) _ _).
  - unfold Sample.sunday_night. lia.
  - vm_compute. reflexivity.
Defined.

Lemma utc_process_indexes_into_current_week_witness :
  exists year week,
    currentWeek Sample.sunday_night
    = Redirect ("/api/mail/" +:+ year +:+ "/" +:+ week)
    /\ indexName Luxon.UTC
         (processedAt (Sample.summary "m1" "2024-01-07T23:30:00.000Z"))
       = "w" +:+ Js.Number_toString (parseInt week) +:+ "-"
         +:+ Js.Number_toString (parseInt year).
Proof.
  refine (utc_process_indexes_into_current_week (fun a => a)
            Sample.sunday_night Fs.empty Sample.mail
            (Sample.session "m1" "user@example.com") _
            (Sample.summary "m1" "2024-01-07T23:30:00.000Z") (Ok ()) _ _).
  - unfold Sample.sunday_night. lia.
  - vm_compute. reflexivity.
Defined.

(** ** [server.js] *)
Section LegacyDisk.

(** X19.  [server.js] names its files after the session alone: of two
    messages received in one session, the raw copy of the second replaces
    that of the first. *)
Theorem legacy_onData_keeps_last_message fs first second session :
  "mail/" +:+ Smtp.id session +:+ ".orig" ∉ Fs.unwritable fs ->
  Fs.files (Legacy.onData (Legacy.onData fs first session) second session)
  !! ("mail/" +:+ Smtp.id session +:+ ".orig")
  = Some (bytes second).
Proof.
  intros Hw.
  assert (forall fs0 stream,
             Fs.unwritable (Legacy.onData fs0 stream session)
             = Fs.unwritable fs0) as Hperm.
  { intros fs0 stream. unfold Legacy.onData.
    destruct (decoded stream);
      rewrite (proj1 (proj2 (pipe_frame _ _ _)));
      apply (proj1 (proj2 (pipe_frame _ _ _))). }
  assert (forall fs0 stream,
             "mail/" +:+ Smtp.id session +:+ ".orig" ∉ Fs.unwritable fs0 ->
             Fs.files (Legacy.onData fs0 stream session)
             !! ("mail/" +:+ Smtp.id session +:+ ".orig")
             = Some (bytes stream)) as Hlast.
  { intros fs0 stream H0. unfold Legacy.onData.
    destruct (decoded stream);
      rewrite (proj2 (proj2 (pipe_frame _ _ _)));
      try apply (pipe_written _ _ _ H0);
      intros Heq; apply append_cancel_l, append_cancel_l in Heq;
      discriminate. }
  apply Hlast. rewrite Hperm. exact Hw.
Qed.

End LegacyDisk.

Lemma legacy_onData_keeps_last_message_witness :
  Fs.files
    (Legacy.onData (Legacy.onData Fs.empty Sample.mail
                      (Sample.session "m1" "user@example.com"))
       Sample.broken (Sample.session "m1" "user@example.com"))
  !! ("mail/" +:+ Smtp.id (Sample.session "m1" "user@example.com") +:+ ".orig")
  = Some (bytes Sample.broken).
Proof.
  apply legacy_onData_keeps_last_message. apply not_elem_of_empty.
Defined.

(** ** From ingestion to the read API *)
Section EndToEnd.

Variable sanitize : string -> string.
Variable systemZone : Luxon.Zone.

(** X20.  What was ingested can be fetched: after [onData] has indexed a
    message for the recipient folder of [u@d], the read API answers the
    request for domain [d], user [u] and the file name of the summary with
    200 and the properties of the decoded message, provided the artifact
    can be read, the decoder's text is a JSON object, [sanitize] leaves
    [u@d] unchanged and the bucket of the week is stored under its own
    name. *)
Theorem ingested_message_can_be_fetched
        now fs stream session fs' t i rcpt rest u d parsed ps :
  onData sanitize systemZone now fs stream session
  = (fs', Indexed t (Ok ())) ->
  Smtp.rcptTo (Smtp.envelope session) = rcpt :: rest ->
  sanitize (Smtp.address rcpt) = u +:+ "@" +:+ d ->
  sanitize (u +:+ "@" +:+ d) = u +:+ "@" +:+ d ->
  decoded stream = inr parsed ->
  JSON.parse (Mailparser.json parsed) = Some (VObject ps) ->
  loadWeeklyIndex fs (indexName systemZone (processedAt t)) = index_value i ->
  name i = indexName systemZone (processedAt t) ->
  messagePath sanitize d u (filename t) ∉ Fs.unreadable fs ->
  exists out,
    fetchMessage sanitize fs' d u (filename t) = Json 200 (VObject out)
    /\ forall k, Obj.mem k (List.map fst ps) = true ->
                 Obj.get k out = Obj.get k ps.
Proof.
  unfold onData. intros H Hrcpt Hs Hs' Hdec Hjson Hl Hn Hr.
  rewrite Hrcpt in H.
  unfold createRecipientDirectory, Fs.mkdir in H.
  destruct (decide _); [discriminate|].
  destruct (handleMessageStream _ _ _ _ _) as [fs2 [t'| |]] eqn:Hh;
    [|discriminate..].
  destruct (error t') eqn:He; [discriminate|].
  destruct (writeErr t') eqn:Hw; [discriminate|].
  destruct (updateOrCreateWeeklyMessageIndex _ _ _) as [fs3|] eqn:Hu;
    [|discriminate].
  injection H as <- <-.
  destruct (handleMessageStream_artifact _ _ _ _ _ _ _ Hh He Hw)
    as (parsed' & Hdec' & Hfolder & Hfile).
  rewrite Hdec in Hdec'. injection Hdec' as <-.
  assert (messagePath sanitize d u (filename t')
          = ("mail/" +:+ sanitize (Smtp.address rcpt) +:+ "/")
            +:+ filename t') as Hpath.
  { rewrite messagePath_folder, Hs', Hs. reflexivity. }
  rewrite <- Hpath in Hfile.
  assert (same_at (indexPath (indexName systemZone (processedAt t'))) fs fs2)
    as Hsame.
  { apply (handleMessageStream_frame _ _ _ _ _ _ _ _ Hh).
    - intros Heq. symmetry in Heq. exact (raw_not_index _ _ _ Heq).
    - intros Heq. symmetry in Heq. exact (err_not_index _ _ _ Heq).
    - intros Heq. symmetry in Heq. rewrite !append_assoc in Heq.
      exact (bucket_not_in_folder _ _ _ (indexName_no_slash _ _) Heq). }
  rewrite <- (loadWeeklyIndex_same_at _ _ _ Hsame) in Hl.
  rewrite (updateOrCreateWeeklyMessageIndex_prepends _ _ _ _ Hl) in Hu.
  assert (messagePath sanitize d u (filename t') <> indexPath (name i))
    as Hne.
  { rewrite Hpath, Hn, !append_assoc.
    apply bucket_not_in_folder, indexName_no_slash. }
  destruct (writeFile_frame _ _ _ _ Hu) as (Hr3 & _ & Hf3).
  assert (Fs.unreadable fs2 = Fs.unreadable fs) as Hr2.
  { assert (same_at EmptyString fs fs2) as (Hx & _).
    { apply (handleMessageStream_frame _ _ _ _ _ _ _ _ Hh);
        intros Heq; destruct (sanitize (Smtp.address rcpt)); discriminate. }
    exact Hx. }
  assert (Fs.readFile fs3 (messagePath sanitize d u (filename t'))
          = Ok (Mailparser.json parsed)) as Hread.
  { unfold Fs.readFile. rewrite Hr3, Hr2.
    destruct (decide _); [contradiction|].
    rewrite (Hf3 _ Hne), Hfile. reflexivity. }
  unfold fetchMessage, loadMessage. rewrite Hread, Hjson.
  cbn [Js.truthy negb Js.spread]. eexists. split; [reflexivity|].
  intros k Hk.
  destruct (plain_members _ (parse_plain _ _ Hjson)) as [Hd _].
  exact (get_assign_present _ _ _ Hd Hk).
Qed.

End EndToEnd.

Lemma ingested_message_can_be_fetched_witness :
  exists out,
    fetchMessage (fun a => a)
      (onData (fun a => a) Luxon.UTC Sample.sunday_night Fs.empty Sample.mail
         (Sample.session "m1" "user@example.com")).1
      "example.com" "user"
      (filename (Sample.summary "m1" "2024-01-07T23:30:00.000Z"))
    = Json 200 (VObject out)
    /\ forall k,
         Obj.mem k (List.map fst ([] : list (string * value))) = true ->
         Obj.get k out = Obj.get k [].
Proof.
  refine (ingested_message_can_be_fetched (fun a => a) Luxon.UTC
            Sample.sunday_night Fs.empty Sample.mail
            (Sample.session "m1" "user@example.com") _
            (Sample.summary "m1" "2024-01-07T23:30:00.000Z")
            {| name := "w1-2024"; messages := [] |}
            {| Smtp.address := "user@example.com" |} []
            "user" "example.com" _ [] _ eq_refl eq_refl eq_refl eq_refl
            _ _ _ _).
  - vm_compute. reflexivity.
  - vm_compute. reflexivity.
  - vm_compute. reflexivity.
  - vm_compute. reflexivity.
  - apply not_elem_of_empty.
Defined.

(** ** Updates of several buckets *)
Section Buckets.

Variable systemZone : Luxon.Zone.
Variable summaries : list TransactionSummary.

Local Abbreviation inv := (buckets_invariant systemZone summaries).

Lemma at_most_one (p : Update -> bool) (l : list Update) i j u v :
  List.length (List.filter p l) <= 1 ->
  l !! i = Some u -> p u = true -> l !! j = Some v -> i <> j -> p v = false.
Proof.
  revert i j; induction l as [|x l IH]; intros i j Hlen Hi Hu Hj Hne;
    [discriminate|].
  cbn [List.filter] in Hlen.
  destruct i as [|i], j as [|j]; cbn in Hi, Hj; simplify_eq.
  - rewrite Hu in Hlen. cbn in Hlen.
    destruct (p v) eqn:Hv; [|reflexivity].
    assert (In v (List.filter p l)) as Hin.
    { apply filter_In. split; [|exact Hv].
      apply list_elem_of_In, list_elem_of_lookup. eauto. }
    destruct (List.filter p l); [destruct Hin | simpl in Hlen; lia].
  - destruct (p v) eqn:Hv; [|reflexivity]. cbn in Hlen.
    assert (In u (List.filter p l)) as Hin.
    { apply filter_In. split; [|exact Hu].
      apply list_elem_of_In, list_elem_of_lookup. eauto. }
    destruct (List.filter p l); [destruct Hin | simpl in Hlen; lia].
  - apply (IH i j); auto.
    destruct (p x); cbn in Hlen; lia.
Qed.

Lemma inBucket_cons_same n t done :
  bucket systemZone t = n ->
  inBucket systemZone n (t :: done) = t :: inBucket systemZone n done.
Proof.
  intros H. unfold inBucket. cbn [List.filter].
  rewrite (proj2 (String.eqb_eq _ _) H). reflexivity.
Qed.

Lemma inBucket_cons_other n t done :
  bucket systemZone t <> n ->
  inBucket systemZone n (t :: done) = inBucket systemZone n done.
Proof.
  intros H. unfold inBucket. cbn [List.filter].
  rewrite (proj2 (String.eqb_neq _ _) H). reflexivity.
Qed.

Lemma inBucket_well_formed n done :
  Forall (fun t => JSON.well_formed (summary_value t) = true) done ->
  Forall (fun t => JSON.well_formed (summary_value t) = true)
    (inBucket systemZone n done).
Proof.
  intros H. apply List.Forall_forall. intros t [Ht _]%filter_In.
  rewrite List.Forall_forall in H. exact (H t Ht).
Qed.

Lemma pending_summary s i u :
  inv s -> calls s !! i = Some u -> pending u = Some (summaryOf u) ->
  summaryOf u ∈ summaries.
Proof.
  intros Hinv Hi Hp. rewrite <- (pb_all _ _ _ Hinv).
  apply elem_of_app. right. apply list_elem_of_omap. exists u.
  split; [|exact Hp]. apply list_elem_of_lookup. eauto.
Qed.

(** *** One turn of the event loop keeps the invariant *)

Lemma resume_buckets i s :
  inv s -> oneInFlightPerBucket systemZone s -> inv (resume systemZone i s).
Proof.
  intros Hinv Hone. unfold resume.
  destruct (calls s !! i) as [u|] eqn:Hi; [|exact Hinv].
  pose proof (proj1 (Forall_lookup _ _) (pb_calls _ _ _ Hinv) i u Hi) as Hu.
  destruct u as [t|t path text|t r].
  - pose proof (pending_summary s i _ Hinv Hi eq_refl) as Hin.
    cbn [summaryOf] in Hin.
    pose proof (proj1 (List.Forall_forall _ _) (pb_bucket _ _ _ Hinv) t
                  (proj1 (list_elem_of_In _ _) Hin)) as Hb.
    cbn [advance]. fold (bucket systemZone t). rewrite Hb.
    rewrite newIndex_index_value, indexFile_index_value.
    cbn [name messages].
    destruct Hinv as [Iw Ir Ib Ic Id Ia].
    constructor; cbn [disk calls completed persisted List.app]; auto.
    + apply Forall_insert; [assumption|]. cbn. auto.
    + rewrite (omap_pending_insert_same _ _ (Loading t)); auto.
  - destruct Hu as (Hw & -> & ->). cbn [advance].
    pose proof (pending_summary s i _ Hinv Hi eq_refl) as Hin.
    cbn [summaryOf] in Hin. apply list_elem_of_In in Hin.
    pose proof (proj1 (List.Forall_forall _ _) (pb_writable _ _ _ Hinv) t Hin)
      as Hwr.
    pose proof (proj1 (List.Forall_forall _ _) (pb_readable _ _ _ Hinv) t Hin)
      as Hrd.
    destruct (writeFile_writable (disk s) (indexPath (bucket systemZone t))
                (string_of_list_ascii
                   (JSON.text 0
                      (index_value
                         {| name := bucket systemZone t;
                            messages :=
                              summary_value t
                                :: (summary_json
                                      <$> inBucket systemZone
                                            (bucket systemZone t)
                                            (completed s))
                         |})))
                Hwr) as [fs' Hfs'].
    rewrite Hfs'.
    destruct (writeFile_frame _ _ _ _ Hfs') as (Hur & Huw & Hframe).
    pose proof (loadWeeklyIndex_saved (disk s) fs'
                  {| name := bucket systemZone t;
                     messages :=
                       summary_value t
                         :: (summary_json
                               <$> inBucket systemZone (bucket systemZone t)
                                     (completed s)) |}
                  (well_formed_next_index _ t _ Hw
                     (inBucket_well_formed _ _ (pb_done _ _ _ Hinv)))
                  Hfs' Hrd) as Hload.
    rewrite jsonify_next_index in Hload. injection Hload as Hload.
    cbn [name] in Hload.
    destruct Hinv as [Iw Ir Ib Ic Id Ia].
    constructor; cbn [disk calls completed persisted List.app name] in *.
    + rewrite Huw. assumption.
    + rewrite Hur. assumption.
    + apply List.Forall_forall. intros t0 Ht0.
      pose proof (proj1 (List.Forall_forall _ _) Ib t0 Ht0) as Hb0.
      destruct (String.eqb_spec (bucket systemZone t) (bucket systemZone t0))
        as [Heq|Hne].
      * rewrite <- Heq, inBucket_cons_same by reflexivity. exact Hload.
      * rewrite inBucket_cons_other by assumption. rewrite <- Hb0.
        apply loadWeeklyIndex_same_at.
        apply (writeFile_same_at _ _ _ _ _ Hfs').
        intros Hp. apply indexPath_injective in Hp. congruence.
    + apply Forall_lookup. intros j v Hj.
      destruct (decide (i = j)) as [<-|Hne].
      * rewrite list_lookup_insert_eq in Hj
          by (apply lookup_lt_Some in Hi; exact Hi).
        injection Hj as <-. reflexivity.
      * rewrite list_lookup_insert_ne in Hj by assumption.
        pose proof (proj1 (Forall_lookup _ _) Ic j v Hj) as Hv.
        destruct v as [t'|t' path' text'|t' r']; [exact Hv | | exact Hv].
        destruct Hv as (Hw' & -> & ->).
        assert (bucket systemZone t' <> bucket systemZone t) as Hother.
        { intros Heq.
          pose proof (proj1 (Forall_lookup _ _) Hone i _ Hi) as Hlen.
          cbn [summaryOf] in Hlen.
          pose proof (at_most_one _ _ i j _ _ Hlen Hi
                        ltac:(cbn; apply String.eqb_refl) Hj Hne) as Hf.
          cbn in Hf. fold (bucket systemZone t') in Hf.
          fold (bucket systemZone t) in Hf.
          rewrite (proj2 (String.eqb_eq _ _) Heq) in Hf. discriminate. }
        cbn [bucket_call_ok]. rewrite inBucket_cons_other by congruence. auto.
    + constructor; assumption.
    + rewrite <- Ia.
      rewrite (omap_pending_insert_settled (calls s) i _ t (Ok ()) Hi eq_refl).
      cbn. apply Permutation_middle.
  - cbn [advance persisted List.app]. rewrite (list_insert_id _ _ _ Hi).
    destruct s. exact Hinv.
Qed.

Lemma run_buckets schedule s :
  inv s -> serializedPerBucket systemZone schedule s ->
  inv (run systemZone schedule s).
Proof.
  revert s; induction schedule as [|i schedule IH]; intros s Hinv Hser;
    [exact Hinv|].
  destruct Hser as [Hone Hser]. cbn [run fold_left].
  apply IH; [apply resume_buckets; assumption | exact Hser].
Qed.

Lemma start_buckets fs :
  Forall (fun t => JSON.well_formed (summary_value t) = true
                   /\ Fs.files fs !! indexPath (bucket systemZone t) = None
                   /\ (indexPath (bucket systemZone t) ∉ Fs.unwritable fs)
                   /\ (indexPath (bucket systemZone t) ∉ Fs.unreadable fs))
    summaries ->
  inv (start fs summaries).
Proof.
  intros Hs. constructor; cbn [start disk calls completed].
  - eapply Forall_impl; [exact Hs|]. intros t (_ & _ & H & _). exact H.
  - eapply Forall_impl; [exact Hs|]. intros t (_ & _ & _ & H). exact H.
  - eapply Forall_impl; [exact Hs|]. intros t (_ & Hfile & _ & _).
    unfold loadWeeklyIndex, Fs.readFile.
    destruct (decide _); [reflexivity|]. rewrite Hfile. reflexivity.
  - apply Forall_fmap. eapply Forall_impl; [exact Hs|].
    intros t (H & _). exact H.
  - constructor.
  - cbn. rewrite omap_pending_loading. reflexivity.
Qed.

(** X21.  Serializing the updates bucket by bucket is enough.  For summaries
    of any weeks, if the schedule never has two calls of the same bucket
    between their load and their save (calls of different buckets may
    overlap at will), every call runs to its end and the bucket files are
    absent at first and can be written and read, then every summary is
    persisted, and each bucket holds exactly its own summaries, latest
    first. *)
Theorem per_bucket_serialization_suffices fs schedule :
  Forall (fun t => JSON.well_formed (summary_value t) = true
                   /\ Fs.files fs !! indexPath (bucket systemZone t) = None
                   /\ (indexPath (bucket systemZone t) ∉ Fs.unwritable fs)
                   /\ (indexPath (bucket systemZone t) ∉ Fs.unreadable fs))
    summaries ->
  serializedPerBucket systemZone schedule (start fs summaries) ->
  Forall (fun u => settled u = true)
    (calls (run systemZone schedule (start fs summaries))) ->
  completed (run systemZone schedule (start fs summaries)) ≡ₚ summaries
  /\ Forall
       (fun t =>
          loadWeeklyIndex (disk (run systemZone schedule (start fs summaries)))
            (bucket systemZone t)
          = index_value
              {| name := bucket systemZone t;
                 messages :=
                   summary_json
                     <$> inBucket systemZone (bucket systemZone t)
                           (completed
                              (run systemZone schedule (start fs summaries)))
              |})
       summaries.
Proof.
  intros Hs Hser Hsettled.
  pose proof (run_buckets _ _ (start_buckets fs Hs) Hser) as Hinv.
  split; [|exact (pb_bucket _ _ _ Hinv)].
  pose proof (pb_all _ _ _ Hinv) as Hall.
  rewrite (omap_pending_settled _ Hsettled), List.app_nil_r in Hall.
  exact Hall.
Qed.

End Buckets.

Lemma per_bucket_serialization_suffices_witness :
  completed (run Luxon.UTC [0; 1; 0; 1]
               (start Fs.empty [Sample.first; Sample.third]))
  ≡ₚ [Sample.first; Sample.third]
  /\ Forall
       (fun t =>
          loadWeeklyIndex
            (disk (run Luxon.UTC [0; 1; 0; 1]
                     (start Fs.empty [Sample.first; Sample.third])))
            (bucket Luxon.UTC t)
          = index_value
              {| name := bucket Luxon.UTC t;
                 messages :=
                   summary_json
                     <$> inBucket Luxon.UTC (bucket Luxon.UTC t)
                           (completed
                              (run Luxon.UTC [0; 1; 0; 1]
                                 (start Fs.empty [Sample.first; Sample.third])))
              |})
       [Sample.first; Sample.third].
Proof.
  apply (per_bucket_serialization_suffices Luxon.UTC
           [Sample.first; Sample.third] Fs.empty [0; 1; 0; 1]).
  - repeat constructor; try apply not_elem_of_empty.
  - cbn [serializedPerBucket].
    repeat split; repeat constructor; vm_compute; lia.
  - vm_compute. repeat constructor.
Defined.

(** ** Who gets past [checkApiKey] *)
Section Access.

Variable sanitize : string -> string.


End Access.

(** ** Earlier messages are kept *)
Section Labels.
Import Luxon.

Lemma append_same_length (a b x y : string) :
  String.length a = String.length b -> a +:+ x = b +:+ y -> a = b /\ x = y.
Proof.
  revert b; induction a as [|c a IH]; intros [|d b] Hl H; simpl in *;
    try discriminate.
  - auto.
  - injection H as -> H. injection Hl as Hl.
    destruct (IH _ Hl H) as [-> ->]. auto.
Qed.

Lemma toISO_injective a b :
  (0 <= a < 253402300800000)%Z -> (0 <= b < 253402300800000)%Z ->
  toISO (utc a) = toISO (utc b) -> a = b.
Proof.
  intros Ha Hb H. apply (f_equal parseISO) in H.
  rewrite !parseISO_toISO in H by assumption. congruence.
Qed.

Lemma pad_length w z :
  (0 <= z < 10 ^ Z.of_nat w)%Z -> (0 < w)%nat -> String.length (pad w z) = w.
Proof.
  intros Hz Hw. unfold pad, Js.Number_toString.
  rewrite length_append, !length_of_list, List.repeat_length.
  assert (JSON.print_Z z = JSON.print_N (Z.to_N z)) as ->.
  { destruct z; try reflexivity. lia. }
  assert (Z.to_N z < 10 ^ N.of_nat w)%N as Hn.
  { apply N2Z.inj_lt. rewrite N2Z.inj_pow, Z2N.id, nat_N_Z by lia. apply Hz. }
  pose proof (digits_go_length (S (N.to_nat (N.size (Z.to_N z)))) _ w Hn Hw).
  unfold JSON.print_N. lia.
Qed.

Lemma toISO_length now :
  (0 <= now < 253402300800000)%Z -> String.length (toISO (utc now)) = 24.
Proof.
  intros Hnow. unfold toISO.
  change (offset (utc now)) with 0%Z. cbn [Z.eqb].
  unfold year, month, day, hour, minute, second, millisecond, millisOfDay,
    localDays, localMillis.
  change (offset (utc now)) with 0%Z. change (ts (utc now)) with now.
  replace (now + 0 * 60000)%Z with now by lia.
  pose proof (civil_valid (now / 86400000)) as (Hm & Hd).
  pose proof (daysInMonth_bound (civil (now / 86400000)).1.1
                (civil (now / 86400000)).1.2) as Hb.
  assert (0 <= now / 86400000 < 2932897)%Z as Hdays by arith.
  pose proof (civil_year_range _ Hdays) as Hy.
  rewrite !length_append.
  rewrite !pad_length; solve [lia | reflexivity | arith].
Qed.

(** The label of a message tells the instant and the session. *)
Lemma label_injective a b id1 id2 :
  (0 <= a < 253402300800000)%Z -> (0 <= b < 253402300800000)%Z ->
  toISO (utc a) +:+ "-" +:+ id1 = toISO (utc b) +:+ "-" +:+ id2 ->
  a = b /\ id1 = id2.
Proof.
  intros Ha Hb H.
  destruct (append_same_length (toISO (utc a)) (toISO (utc b)) _ _
              ltac:(rewrite !toISO_length by assumption; reflexivity) H)
    as [Hiso Hid].
  split; [exact (toISO_injective _ _ Ha Hb Hiso)|].
  injection Hid as Hid. exact Hid.
Qed.

(** X23.  A later message never replaces the files of an earlier one in the
    same folder, unless both come from the same session in the same
    millisecond: [handleMessageStream] leaves the raw copy and the artifact
    of every other label as they are. *)
Theorem later_message_keeps_earlier_files
        now1 id1 now2 id2 fs folder stream fs' p suffix :
  (0 <= now1 < 253402300800000)%Z -> (0 <= now2 < 253402300800000)%Z ->
  now1 <> now2 \/ id1 <> id2 ->
  In suffix [".raw"; ".json"; ".err"] ->
  handleMessageStream now2 fs folder id2 stream = (fs', p) ->
  same_at (folder +:+ (toISO (utc now1) +:+ "-" +:+ id1) +:+ suffix) fs fs'.
Proof.
  intros H1 H2 Hne Hs Hh.
  assert (forall suffix',
             In suffix' [".raw"; ".json"; ".err"] ->
             folder +:+ (toISO (utc now1) +:+ "-" +:+ id1) +:+ suffix
             <> folder +:+ (toISO (utc now2) +:+ "-" +:+ id2) +:+ suffix')
    as Hpaths.
  { intros suffix' Hs' Heq. apply append_cancel_l in Heq.
    assert (suffix = suffix') as <-.
    { rewrite <- !append_assoc in Heq.
      cbn [In] in Hs, Hs'.
      destruct Hs as [<-|[<-|[<-|[]]]], Hs' as [<-|[<-|[<-|[]]]];
        try reflexivity; exfalso; revert Heq;
        [apply (last_letter "w" "n" ".ra" ".jso")
        |apply (last_letter "w" "r" ".ra" ".er")
        |apply (last_letter "n" "w" ".jso" ".ra")
        |apply (last_letter "n" "r" ".jso" ".er")
        |apply (last_letter "r" "w" ".er" ".ra")
        |apply (last_letter "r" "n" ".er" ".jso")]; discriminate. }
    apply append_cancel_r in Heq.
    destruct (label_injective _ _ _ _ H1 H2 Heq) as [-> ->].
    destruct Hne as [Hne|Hne]; apply Hne; reflexivity. }
  apply (handleMessageStream_frame _ _ _ _ _ _ _ _ Hh);
    apply Hpaths; cbn [In]; auto.
Qed.

End Labels.

Lemma later_message_keeps_earlier_files_witness :
  same_at
    ("mail/user@example.com/"
     +:+ (Luxon.toISO (Luxon.utc Sample.sunday_night) +:+ "-" +:+ "m1")
     +:+ ".json")
    Fs.empty
    (handleMessageStream Sample.sunday_night Fs.empty
       "mail/user@example.com/" "m2" Sample.mail).1.
Proof.
  refine (later_message_keeps_earlier_files Sample.sunday_night "m1"
            Sample.sunday_night "m2" Fs.empty "mail/user@example.com/"
            Sample.mail _
            (Resolved (Sample.summary "m2" "2024-01-07T23:30:00.000Z"))
            ".json" _ _ _ _ _).
  - unfold Sample.sunday_night. lia.
  - unfold Sample.sunday_night. lia.
  - right. discriminate.
  - right. left. reflexivity.
  - vm_compute. reflexivity.
Defined.
